(** * MLMS: lending state machine, metadata enrichment, due dates, recommendations

    A shallow embedding of the server-side library code
    ([lib/reading-time.ts], [lib/external-books.ts], [routes/loans.routes.ts],
    [routes/books.routes.ts] and the recommendation route) together with the
    properties stated about it.

    Conventions of the embedding
    - JavaScript strings are sequences of code units; the model covers the
      ASCII range (lower-casing and white space are the ASCII ones).
    - JavaScript numbers that hold counts are [Z]; numbers that hold ratios
      and ratings are exact rationals [Q].
    - The store reached through Prisma is explicit state; a [$transaction]
      is a function on the store that either commits a new store or
      leaves the old one in place.
    - The two bibliographic providers are functions of the query, and every
      call is recorded in a log so that the order of calls can be stated. *)

From Stdlib Require Import ZArith QArith Qround Bool Ascii Lia Lqa.
From Stdlib Require Import Permutation Sorted.
From stdpp Require Import gmap strings list sorting stringmap.

Local Open Scope Z_scope.

(** ** JavaScript string primitives *)

Module JS.

Definition code (c : ascii) : Z := Z.of_nat (nat_of_ascii c).

Definition is_upper (c : ascii) : bool := (65 <=? code c) && (code c <=? 90).
Definition is_lower (c : ascii) : bool := (97 <=? code c) && (code c <=? 122).
Definition is_digit (c : ascii) : bool := (48 <=? code c) && (code c <=? 57).

(** [\s] restricted to ASCII: tab, line feed, vertical tab, form feed,
    carriage return and space. *)
Definition is_space (c : ascii) : bool :=
  ((9 <=? code c) && (code c <=? 13)) || (code c =? 32).

Definition lower_char (c : ascii) : ascii :=
  if is_upper c then ascii_of_nat (nat_of_ascii c + 32) else c.

Fixpoint toLowerCase (s : string) : string :=
  match s with
  | EmptyString => EmptyString
  | String c s' => String (lower_char c) (toLowerCase s')
  end.

Definition is_empty (s : string) : bool :=
  match s with EmptyString => true | _ => false end.

(** Truthiness of a string value: [""] is falsy. *)
Definition truthy (s : string) : bool := negb (is_empty s).

(** Truthiness of [string | null]. *)
Definition truthy_opt (o : option string) : bool :=
  match o with Some s => truthy s | None => false end.

Fixpoint trimStart (s : string) : string :=
  match s with
  | EmptyString => EmptyString
  | String c s' => if is_space c then trimStart s' else s
  end.

Fixpoint trimEnd (s : string) : string :=
  match s with
  | EmptyString => EmptyString
  | String c s' =>
      let t := trimEnd s' in
      if is_space c && is_empty t then EmptyString else String c t
  end.

Definition trim (s : string) : string := trimEnd (trimStart s).

Fixpoint startsWith (s p : string) {struct p} : bool :=
  match p, s with
  | EmptyString, _ => true
  | String _ _, EmptyString => false
  | String a p', String b s' => if Ascii.eqb a b then startsWith s' p' else false
  end.

(** [s.includes(sub)] *)
Fixpoint includes (s sub : string) : bool :=
  startsWith s sub ||
  match s with
  | EmptyString => false
  | String _ s' => includes s' sub
  end.

(** [s.replace(/[^a-z0-9]+/g, " ")]: every maximal run of characters outside
    [a-z0-9] becomes one space.  [in_run] tells that the previous character
    already belonged to such a run. *)
Fixpoint collapse_runs (in_run : bool) (s : string) : string :=
  match s with
  | EmptyString => EmptyString
  | String c s' =>
      if is_lower c || is_digit c then String c (collapse_runs false s')
      else if in_run then collapse_runs true s'
      else String " "%char (collapse_runs true s')
  end.

(** [value.toLowerCase().replace(/[^a-z0-9]+/g, " ").trim()], the body shared
    by [normalize] (reading-time.ts) and [normalizeForCompare]
    (external-books.ts). *)
Definition normalize (value : string) : string :=
  trim (collapse_runs false (toLowerCase value)).

(** A value that is neither [null] nor [undefined]. *)
Definition defined {A} (o : option A) : bool :=
  match o with Some _ => true | None => false end.

(** [Math.round]: the nearest integer, halves rounded up. *)
Definition round (q : Q) : Z := Qfloor (q + (1 # 2)).

(** [Number(q.toFixed(f))] for [q >= 0]: the nearest multiple of [10^-f],
    halves rounded up. *)
Definition toFixed (f : nat) (q : Q) : Q :=
  Qred (inject_Z (round (q * inject_Z (10 ^ Z.of_nat f))) / inject_Z (10 ^ Z.of_nat f)).

(** [input.charCodeAt(i)] for every [i], in order. *)
Fixpoint charCodes (s : string) : list Z :=
  match s with
  | EmptyString => []
  | String c s' => code c :: charCodes s'
  end.

End JS.

(** ** Provider calls and their log *)

Inductive Call : Type :=
| GoogleVolumes (q : string)       (* reading-time.ts, Google Books *)
| OpenLibraryDocs (q : string)     (* reading-time.ts, Open Library *)
| SearchGoogle (q : string) (limit : Z)       (* external-books.ts *)
| SearchOpenLibrary (q : string) (limit : Z). (* external-books.ts *)

(** A computation that awaits provider calls: it extends the log of calls
    made so far. *)
Definition Net (A : Type) : Type := list Call -> A * list Call.

#[global] Instance net_ret : MRet Net := fun A (a : A) log => (a, log).
#[global] Instance net_bind : MBind Net := fun A B (k : A -> Net B) (m : Net A) log =>
  let '(a, log') := m log in k a log'.

Definition call {A} (c : Call) (response : A) : Net A :=
  fun log => (response, log ++ [c]).

(** The calls a computation makes when started on an empty log. *)
Definition calls {A} (m : Net A) : list Call := snd (m []).
Definition result {A} (m : Net A) : A := fst (m []).

(** ** Due-date estimator (lib/reading-time.ts) *)

Module ReadingTime.

Record EstimateDueDateInput := {
  title : string;
  author : string;
  isbn : option string
}.

Inductive Source := google_books | openlibrary | fallback.

Record DueDateEstimate := {
  dueAt : Z;                 (* milliseconds since the epoch *)
  days : Z;
  source : Source;
  pageCount : option Z
}.

Definition minimumDays : Z := 14.
Definition maximumDays : Z := 45.
Definition fallbackDays : Z := 30.

Definition normalize (value : string) : string := JS.normalize value.

Definition estimatePagesPerDay (category : option string) : Z :=
  match category with
  | None => 35
  | Some c =>
      if JS.is_empty c then 35 else
      let value := normalize c in
      if JS.includes value "children" || JS.includes value "young adult" then 50
      else if JS.includes value "science" || JS.includes value "engineering"
              || JS.includes value "technology" || JS.includes value "computer" then 25
      else if JS.includes value "fantasy" || JS.includes value "historical"
              || JS.includes value "classic" then 30
      else 35
  end.

Definition clampDays (days : Q) : Z :=
  Z.max minimumDays (Z.min maximumDays (JS.round days)).

Definition buildDueDate (now days : Z) : Z :=
  now + days * 24 * 60 * 60 * 1000.

(** The part of a Google Books volume the estimator reads. *)
Record VolumeInfo := {
  v_title : option string;
  v_authors : option (list string);
  v_pageCount : option Z;
  v_categories : option (list string)
}.

Record GoogleItem := { volumeInfo : option VolumeInfo }.
Record GooglePayload := { items : option (list GoogleItem) }.

(** The part of an Open Library document the estimator reads. *)
Record OpenLibraryDoc := {
  number_of_pages_median : option Z;
  d_title : option string;
  author_name : option (list string)
}.
Record OpenLibraryPayload := { docs : option (list OpenLibraryDoc) }.

(** [xs?.[0] ?? ""] *)
Definition first_or_empty (xs : option (list string)) : string :=
  match xs with
  | Some (x :: _) => x
  | _ => ""
  end.

(** The title and author comparison written out in both page-count loops:
    [exact] points for equal normalised strings, [partial] points when both
    are non-empty and one includes the other. *)
Definition similarity (exact partial : Z) (candidate target : string) : Z :=
  if String.eqb candidate target then exact
  else if JS.truthy candidate && JS.truthy target
          && (JS.includes candidate target || JS.includes target candidate)
       then partial
  else 0.

Record GoogleBest := { g_score : Z; g_pageCount : Z; g_category : option string }.
Record OpenLibraryBest := { o_score : Z; o_pages : Z }.

Definition google_step (titleNorm authorNorm : string)
    (best : option GoogleBest) (item : GoogleItem) : option GoogleBest :=
  match volumeInfo item with
  | None => best
  | Some volume =>
      match v_pageCount volume with
      | None => best
      | Some pages =>
          if (pages =? 0) || (pages <? 30) then best else
          let candidateTitle := normalize (default "" (v_title volume)) in
          let candidateAuthor := normalize (first_or_empty (v_authors volume)) in
          let score := similarity 30 15 candidateTitle titleNorm
                       + similarity 20 10 candidateAuthor authorNorm
                       + Z.min 15 (pages / 40) in
          let category := match v_categories volume with
                          | Some (c :: _) => Some c
                          | _ => None
                          end in
          match best with
          | None => Some {| g_score := score; g_pageCount := pages; g_category := category |}
          | Some b =>
              if g_score b <? score
              then Some {| g_score := score; g_pageCount := pages; g_category := category |}
              else best
          end
      end
  end.

Definition openlibrary_step (titleNorm authorNorm : string)
    (best : option OpenLibraryBest) (doc : OpenLibraryDoc) : option OpenLibraryBest :=
  match number_of_pages_median doc with
  | None => best
  | Some pages =>
      if (pages =? 0) || (pages <? 30) then best else
      let candidateTitle := normalize (default "" (d_title doc)) in
      let candidateAuthor := normalize (first_or_empty (author_name doc)) in
      let score := similarity 30 15 candidateTitle titleNorm
                   + similarity 20 10 candidateAuthor authorNorm in
      match best with
      | None => Some {| o_score := score; o_pages := pages |}
      | Some b =>
          if o_score b <? score then Some {| o_score := score; o_pages := pages |}
          else best
      end
  end.

(** [input.isbn ? `isbn:...` : `intitle:...+inauthor:...`] *)
Definition google_query (input : EstimateDueDateInput) : string :=
  match isbn input with
  | Some i => if JS.truthy i then "isbn:" +:+ i
              else "intitle:" +:+ title input +:+ "+inauthor:" +:+ author input
  | None => "intitle:" +:+ title input +:+ "+inauthor:" +:+ author input
  end.

Definition openlibrary_query (input : EstimateDueDateInput) : string :=
  JS.trim (title input +:+ " " +:+ author input).

Section Providers.

(** What [fetchJson] resolves to for a query: [None] when the request fails,
    times out or is answered with a non-2xx status. *)
Variable fetchGoogle : string -> option GooglePayload.
Variable fetchOpenLibrary : string -> option OpenLibraryPayload.

Definition findGooglePageCount (input : EstimateDueDateInput)
    : Net (option (Z * option string)) :=
  let titleNorm := normalize (title input) in
  let authorNorm := normalize (author input) in
  let query := google_query input in
  payload ← call (GoogleVolumes query) (fetchGoogle query);
  let items := default [] (payload ≫= items) in
  let best := fold_left (google_step titleNorm authorNorm) items None in
  mret (match best with
        | None => None
        | Some b => Some (g_pageCount b, g_category b)
        end).

Definition findOpenLibraryPageCount (input : EstimateDueDateInput) : Net (option Z) :=
  let query := openlibrary_query input in
  payload ← call (OpenLibraryDocs query) (fetchOpenLibrary query);
  let docs := default [] (payload ≫= docs) in
  let titleNorm := normalize (title input) in
  let authorNorm := normalize (author input) in
  let best := fold_left (openlibrary_step titleNorm authorNorm) docs None in
  mret (o_pages <$> best).

(** [now] is the value of [Date.now()] when the due date is built. *)
Definition estimateLoanDueDate (now : Z) (input : EstimateDueDateInput)
    : Net DueDateEstimate :=
  google ← findGooglePageCount input;
  match google with
  | Some (pages, category) =>
      let pagesPerDay := estimatePagesPerDay category in
      let days := clampDays (inject_Z pages / inject_Z pagesPerDay) in
      mret {| dueAt := buildDueDate now days; days := days;
              source := google_books; pageCount := Some pages |}
  | None =>
      openLibraryPages ← findOpenLibraryPageCount input;
      match openLibraryPages with
      | Some pages =>
          if pages =? 0 then
            mret {| dueAt := buildDueDate now fallbackDays; days := fallbackDays;
                    source := fallback; pageCount := None |}
          else
          let days := clampDays (inject_Z pages / 35) in
          mret {| dueAt := buildDueDate now days; days := days;
                  source := openlibrary; pageCount := Some pages |}
      | None =>
          mret {| dueAt := buildDueDate now fallbackDays; days := fallbackDays;
                  source := fallback; pageCount := None |}
      end
  end.

End Providers.

End ReadingTime.

(** ** The store behind Prisma *)

Module Db.

Record Book := {
  id : string;
  title : string;
  author : string;
  isbn : option string;
  genre : option string;
  publishedYear : option Z;
  description : option string;
  coverUrl : option string;
  averageRating : option Q;
  ratingsCount : option Z;
  aiMetadata : bool;
  available : bool;
  requestPending : bool
}.

(** Loan rows are numbered in creation order; the generated id of a row is
    its position in the table. *)
Record Loan := {
  loan_id : nat;
  loan_bookId : string;
  loan_userId : string;
  checkedOutAt : Z;
  dueAt : option Z;
  returnedAt : option Z
}.

Inductive RequestStatus := PENDING | APPROVED | DECLINED.

Record BorrowRequest := {
  req_id : nat;
  req_userId : string;
  req_bookId : string;
  status : RequestStatus;
  reviewedById : option string;
  reviewedAt : option Z;
  memberSeenAt : option Z
}.

Record Store := {
  books : gmap string Book;
  users : gset string;            (* ids of the User rows *)
  loans : list Loan;
  requests : list BorrowRequest
}.

Definition status_eqb (a b : RequestStatus) : bool :=
  match a, b with
  | PENDING, PENDING | APPROVED, APPROVED | DECLINED, DECLINED => true
  | _, _ => false
  end.

Definition set_books (s : Store) (bs : gmap string Book) : Store :=
  {| books := bs; users := users s; loans := loans s; requests := requests s |}.
Definition set_loans (s : Store) (ls : list Loan) : Store :=
  {| books := books s; users := users s; loans := ls; requests := requests s |}.
Definition set_requests (s : Store) (rs : list BorrowRequest) : Store :=
  {| books := books s; users := users s; loans := loans s; requests := rs |}.

Definition set_available (v : bool) (b : Book) : Book :=
  {| id := id b; title := title b; author := author b; isbn := isbn b;
     genre := genre b; publishedYear := publishedYear b;
     description := description b; coverUrl := coverUrl b;
     averageRating := averageRating b; ratingsCount := ratingsCount b;
     aiMetadata := aiMetadata b; available := v;
     requestPending := requestPending b |}.

Definition set_requestPending (v : bool) (b : Book) : Book :=
  {| id := id b; title := title b; author := author b; isbn := isbn b;
     genre := genre b; publishedYear := publishedYear b;
     description := description b; coverUrl := coverUrl b;
     averageRating := averageRating b; ratingsCount := ratingsCount b;
     aiMetadata := aiMetadata b; available := available b;
     requestPending := v |}.

Definition set_returnedAt (t : option Z) (l : Loan) : Loan :=
  {| loan_id := loan_id l; loan_bookId := loan_bookId l;
     loan_userId := loan_userId l; checkedOutAt := checkedOutAt l;
     dueAt := dueAt l; returnedAt := t |}.

Definition is_active (l : Loan) : bool :=
  match returnedAt l with None => true | Some _ => false end.

(** The active loans that reference a book. *)
Definition active_loans (bookId : string) (s : Store) : list Loan :=
  filter (fun l => is_active l = true ∧ loan_bookId l = bookId) (loans s).

Inductive HttpError :=
| Unauthorized    (* 401 *)
| Forbidden       (* 403 *)
| NotFound        (* 404 *)
| Conflict        (* 409 *)
| StorageError.   (* an exception of the storage layer, answered with 500 *)

Inductive Result (A : Type) :=
| Ok (a : A)
| Err (e : HttpError).
Arguments Ok {A} a.
Arguments Err {A} e.

(** The body of a [prisma.$transaction] callback: it works on the store as
    the transaction sees it and may throw. *)
Definition Tx (A : Type) : Type := Store -> Result (A * Store).

#[global] Instance tx_ret : MRet Tx := fun A (a : A) s => Ok (a, s).
#[global] Instance tx_bind : MBind Tx := fun A B (k : A -> Tx B) (m : Tx A) s =>
  match m s with
  | Ok (a, s') => k a s'
  | Err e => Err e
  end.

Definition throw {A} (e : HttpError) : Tx A := fun _ => Err e.

(** [prisma.$transaction(body)]: the writes of [body] are committed when it
    returns and discarded when it throws. *)
Definition transaction {A} (body : Tx A) (s : Store) : Result A * Store :=
  match body s with
  | Ok (a, s') => (Ok a, s')
  | Err e => (Err e, s)
  end.

(** [tx.book.updateMany({ where: { id, ...where }, data })]; the id is the
    primary key, so at most one row matches.  The result is the count. *)
Definition book_updateMany (bookId : string) (where_ : Book -> bool)
    (data : Book -> Book) : Tx nat := fun s =>
  match books s !! bookId with
  | Some b =>
      if where_ b then Ok (1%nat, set_books s (<[bookId := data b]> (books s)))
      else Ok (0%nat, s)
  | None => Ok (0%nat, s)
  end.

(** [tx.book.update({ where: { id }, data })] throws when no row has the id. *)
Definition book_update (bookId : string) (data : Book -> Book) : Tx Book := fun s =>
  match books s !! bookId with
  | Some b => Ok (data b, set_books s (<[bookId := data b]> (books s)))
  | None => Err StorageError
  end.

(** [tx.loan.create]: the row references a book and a user; the storage
    layer rejects a dangling reference. *)
Definition loan_create (now : Z) (bookId userId : string) (due : option Z)
    : Tx Loan := fun s =>
  if bool_decide (is_Some (books s !! bookId)) && bool_decide (userId ∈ users s) then
    let l := {| loan_id := length (loans s); loan_bookId := bookId;
                loan_userId := userId; checkedOutAt := now;
                dueAt := due; returnedAt := None |} in
    Ok (l, set_loans s (loans s ++ [l]))
  else Err StorageError.

(** [tx.loan.update({ where: { id }, data })] *)
Definition loan_update (loanId : nat) (data : Loan -> Loan) : Tx Loan := fun s =>
  match loans s !! loanId with
  | Some l => Ok (data l, set_loans s (<[loanId := data l]> (loans s)))
  | None => Err StorageError
  end.

Definition request_create (now : Z) (userId bookId : string) : Tx BorrowRequest :=
  fun s =>
  if bool_decide (is_Some (books s !! bookId)) && bool_decide (userId ∈ users s) then
    let r := {| req_id := length (requests s); req_userId := userId;
                req_bookId := bookId; status := PENDING; reviewedById := None;
                reviewedAt := None; memberSeenAt := Some now |} in
    Ok (r, set_requests s (requests s ++ [r]))
  else Err StorageError.

(** [tx.borrowRequest.updateMany({ where: { id, ...where }, data })] *)
Definition request_updateMany (requestId : nat) (where_ : BorrowRequest -> bool)
    (data : BorrowRequest -> BorrowRequest) : Tx nat := fun s =>
  match requests s !! requestId with
  | Some r =>
      if where_ r then Ok (1%nat, set_requests s (<[requestId := data r]> (requests s)))
      else Ok (0%nat, s)
  | None => Ok (0%nat, s)
  end.

Definition request_findUnique (requestId : nat) : Tx (option BorrowRequest) :=
  fun s => Ok (requests s !! requestId, s).

End Db.

(** ** Lending routes (routes/loans.routes.ts, routes/books.routes.ts) *)

Module Lending.
Import Db.

Inductive Role := ADMIN | MEMBER.

Record Viewer := { viewer_id : string; role : Role }.

Definition is_admin (v : Viewer) : bool :=
  match role v with ADMIN => true | MEMBER => false end.

Record CheckoutPayload := { bookId : string; payload_dueAt : option Z }.

Section Handlers.

(** The estimate [estimateLoanDueDate] resolves to for a book (for the
    approval route: the estimate that wins the race against the timer). *)
Variable dueEstimate : Book -> ReadingTime.DueDateEstimate.

(** *** POST /loans/checkout *)

(** The part of the handler before the transaction: authentication, the
    manual due-date guard and [prisma.book.findUnique]. *)
Definition checkout_lookup (s : Store) (viewer : option Viewer)
    (payload : CheckoutPayload) : Result (Viewer * Book) :=
  match viewer with
  | None => Err Unauthorized
  | Some v =>
      if JS.defined (payload_dueAt payload) && negb (is_admin v) then Err Forbidden
      else match books s !! bookId payload with
           | None => Err NotFound
           | Some book => Ok (v, book)
           end
  end.

(** [payload.dueAt ?? dueEstimate?.dueAt] *)
Definition checkout_dueAt (payload : CheckoutPayload) (book : Book) : option Z :=
  match payload_dueAt payload with
  | Some d => Some d
  | None => Some (ReadingTime.dueAt (dueEstimate book))
  end.

(** The transaction callback: the claim, then the Loan. *)
Definition checkout_tx (now : Z) (v : Viewer) (payload : CheckoutPayload)
    (due : option Z) : Tx Loan :=
  claimResult ← book_updateMany (bookId payload) available (set_available false);
  if negb (Nat.eqb claimResult 1) then throw Conflict
  else loan_create now (bookId payload) (viewer_id v) due.

Definition checkout (now : Z) (viewer : option Viewer) (payload : CheckoutPayload)
    (s : Store) : Result Loan * Store :=
  match checkout_lookup s viewer payload with
  | Err e => (Err e, s)
  | Ok (v, book) =>
      transaction (checkout_tx now v payload (checkout_dueAt payload book)) s
  end.

(** *** POST /loans/checkin *)

(** [prisma.loan.findFirst({ where: { bookId, returnedAt: null } })] *)
Definition find_active_loan (s : Store) (bookId : string) : option Loan :=
  head (active_loans bookId s).

Definition checkin_tx (now : Z) (bookId : string) (activeLoan : Loan) : Tx Loan :=
  _ ← book_update bookId (set_available true);
  loan_update (loan_id activeLoan) (set_returnedAt (Some now)).

Definition checkin (now : Z) (viewer : option Viewer) (bookId : string)
    (s : Store) : Result Loan * Store :=
  match viewer with
  | None => (Err Unauthorized, s)
  | Some v =>
      match find_active_loan s bookId with
      | None => (Err NotFound, s)
      | Some activeLoan =>
          if negb (is_admin v) && negb (String.eqb (loan_userId activeLoan) (viewer_id v))
          then (Err Forbidden, s)
          else transaction (checkin_tx now bookId activeLoan) s
      end
  end.

(** *** POST /borrow-requests *)

Definition create_request_tx (now : Z) (v : Viewer) (bookId : string)
    : Tx BorrowRequest :=
  claim ← book_updateMany bookId
            (fun b => available b && negb (requestPending b))
            (set_requestPending true);
  if negb (Nat.eqb claim 1) then throw Conflict
  else request_create now (viewer_id v) bookId.

Definition create_request (now : Z) (viewer : option Viewer) (bookId : string)
    (s : Store) : Result BorrowRequest * Store :=
  match viewer with
  | None => (Err Unauthorized, s)
  | Some v =>
      if is_admin v then (Err Forbidden, s)     (* requireRole(["MEMBER"]) *)
      else transaction (create_request_tx now v bookId) s
  end.

(** *** POST /borrow-requests/:requestId/approve *)

Definition review (st : RequestStatus) (now : Z) (v : Viewer) (r : BorrowRequest)
    : BorrowRequest :=
  {| req_id := req_id r; req_userId := req_userId r; req_bookId := req_bookId r;
     status := st; reviewedById := Some (viewer_id v); reviewedAt := Some now;
     memberSeenAt := None |}.

(** The reads before the transaction: [findUnique] and the status check. *)
Definition review_precheck (s : Store) (viewer : option Viewer) (requestId : nat)
    : Result (Viewer * BorrowRequest) :=
  match viewer with
  | None => Err Unauthorized
  | Some v =>
      if negb (is_admin v) then Err Forbidden    (* requireRole(["ADMIN"]) *)
      else match requests s !! requestId with
           | None => Err NotFound
           | Some existing =>
               if negb (status_eqb (status existing) PENDING) then Err Conflict
               else Ok (v, existing)
           end
  end.

Definition approve_tx (now : Z) (v : Viewer) (requestId : nat)
    (existing : BorrowRequest) (due : Z) : Tx (Loan * option BorrowRequest) :=
  updatedRequest ← request_updateMany requestId
                     (fun r => status_eqb (status r) PENDING)
                     (review APPROVED now v);
  if negb (Nat.eqb updatedRequest 1) then throw Conflict else
  bookClaim ← book_updateMany (req_bookId existing)
                (fun b => available b && requestPending b)
                (fun b => set_requestPending false (set_available false b));
  if negb (Nat.eqb bookClaim 1) then throw Conflict else
  loan ← loan_create now (req_bookId existing) (req_userId existing) (Some due);
  request ← request_findUnique requestId;
  mret (loan, request).

(** The book row joined to the request by [include: requestInclude]. *)
Definition approve_dueAt (s : Store) (existing : BorrowRequest) : Z :=
  match books s !! req_bookId existing with
  | Some book => ReadingTime.dueAt (dueEstimate book)
  | None => 0
  end.

Definition approve (now : Z) (viewer : option Viewer) (requestId : nat)
    (s : Store) : Result (Loan * option BorrowRequest) * Store :=
  match review_precheck s viewer requestId with
  | Err e => (Err e, s)
  | Ok (v, existing) =>
      transaction (approve_tx now v requestId existing (approve_dueAt s existing)) s
  end.

(** *** POST /borrow-requests/:requestId/decline *)

Definition decline_tx (now : Z) (v : Viewer) (requestId : nat)
    (existing : BorrowRequest) : Tx (option BorrowRequest) :=
  updated ← request_updateMany requestId
              (fun r => status_eqb (status r) PENDING)
              (review DECLINED now v);
  if negb (Nat.eqb updated 1) then throw Conflict else
  _ ← book_updateMany (req_bookId existing)
        (fun b => available b && requestPending b)
        (set_requestPending false);
  request_findUnique requestId.

Definition decline (now : Z) (viewer : option Viewer) (requestId : nat)
    (s : Store) : Result (option BorrowRequest) * Store :=
  match review_precheck s viewer requestId with
  | Err e => (Err e, s)
  | Ok (v, existing) => transaction (decline_tx now v requestId existing) s
  end.

(** *** Concurrent direct checkouts

    A request is served in two steps that other requests can interleave
    with: the reads before the transaction, and the transaction, which the
    store runs atomically. *)

Inductive Phase :=
| Arrived (viewer : option Viewer) (payload : CheckoutPayload)
| Claiming (v : Viewer) (payload : CheckoutPayload) (due : option Z)
| Answered (r : Result Loan).

Definition advance (now : Z) (p : Phase) (s : Store) : Phase * Store :=
  match p with
  | Arrived viewer payload =>
      match checkout_lookup s viewer payload with
      | Err e => (Answered (Err e), s)
      | Ok (v, book) => (Claiming v payload (checkout_dueAt payload book), s)
      end
  | Claiming v payload due =>
      let '(r, s') := transaction (checkout_tx now v payload due) s in
      (Answered r, s')
  | Answered r => (Answered r, s)
  end.

(** The server state: the store and the requests in flight. *)
Definition Server : Type := Store * list Phase.

(** Request number [i] takes its next step. *)
Definition step (now : Z) (i : nat) (cfg : Server) : Server :=
  let '(s, ps) := cfg in
  match ps !! i with
  | Some p => let '(p', s') := advance now p s in (s', <[i := p']> ps)
  | None => cfg
  end.

(** A schedule names, step by step, the request that runs next. *)
Definition run (now : Z) (schedule : list nat) (cfg : Server) : Server :=
  fold_left (fun c i => step now i c) schedule cfg.

Definition answered (p : Phase) : bool :=
  match p with Answered _ => true | _ => false end.
Definition succeeded (p : Phase) : bool :=
  match p with Answered (Ok _) => true | _ => false end.
Definition conflicted (p : Phase) : bool :=
  match p with Answered (Err Conflict) => true | _ => false end.

End Handlers.

End Lending.

(** ** Metadata enrichment (lib/external-books.ts) *)

Module ExternalBooks.
Import Db.

Inductive ExternalSource := from_openlibrary | from_google.
Inductive SearchProvider := openlibrary | google | auto.

Record ExternalBookCandidate := {
  c_title : string;
  c_author : string;
  c_isbn : option string;
  c_genre : option string;
  c_publishedYear : option Z;
  c_description : option string;
  c_coverUrl : option string;
  c_averageRating : option Q;
  c_ratingsCount : option Z;
  c_source : ExternalSource
}.

(** An absent key of the patch object is [None]. *)
Record MetadataPatch := {
  p_author : option string;
  p_coverUrl : option string;
  p_description : option string;
  p_genre : option string;
  p_publishedYear : option Z;
  p_isbn : option string;
  p_averageRating : option Q;
  p_ratingsCount : option Z
}.

Record CoreMetadataPatch := {
  cp_author : option string;
  cp_coverUrl : option string;
  cp_genre : option string;
  cp_averageRating : option Q;
  cp_ratingsCount : option Z
}.

Definition count_key {A} (o : option A) : Z :=
  match o with Some _ => 1 | None => 0 end.

(** [Object.keys(patch).length] *)
Definition keys_length (p : MetadataPatch) : Z :=
  count_key (p_author p) + count_key (p_coverUrl p) + count_key (p_description p)
  + count_key (p_genre p) + count_key (p_publishedYear p) + count_key (p_isbn p)
  + count_key (p_averageRating p) + count_key (p_ratingsCount p).

Definition core_keys_length (p : CoreMetadataPatch) : Z :=
  count_key (cp_author p) + count_key (cp_coverUrl p) + count_key (cp_genre p)
  + count_key (cp_averageRating p) + count_key (cp_ratingsCount p).

(** Truthiness of [number | null]: [null] and [0] are falsy. *)
Definition truthy_num (o : option Z) : bool :=
  match o with Some n => negb (n =? 0) | None => false end.

Definition isUnknownAuthor (author : string) : bool :=
  let normalized := JS.toLowerCase (JS.trim author) in
  String.eqb normalized "unknown author" || String.eqb normalized "unknown"
  || String.eqb normalized "n/a" || String.eqb normalized "na"
  || String.eqb normalized "-".

(** [hash = (hash * 31 + input.charCodeAt(i)) >>> 0] over the characters. *)
Definition hashString (input : string) : Z :=
  fold_left (fun hash c => (hash * 31 + c) mod 2 ^ 32) (JS.charCodes input) 0.

Definition genre_rules : list (string * list string) :=
  [ ("Science Fiction", ["space"; "robot"; "future"; "galaxy"; "alien"; "time machine"; "cyber"]);
    ("Fantasy", ["magic"; "dragon"; "kingdom"; "sword"; "wizard"; "myth"]);
    ("Mystery", ["murder"; "detective"; "crime"; "mystery"; "investigation"; "whodunit"]);
    ("History", ["history"; "empire"; "war"; "ancient"; "revolution"; "chronicle"]);
    ("Biography", ["memoir"; "autobiography"; "biography"; "life of"; "diary"]);
    ("Poetry", ["poem"; "poetry"; "verse"; "sonnet"; "lyrics"]);
    ("Romance", ["love"; "romance"; "heart"; "wedding"; "relationship"]);
    ("Children", ["children"; "kids"; "fairy"; "storybook"; "young reader"]) ].

Definition inferGenreFromText (title : string) (description : option string) : string :=
  let text := JS.toLowerCase (title +:+ " " +:+ default "" description) in
  match List.find (fun rule => existsb (JS.includes text) (snd rule)) genre_rules with
  | Some rule => fst rule
  | None => "General"
  end.

Definition normalizeForCompare (value : string) : string := JS.normalize value.

Definition buildMetadataPatch (existing : Book) (candidate : ExternalBookCandidate)
    : MetadataPatch :=
  {| p_author :=
       if isUnknownAuthor (author existing) && JS.truthy (c_author candidate)
          && negb (isUnknownAuthor (c_author candidate))
       then Some (c_author candidate) else None;
     p_coverUrl :=
       if negb (JS.truthy_opt (coverUrl existing)) && JS.truthy_opt (c_coverUrl candidate)
       then c_coverUrl candidate else None;
     p_description :=
       if negb (JS.truthy_opt (description existing)) && JS.truthy_opt (c_description candidate)
       then c_description candidate else None;
     p_genre :=
       if negb (JS.truthy_opt (genre existing)) && JS.truthy_opt (c_genre candidate)
       then c_genre candidate else None;
     p_publishedYear :=
       if negb (truthy_num (publishedYear existing)) && truthy_num (c_publishedYear candidate)
       then c_publishedYear candidate else None;
     p_isbn :=
       if negb (JS.truthy_opt (isbn existing)) && JS.truthy_opt (c_isbn candidate)
       then c_isbn candidate else None;
     p_averageRating :=
       if negb (JS.defined (averageRating existing)) && JS.defined (c_averageRating candidate)
       then c_averageRating candidate else None;
     p_ratingsCount :=
       if negb (JS.defined (ratingsCount existing)) && JS.defined (c_ratingsCount candidate)
       then c_ratingsCount candidate else None |}.

Definition buildCoreMetadataPatchFromCandidate (existing : Book)
    (candidate : ExternalBookCandidate) : CoreMetadataPatch :=
  {| cp_author :=
       if isUnknownAuthor (author existing) && JS.truthy (c_author candidate)
          && negb (isUnknownAuthor (c_author candidate))
       then Some (c_author candidate) else None;
     cp_coverUrl :=
       if negb (JS.truthy_opt (coverUrl existing)) && JS.truthy_opt (c_coverUrl candidate)
       then c_coverUrl candidate else None;
     cp_genre :=
       if negb (JS.truthy_opt (genre existing)) && JS.truthy_opt (c_genre candidate)
       then c_genre candidate else None;
     cp_averageRating :=
       if negb (JS.defined (averageRating existing)) && JS.defined (c_averageRating candidate)
       then c_averageRating candidate else None;
     cp_ratingsCount :=
       if negb (JS.defined (ratingsCount existing)) && JS.defined (c_ratingsCount candidate)
       then c_ratingsCount candidate else None |}.

Definition empty_core_patch : CoreMetadataPatch :=
  {| cp_author := None; cp_coverUrl := None; cp_genre := None;
     cp_averageRating := None; cp_ratingsCount := None |}.

(** [a ?? b] on [string | undefined] and [string | null] *)
Definition coalesce {A} (a b : option A) : option A :=
  match a with Some _ => a | None => b end.

(** [3.4 + (hash % 14) * 0.1], then [Number(normalized.toFixed(1))]. *)
Definition syntheticRating (hash : Z) : Q :=
  JS.toFixed 1 ((34 # 10) + inject_Z (hash mod 14) * (1 # 10)).

Definition syntheticRatingsCount (hash : Z) : Z := 12 + hash mod 240.

(** [data: patch] of [prisma.book.update]: the keys of the patch replace the
    columns of the row, the other columns stay. *)
Definition patch_data (p : MetadataPatch) (b : Book) : Book :=
  {| id := id b; title := title b;
     author := default (author b) (p_author p);
     isbn := coalesce (p_isbn p) (isbn b);
     genre := coalesce (p_genre p) (genre b);
     publishedYear := coalesce (p_publishedYear p) (publishedYear b);
     description := coalesce (p_description p) (description b);
     coverUrl := coalesce (p_coverUrl p) (coverUrl b);
     averageRating := coalesce (p_averageRating p) (averageRating b);
     ratingsCount := coalesce (p_ratingsCount p) (ratingsCount b);
     aiMetadata := aiMetadata b; available := available b;
     requestPending := requestPending b |}.

Definition core_patch_data (p : CoreMetadataPatch) (b : Book) : Book :=
  {| id := id b; title := title b;
     author := default (author b) (cp_author p);
     isbn := isbn b;
     genre := coalesce (cp_genre p) (genre b);
     publishedYear := publishedYear b;
     description := description b;
     coverUrl := coalesce (cp_coverUrl p) (coverUrl b);
     averageRating := coalesce (cp_averageRating p) (averageRating b);
     ratingsCount := coalesce (cp_ratingsCount p) (ratingsCount b);
     aiMetadata := aiMetadata b; available := available b;
     requestPending := requestPending b |}.

Definition set_aiMetadata (v : bool) (b : Book) : Book :=
  {| id := id b; title := title b; author := author b; isbn := isbn b;
     genre := genre b; publishedYear := publishedYear b;
     description := description b; coverUrl := coverUrl b;
     averageRating := averageRating b; ratingsCount := ratingsCount b;
     aiMetadata := v; available := available b;
     requestPending := requestPending b |}.

(** [data: { ...patch, aiMetadata: true }] *)
Definition enrich_data (p : MetadataPatch) (b : Book) : Book :=
  set_aiMetadata true (patch_data p b).
Definition core_enrich_data (p : CoreMetadataPatch) (b : Book) : Book :=
  set_aiMetadata true (core_patch_data p b).

Definition needsMetadataEnrichment (book : Book) : bool :=
  negb (JS.truthy_opt (coverUrl book)) || negb (JS.truthy_opt (description book))
  || negb (JS.truthy_opt (genre book)) || negb (truthy_num (publishedYear book))
  || negb (JS.truthy_opt (isbn book)) || negb (JS.defined (averageRating book))
  || negb (JS.defined (ratingsCount book)) || isUnknownAuthor (author book).

Definition hasMissingCoreMetadata (book : Book) : bool :=
  negb (JS.truthy_opt (coverUrl book)) || negb (JS.truthy_opt (genre book))
  || negb (JS.defined (averageRating book)) || isUnknownAuthor (author book).

(** The ISBN column is unique: another row already holds the value. *)
Definition isbn_taken (s : Store) (bookId isbn_ : string) : bool :=
  existsb (fun kb => negb (String.eqb (fst kb) bookId)
                     && bool_decide (isbn (snd kb) = Some isbn_))
          (map_to_list (books s)).

(** [prisma.book.update({ where: { id }, data })] as the sweeps use it: it
    throws when the row is gone or when the new ISBN is taken. *)
Definition update_book (bookId : string) (new_isbn : option string)
    (data : Book -> Book) : Tx Book := fun s =>
  match new_isbn with
  | Some i => if isbn_taken s bookId i then Err StorageError
              else book_update bookId data s
  | None => book_update bookId data s
  end.

Inductive RowOutcome := Updated | AutoGenerated | Skipped | NoMatch | Failed | Passed.

Record SweepReport := {
  processed : Z;
  updatedCount : Z;
  autoGeneratedCount : Z;
  skippedCount : Z;
  noMatchCount : Z;
  failedCount : Z
}.

Definition tally (o : RowOutcome) (r : SweepReport) : SweepReport :=
  {| processed := processed r;
     updatedCount :=
       updatedCount r + match o with Updated | AutoGenerated => 1 | _ => 0 end;
     autoGeneratedCount :=
       autoGeneratedCount r + match o with AutoGenerated => 1 | _ => 0 end;
     skippedCount := skippedCount r + match o with Skipped => 1 | _ => 0 end;
     noMatchCount := noMatchCount r + match o with NoMatch => 1 | _ => 0 end;
     failedCount := failedCount r + match o with Failed => 1 | _ => 0 end |}.

Definition start_report (rows : list Book) : SweepReport :=
  {| processed := Z.of_nat (length rows); updatedCount := 0;
     autoGeneratedCount := 0; skippedCount := 0; noMatchCount := 0;
     failedCount := 0 |}.

Section Enrichment.

(** The generated SVG cover, as a data URL.  No property below depends on
    its text. *)
Variable makeGeneratedCoverDataUrl : string -> string -> string.

(** What the two provider searches resolve to, after parsing. *)
Variable searchGoogleBooks : string -> Z -> list ExternalBookCandidate.
Variable searchOpenLibrary : string -> Z -> list ExternalBookCandidate.

Definition buildSyntheticCorePatch (existing : Book) (pending : CoreMetadataPatch)
    : CoreMetadataPatch :=
  let key := title existing +:+ "|" +:+ author existing in
  let hash := hashString key in
  let hasGenre := JS.truthy_opt (coalesce (cp_genre pending) (genre existing)) in
  let hasCover := JS.truthy_opt (coalesce (cp_coverUrl pending) (coverUrl existing)) in
  let hasAuthor := negb (isUnknownAuthor (default (author existing) (cp_author pending))) in
  let hasAverageRating :=
    JS.defined (cp_averageRating pending) || JS.defined (averageRating existing) in
  let hasRatingsCount :=
    JS.defined (cp_ratingsCount pending) || JS.defined (ratingsCount existing) in
  {| cp_genre :=
       if hasGenre then None
       else Some (inferGenreFromText (title existing) (description existing));
     cp_coverUrl :=
       if hasCover then None
       else Some (makeGeneratedCoverDataUrl (title existing) (author existing));
     cp_author := if hasAuthor then None else Some "AI Inferred Author";
     cp_averageRating := if hasAverageRating then None else Some (syntheticRating hash);
     cp_ratingsCount :=
       if hasRatingsCount then None else Some (syntheticRatingsCount hash) |}.

(** [{ ...externalPatch, ...syntheticPatch }] *)
Definition merge_core (externalPatch syntheticPatch : CoreMetadataPatch)
    : CoreMetadataPatch :=
  {| cp_author := coalesce (cp_author syntheticPatch) (cp_author externalPatch);
     cp_coverUrl := coalesce (cp_coverUrl syntheticPatch) (cp_coverUrl externalPatch);
     cp_genre := coalesce (cp_genre syntheticPatch) (cp_genre externalPatch);
     cp_averageRating :=
       coalesce (cp_averageRating syntheticPatch) (cp_averageRating externalPatch);
     cp_ratingsCount :=
       coalesce (cp_ratingsCount syntheticPatch) (cp_ratingsCount externalPatch) |}.

Definition candidateScore (book : Book) (candidate : ExternalBookCandidate) : Z :=
  let score := 0 in
  let titleA := normalizeForCompare (title book) in
  let titleB := normalizeForCompare (c_title candidate) in
  let authorA := normalizeForCompare (author book) in
  let authorB := normalizeForCompare (c_author candidate) in
  let score :=
    if JS.truthy_opt (isbn book) && JS.truthy_opt (c_isbn candidate) then
      if bool_decide (isbn book = c_isbn candidate) then score + 100 else score - 30
    else score in
  let score :=
    if String.eqb titleA titleB then score + 40
    else if JS.truthy titleA && JS.truthy titleB
            && (JS.includes titleA titleB || JS.includes titleB titleA)
         then score + 20
    else score in
  let score :=
    if String.eqb authorA authorB then score + 25
    else if JS.truthy authorA && JS.truthy authorB
            && (JS.includes authorA authorB || JS.includes authorB authorA)
         then score + 10
    else score in
  let patch := buildMetadataPatch book candidate in
  score + keys_length patch * 6.

Definition dedupe_key (candidate : ExternalBookCandidate) : string :=
  match c_isbn candidate with
  | Some i => i
  | None => JS.toLowerCase (c_title candidate) +:+ "|" +:+ JS.toLowerCase (c_author candidate)
  end.

Fixpoint dedupe_from (seen : gset string) (candidates : list ExternalBookCandidate)
    : list ExternalBookCandidate :=
  match candidates with
  | [] => []
  | candidate :: rest =>
      let key := dedupe_key candidate in
      if bool_decide (key ∈ seen) then dedupe_from seen rest
      else candidate :: dedupe_from ({[key]} ∪ seen) rest
  end.

Definition dedupeCandidates (candidates : list ExternalBookCandidate)
    : list ExternalBookCandidate := dedupe_from ∅ candidates.

Definition queryByProvider (query : string) (limit : Z) (provider : SearchProvider)
    : Net (list ExternalBookCandidate) :=
  match provider with
  | openlibrary =>
      found ← call (SearchOpenLibrary query limit) (searchOpenLibrary query limit);
      mret (dedupeCandidates found)
  | google =>
      found ← call (SearchGoogle query limit) (searchGoogleBooks query limit);
      mret (dedupeCandidates found)
  | auto =>
      google ← call (SearchGoogle query limit) (searchGoogleBooks query limit);
      if (0 <? Z.of_nat (length google))%Z then mret (dedupeCandidates google)
      else
        found ← call (SearchOpenLibrary query limit) (searchOpenLibrary query limit);
        mret (dedupeCandidates found)
  end.

Definition attempts_for (book : Book) : list string :=
  (match isbn book with
   | Some i => if JS.truthy i then ["isbn:" +:+ i] else []
   | None => []
   end)
  ++ [title book +:+ " " +:+ author book; title book].

(** [best] and [bestScore] of the loop: [None] is [best = null] with
    [bestScore = -Infinity]. *)
Definition Best : Type := option (ExternalBookCandidate * Z).

Definition consider (book : Book) (best : Best) (candidate : ExternalBookCandidate)
    : Best :=
  let score := candidateScore book candidate in
  match best with
  | None => Some (candidate, score)
  | Some (_, bestScore) =>
      if (bestScore <? score)%Z then Some (candidate, score) else best
  end.

Fixpoint attempt_loop (book : Book) (provider : SearchProvider)
    (attempts : list string) (best : Best) : Net (option ExternalBookCandidate) :=
  match attempts with
  | [] =>
      mret (match best with
            | Some (b, bestScore) => if (18 <=? bestScore)%Z then Some b else None
            | None => None
            end)
  | query :: rest =>
      candidates ← queryByProvider query 10 provider;
      let best := fold_left (consider book) candidates best in
      match best with
      | Some (b, bestScore) =>
          if (25 <=? bestScore)%Z then mret (Some b)
          else attempt_loop book provider rest best
      | None => attempt_loop book provider rest best
      end
  end.

Definition findBestCandidateForBook (book : Book) (provider : SearchProvider)
    : Net (option ExternalBookCandidate) :=
  attempt_loop book provider (attempts_for book) None.

(** The body of the loop of [enrichLibraryMetadata] for one row. *)
Definition enrich_library_row (provider : SearchProvider) (onlyMissing : bool)
    (book : Book) (s : Store) : Net (RowOutcome * Store) :=
  if onlyMissing && negb (needsMetadataEnrichment book) then mret (Skipped, s)
  else
    candidate ← findBestCandidateForBook book provider;
    match candidate with
    | None => mret (NoMatch, s)
    | Some c =>
        let patch := buildMetadataPatch book c in
        if (keys_length patch =? 0)%Z then mret (Skipped, s)
        else match update_book (id book) (p_isbn patch) (enrich_data patch) s with
             | Ok (_, s') => mret (Updated, s')
             | Err _ => mret (Failed, s)
             end
    end.

(** The body of the loop of [enrichMissingCoreMetadata] for one row. *)
Definition enrich_core_row (provider : SearchProvider) (book : Book) (s : Store)
    : Net (RowOutcome * Store) :=
  if negb (hasMissingCoreMetadata book) then mret (Passed, s)
  else
    candidate ← findBestCandidateForBook book provider;
    let externalPatch :=
      match candidate with
      | Some c => buildCoreMetadataPatchFromCandidate book c
      | None => empty_core_patch
      end in
    let syntheticPatch := buildSyntheticCorePatch book externalPatch in
    let patch := merge_core externalPatch syntheticPatch in
    if (core_keys_length patch =? 0)%Z then mret (NoMatch, s)
    else match update_book (id book) None (core_enrich_data patch) s with
         | Ok (_, s') =>
             mret (if (0 <? core_keys_length syntheticPatch)%Z
                   then AutoGenerated else Updated, s')
         | Err _ => mret (Failed, s)
         end.

(** A sweep: the rows that [prisma.book.findMany] returned are visited in
    order, each with the store as the rows before it left it. *)
Fixpoint sweep (row : Book -> Store -> Net (RowOutcome * Store))
    (rows : list Book) (s : Store) (report : SweepReport)
    : Net (SweepReport * Store) :=
  match rows with
  | [] => mret (report, s)
  | book :: rest =>
      '(o, s') ← row book s;
      sweep row rest s' (tally o report)
  end.

Definition enrichLibraryMetadata (provider : SearchProvider) (onlyMissing : bool)
    (rows : list Book) (s : Store) : Net (SweepReport * Store) :=
  sweep (enrich_library_row provider onlyMissing) rows s (start_report rows).

Definition enrichMissingCoreMetadata (provider : SearchProvider)
    (rows : list Book) (s : Store) : Net (SweepReport * Store) :=
  sweep (enrich_core_row provider) rows s (start_report rows).

End Enrichment.

End ExternalBooks.

(** ** Recommendations (POST /ai/recommendations) *)

Module Recommend.
Import Db.

(** A loan of the history with the columns selected from its book. *)
Record HistoryEntry := {
  h_loan : Loan;
  h_author : string;
  h_genre : option string
}.


(** Insertion into a list ordered by [before]; an element goes in front of
    the first one it must precede, so equal elements keep their order. *)
Fixpoint insert_by {A} (before : A -> A -> bool) (x : A) (l : list A) : list A :=
  match l with
  | [] => [x]
  | y :: l' => if before y x then y :: insert_by before x l' else x :: l
  end.

(** A stable sort: [before y x] holds when [y] must come strictly first. *)
Definition sort_by {A} (before : A -> A -> bool) (l : list A) : list A :=
  foldr (insert_by before) [] l.

(** [orderBy: { checkedOutAt: "desc" }] *)
Definition later (a b : Loan) : bool := (checkedOutAt b <? checkedOutAt a)%Z.



Record Affinity := {
  genreWeights : gmap string Z;
  authorWeights : gmap string Z;
  borrowedBookIds : gset string
}.







Section Scoring.

(** [Math.log10] *)
Variable log10 : Q -> Q.

Definition Qmin2 (x : Q) : Q := if Qle_bool 2 x then 2%Q else x.

Definition genreScore (a : Affinity) (b : Book) : Z :=
  match genre b with
  | Some g => if JS.truthy g then default 0 (genreWeights a !! g) else 0
  | None => 0
  end.

Definition authorScore (a : Affinity) (b : Book) : Z :=
  default 0 (authorWeights a !! author b).

Definition score (history : list HistoryEntry) (a : Affinity) (b : Book) : Q :=
  let noveltyBonus : Q := if (length history =? 0)%nat then 2%Q else 0%Q in
  let ratingBoost : Q := (default 0 (averageRating b) * (15 # 10))%Q in
  let ratingVolumeBoost : Q :=
    Qmin2 (log10 (inject_Z (default 0%Z (ratingsCount b)) + 1)%Q) in
  let availabilityBoost : Q := if available b then 1%Q else 0%Q in
  (inject_Z (genreScore a b) * (12 # 10) + inject_Z (authorScore a b) * (14 # 10)
   + noveltyBonus + ratingBoost + ratingVolumeBoost + availabilityBoost)%Q.





End Scoring.

End Recommend.

(** ** Vocabulary of the stated properties *)

Module Spec.

(** One string occurs inside another. *)
Definition Contains (s sub : string) : Prop :=
  exists pre post, s = pre +:+ sub +:+ post.

(** The category buckets of the reading-speed table, on the normalised
    category text. *)
Definition Juvenile (v : string) : Prop :=
  Contains v "children" \/ Contains v "young adult".
Definition Technical (v : string) : Prop :=
  Contains v "science" \/ Contains v "engineering"
  \/ Contains v "technology" \/ Contains v "computer".
Definition Literary (v : string) : Prop :=
  Contains v "fantasy" \/ Contains v "historical" \/ Contains v "classic".

(** [n] is the integer nearest to [q], a half counting upwards. *)
Definition Nearest (q : Q) (n : Z) : Prop :=
  (inject_Z n - (1 # 2) <= q)%Q /\ (q < inject_Z n + (1 # 2))%Q.

(** A page count the estimator accepts: present and at least 30. *)
Definition usable_pages (o : option Z) : bool :=
  match o with Some pages => 30 <=? pages | None => false end.

Definition google_pages (item : ReadingTime.GoogleItem) : option Z :=
  ReadingTime.volumeInfo item ≫= ReadingTime.v_pageCount.

(** *** Match scoring *)

(** A side has an ISBN: the column holds a non-empty string. *)
Definition HasIsbn (o : option string) : Prop :=
  exists i, o = Some i /\ i <> "".

(** The ISBN part of the score. *)
Inductive IsbnPoints (a b : option string) : Z -> Prop :=
| isbn_exact : HasIsbn a -> HasIsbn b -> a = b -> IsbnPoints a b 100
| isbn_mismatch : HasIsbn a -> HasIsbn b -> a <> b -> IsbnPoints a b (-30)
| isbn_absent : ~ (HasIsbn a /\ HasIsbn b) -> IsbnPoints a b 0.

(** Two normalised texts that differ, are both non-empty, and of which one
    occurs inside the other. *)
Definition PartialMatch (a b : string) : Prop :=
  a <> b /\ a <> "" /\ b <> "" /\ (Contains a b \/ Contains b a).

(** The title part ([exact = 40], [partial = 20]) and the author part
    ([exact = 25], [partial = 10]) of the score. *)
Inductive MatchPoints (exact partial : Z) (a b : string) : Z -> Prop :=
| match_exact : a = b -> MatchPoints exact partial a b exact
| match_partial : PartialMatch a b -> MatchPoints exact partial a b partial
| match_none : a <> b -> ~ PartialMatch a b -> MatchPoints exact partial a b 0.

(** *** Lending *)

(** The three states of a catalog record. *)
Definition AVAILABLE (b : Db.Book) : Prop :=
  Db.available b = true /\ Db.requestPending b = false.
Definition REQUEST_PENDING (b : Db.Book) : Prop :=
  Db.available b = true /\ Db.requestPending b = true.
Definition ON_LOAN (b : Db.Book) : Prop :=
  Db.available b = false /\ Db.requestPending b = false.

(** A checkout request that gets as far as the claim on book [b]: the
    viewer is a user, and only an administrator sends a due date. *)
Definition Admissible (s : Db.Store) (b : string) (v : Lending.Viewer)
    (payload : Lending.CheckoutPayload) : Prop :=
  Lending.bookId payload = b
  /\ (Lending.payload_dueAt payload = None \/ Lending.is_admin v = true)
  /\ Lending.viewer_id v ∈ Db.users s.

(** How many of the requests in flight satisfy [f]. *)
Definition how_many (f : Lending.Phase -> bool) (ps : list Lending.Phase) : nat :=
  length (List.filter f ps).

(** A request in flight on book [b] in a race of admissible requests. *)
Definition phase_ok (s : Db.Store) (b : string) (p : Lending.Phase) : Prop :=
  match p with
  | Lending.Arrived (Some v) payload => Admissible s b v payload
  | Lending.Arrived None _ => False
  | Lending.Claiming v payload _ => Admissible s b v payload
  | Lending.Answered (Db.Ok _) => True
  | Lending.Answered (Db.Err e) => e = Db.Conflict
  end.

(** The invariant of a race for book [b]: while the book is available no
    request has been answered and no loan of the book is active; once it is
    not, exactly one request has succeeded and exactly one loan is active. *)
Definition Racing (b : string) (cfg : Lending.Server) : Prop :=
  Forall (phase_ok cfg.1 b) cfg.2
  /\ exists book,
       Db.books cfg.1 !! b = Some book
       /\ if Db.available book
          then how_many Lending.answered cfg.2 = 0%nat
               /\ Db.active_loans b cfg.1 = []
          else how_many Lending.succeeded cfg.2 = 1%nat
               /\ length (Db.active_loans b cfg.1) = 1%nat.

(** How far a request has come: arrived, claiming, answered. *)
Definition progress (p : Lending.Phase) : nat :=
  match p with
  | Lending.Arrived _ _ => 0
  | Lending.Claiming _ _ _ => 1
  | Lending.Answered _ => 2
  end.

(** How many steps a schedule gives to request [i]. *)
Definition turns (schedule : list nat) (i : nat) : nat :=
  count_occ Nat.eq_dec schedule i.

(** The requests as they arrive. *)
Definition arrivals (attempts : list (Lending.Viewer * Lending.CheckoutPayload))
    : list Lending.Phase :=
  (fun a => Lending.Arrived (Some a.1) a.2) <$> attempts.

(** *** Recommendations *)








(** *** Populated fields

    A text column is populated when it holds a non-empty string, the year
    when it holds a number other than 0 (the JavaScript notion of an empty
    value), a rating column when it is not null, and the author when it is
    not one of the placeholder names. *)
Definition PopulatedText (o : option string) : Prop :=
  exists s, o = Some s /\ s <> "".
Definition PopulatedYear (o : option Z) : Prop :=
  exists y, o = Some y /\ y <> 0.
Definition PopulatedNumber {A} (o : option A) : Prop := is_Some o.
Definition PopulatedAuthor (a : string) : Prop :=
  ExternalBooks.isUnknownAuthor a = false.

(** [b] is [b0] up to fields that were not populated in [b0], and the
    synthetic flag of [b0] is still set in [b] if it was set in [b0]. *)
Definition Keeps (b0 b : Db.Book) : Prop :=
  Db.id b = Db.id b0 /\ Db.title b = Db.title b0
  /\ Db.available b = Db.available b0
  /\ Db.requestPending b = Db.requestPending b0
  /\ (PopulatedAuthor (Db.author b0) -> Db.author b = Db.author b0)
  /\ (PopulatedText (Db.coverUrl b0) -> Db.coverUrl b = Db.coverUrl b0)
  /\ (PopulatedText (Db.description b0) -> Db.description b = Db.description b0)
  /\ (PopulatedText (Db.genre b0) -> Db.genre b = Db.genre b0)
  /\ (PopulatedYear (Db.publishedYear b0) -> Db.publishedYear b = Db.publishedYear b0)
  /\ (PopulatedText (Db.isbn b0) -> Db.isbn b = Db.isbn b0)
  /\ (PopulatedNumber (Db.averageRating b0) -> Db.averageRating b = Db.averageRating b0)
  /\ (PopulatedNumber (Db.ratingsCount b0) -> Db.ratingsCount b = Db.ratingsCount b0)
  /\ (Db.aiMetadata b0 = true -> Db.aiMetadata b = true).

(** A fill-missing-only patch for a record: each key it holds belongs to a
    column that is not populated in the record. *)
Definition FillsOnlyMissing (existing : Db.Book) (p : ExternalBooks.MetadataPatch)
    : Prop :=
  (is_Some (ExternalBooks.p_author p) -> ~ PopulatedAuthor (Db.author existing))
  /\ (is_Some (ExternalBooks.p_coverUrl p) -> ~ PopulatedText (Db.coverUrl existing))
  /\ (is_Some (ExternalBooks.p_description p)
      -> ~ PopulatedText (Db.description existing))
  /\ (is_Some (ExternalBooks.p_genre p) -> ~ PopulatedText (Db.genre existing))
  /\ (is_Some (ExternalBooks.p_publishedYear p)
      -> ~ PopulatedYear (Db.publishedYear existing))
  /\ (is_Some (ExternalBooks.p_isbn p) -> ~ PopulatedText (Db.isbn existing))
  /\ (is_Some (ExternalBooks.p_averageRating p)
      -> ~ PopulatedNumber (Db.averageRating existing))
  /\ (is_Some (ExternalBooks.p_ratingsCount p)
      -> ~ PopulatedNumber (Db.ratingsCount existing)).

Definition CoreFillsOnlyMissing (existing : Db.Book)
    (p : ExternalBooks.CoreMetadataPatch) : Prop :=
  (is_Some (ExternalBooks.cp_author p) -> ~ PopulatedAuthor (Db.author existing))
  /\ (is_Some (ExternalBooks.cp_coverUrl p) -> ~ PopulatedText (Db.coverUrl existing))
  /\ (is_Some (ExternalBooks.cp_genre p) -> ~ PopulatedText (Db.genre existing))
  /\ (is_Some (ExternalBooks.cp_averageRating p)
      -> ~ PopulatedNumber (Db.averageRating existing))
  /\ (is_Some (ExternalBooks.cp_ratingsCount p)
      -> ~ PopulatedNumber (Db.ratingsCount existing)).

(** Every row of the first store is still there in the second, kept in the
    sense above; users, loans and requests are the same. *)
Definition StoreKeeps (s0 s : Db.Store) : Prop :=
  (forall k b0, Db.books s0 !! k = Some b0 ->
                exists b, Db.books s !! k = Some b /\ Keeps b0 b)
  /\ Db.users s = Db.users s0 /\ Db.loans s = Db.loans s0
  /\ Db.requests s = Db.requests s0.

Definition empty_patch : ExternalBooks.MetadataPatch :=
  {| ExternalBooks.p_author := None; ExternalBooks.p_coverUrl := None;
     ExternalBooks.p_description := None; ExternalBooks.p_genre := None;
     ExternalBooks.p_publishedYear := None; ExternalBooks.p_isbn := None;
     ExternalBooks.p_averageRating := None; ExternalBooks.p_ratingsCount := None |}.

(** *** Candidate search *)

(** The best candidate of a list: the running best after every candidate
    was considered in order. *)
Definition best_of (book : Db.Book) (seen : list ExternalBooks.ExternalBookCandidate)
    : ExternalBooks.Best :=
  fold_left (ExternalBooks.consider book) seen None.

(** The search stops on a best candidate that scores 25 or more. *)
Definition stops (best : ExternalBooks.Best) : bool :=
  match best with Some (_, s) => 25 <=? s | None => false end.

(** At the end a best candidate is accepted when it scores 18 or more. *)
Definition accepts (best : ExternalBooks.Best)
    : option ExternalBooks.ExternalBookCandidate :=
  match best with
  | Some (c, s) => if 18 <=? s then Some c else None
  | None => None
  end.

(** The candidates met in the first [m] attempts, in the order met. *)
Definition seen_after (results : string -> list ExternalBooks.ExternalBookCandidate)
    (attempts : list string) (m : nat) : list ExternalBooks.ExternalBookCandidate :=
  concat (results <$> take m attempts).

(** [c] is the first candidate of [seen] with the highest score [s]. *)
Definition FirstBest (book : Db.Book) (seen : list ExternalBooks.ExternalBookCandidate)
    (c : ExternalBooks.ExternalBookCandidate) (s : Z) : Prop :=
  s = ExternalBooks.candidateScore book c
  /\ exists before after,
       seen = before ++ c :: after
       /\ Forall (fun x => ExternalBooks.candidateScore book x < s) before
       /\ Forall (fun x => ExternalBooks.candidateScore book x <= s) after.

(** The three comparisons as the scorer evaluates them. *)
Definition isbn_points (a b : option string) : Z :=
  if JS.truthy_opt a && JS.truthy_opt b
  then if bool_decide (a = b) then 100 else -30
  else 0.

Definition match_points (exact partial : Z) (a b : string) : Z :=
  if String.eqb a b then exact
  else if JS.truthy a && JS.truthy b && (JS.includes a b || JS.includes b a)
       then partial
  else 0.

End Spec.

(** ** Sample data *)

Module Sample.
Import Db.


Definition shelf_book (k : string) (av pending : bool) : Book :=
  {| id := k; title := k; author := "Author"; isbn := None; genre := None;
     publishedYear := None; description := None; coverUrl := None;
     averageRating := None; ratingsCount := None; aiMetadata := false;
     available := av; requestPending := pending |}.



(** One book on the shelf and three users. *)
Definition one_book (av pending : bool) : Store :=
  {| books := {["A" := shelf_book "A" av pending]};
     users := {["u"]} ∪ {["v"]} ∪ {["w"]};
     loans := []; requests := [] |}.

Definition member (name : string) : Lending.Viewer :=
  {| Lending.viewer_id := name; Lending.role := Lending.MEMBER |}.
Definition librarian : Lending.Viewer :=
  {| Lending.viewer_id := "w"; Lending.role := Lending.ADMIN |}.

Definition wants (k : string) : Lending.CheckoutPayload :=
  {| Lending.bookId := k; Lending.payload_dueAt := None |}.

(** The estimator answers with its fallback. *)
Definition no_estimate (b : Book) : ReadingTime.DueDateEstimate :=
  {| ReadingTime.dueAt := ReadingTime.buildDueDate 0 ReadingTime.fallbackDays;
     ReadingTime.days := ReadingTime.fallbackDays;
     ReadingTime.source := ReadingTime.fallback;
     ReadingTime.pageCount := None |}.

(** A book whose title is a question mark, and the entry for Dune. *)
Definition question_mark : Book :=
  {| id := "Q"; title := "?"; author := "Frank Herbert"; isbn := None;
     genre := Some "Science Fiction"; publishedYear := Some 1965;
     description := Some "A novel."; coverUrl := Some "https://covers/q.jpg";
     averageRating := Some (4 # 1); ratingsCount := Some 10; aiMetadata := false;
     available := true; requestPending := false |}.

Definition found_dune : ExternalBooks.ExternalBookCandidate :=
  {| ExternalBooks.c_title := "Dune"; ExternalBooks.c_author := "Frank Herbert";
     ExternalBooks.c_isbn := Some "0441013597"; ExternalBooks.c_genre := None;
     ExternalBooks.c_publishedYear := None; ExternalBooks.c_description := None;
     ExternalBooks.c_coverUrl := None; ExternalBooks.c_averageRating := None;
     ExternalBooks.c_ratingsCount := None;
     ExternalBooks.c_source := ExternalBooks.from_google |}.

(** What Open Library knows about book A. *)
Definition found_A : ExternalBooks.ExternalBookCandidate :=
  {| ExternalBooks.c_title := "A"; ExternalBooks.c_author := "Author";
     ExternalBooks.c_isbn := Some "0441013597"; ExternalBooks.c_genre := None;
     ExternalBooks.c_publishedYear := Some 1965; ExternalBooks.c_description := None;
     ExternalBooks.c_coverUrl := None; ExternalBooks.c_averageRating := None;
     ExternalBooks.c_ratingsCount := None;
     ExternalBooks.c_source := ExternalBooks.from_openlibrary |}.

(** Open Library answers every query with that entry; Google Books would
    answer with it too. *)
Definition both_know_A (q : string) (limit : Z)
    : list ExternalBooks.ExternalBookCandidate := [found_A].

End Sample.

(** ** Further string primitives *)

Module Str.

Definition upper_char (c : ascii) : ascii :=
  if JS.is_lower c then ascii_of_nat (nat_of_ascii c - 32) else c.

Fixpoint toUpperCase (s : string) : string :=
  match s with
  | EmptyString => EmptyString
  | String c s' => String (upper_char c) (toUpperCase s')
  end.

(** [s.replace(/[^...]/g, "")]: the characters of the class [keep], in order. *)
Fixpoint only (keep : ascii -> bool) (s : string) : string :=
  match s with
  | EmptyString => EmptyString
  | String c s' => if keep c then String c (only keep s') else only keep s'
  end.

(** [s.slice(n)] for [0 <= n]. *)
Fixpoint drop (n : nat) (s : string) : string :=
  match n, s with
  | O, _ => s
  | S n', String _ s' => drop n' s'
  | S _, EmptyString => EmptyString
  end.

(** [\w] of a regular expression without the unicode flag. *)
Definition is_word (c : ascii) : bool :=
  JS.is_upper c || JS.is_lower c || JS.is_digit c || (JS.code c =? 95).

Definition digit_value (c : ascii) : Z := JS.code c - 48.

Fixpoint all (f : ascii -> bool) (s : string) : bool :=
  match s with
  | EmptyString => true
  | String c s' => f c && all f s'
  end.


End Str.

(** ** Provider payloads and their parsing (lib/external-books.ts) *)

Module Parse.
Import ExternalBooks.

(** A value of a payload whose type is checked at run time: a (finite)
    number, a string, or anything else ([undefined], [null], ...). *)
Inductive Raw :=
| RawNumber (q : Q)
| RawString (s : string)
| RawOther.

(** [normalizeText(value)]; a value that is not a string is [None]. *)
Definition normalizeText (value : option string) : option string :=
  match value with
  | None => None
  | Some v =>
      let trimmed := JS.trim v in
      if (0 <? Z.of_nat (String.length trimmed)) then Some trimmed else None
  end.

Definition normalizeCoverUrl (value : option string) : option string :=
  match value with
  | None => None
  | Some v =>
      if negb (JS.truthy v) then None
      else if JS.startsWith v "http://"
           then Some ("https://" +:+ Str.drop (String.length "http://") v)
           else Some v
  end.

(** The class [[0-9Xx]]. *)
Definition is_isbn_char (c : ascii) : bool :=
  JS.is_digit c || (JS.code c =? 88) || (JS.code c =? 120).

(** The characters of a normalised ISBN: a digit or the capital X. *)
Definition isbn_digit (c : ascii) : bool := JS.is_digit c || (JS.code c =? 88).

Definition normalizeIsbn (input : string) : option string :=
  let cleaned := Str.toUpperCase (Str.only is_isbn_char input) in
  if (Z.of_nat (String.length cleaned) =? 10) || (Z.of_nat (String.length cleaned) =? 13)
  then Some cleaned else None.

(** The alternation [1[0-9]{3}|20[0-9]{2}|2100] followed by a word boundary,
    matched at the start of [s]; the value is [Number(match[1])]. *)
Definition year_here (s : string) : option Z :=
  match s with
  | String c1 (String c2 (String c3 (String c4 rest))) =>
      let shape :=
        (Ascii.eqb c1 "1" && JS.is_digit c2 && JS.is_digit c3 && JS.is_digit c4)
        || (Ascii.eqb c1 "2" && Ascii.eqb c2 "0" && JS.is_digit c3 && JS.is_digit c4)
        || (Ascii.eqb c1 "2" && Ascii.eqb c2 "1" && Ascii.eqb c3 "0" && Ascii.eqb c4 "0") in
      let boundary :=
        match rest with
        | EmptyString => true
        | String c _ => negb (Str.is_word c)
        end in
      if shape && boundary
      then Some (1000 * Str.digit_value c1 + 100 * Str.digit_value c2
                 + 10 * Str.digit_value c3 + Str.digit_value c4)
      else None
  | _ => None
  end.

(** [raw.match(/\b(1[0-9]{3}|20[0-9]{2}|2100)\b/)]: the leftmost position
    with a word boundary in front at which the alternation matches.
    [after_word] tells that the previous character is a word character. *)
Fixpoint find_year (after_word : bool) (s : string) : option Z :=
  match s with
  | EmptyString => None
  | String c s' =>
      match (if after_word then None else year_here s) with
      | Some y => Some y
      | None => find_year (Str.is_word c) s'
      end
  end.

Definition parsePublishedYear (raw : Raw) : option Z :=
  match raw with
  | RawNumber q =>
      if Qle_bool 0 q && Qle_bool q 2100 then Some (Qfloor q) else None
  | RawString s => find_year false s
  | RawOther => None
  end.

Definition Qmin (a b : Q) : Q := if Qle_bool a b then a else b.
Definition Qmax (a b : Q) : Q := if Qle_bool a b then b else a.

Definition parseAverageRating (raw : Raw) : option Q :=
  match raw with
  | RawNumber q =>
      let clamped := Qmin 5 (Qmax 0 q) in
      Some (JS.toFixed 2 clamped)
  | _ => None
  end.

Definition parseRatingsCount (raw : Raw) : option Z :=
  match raw with
  | RawNumber q => if negb (Qle_bool 0 q) then None else Some (Qfloor q)
  | _ => None
  end.

(** The part of an Open Library document that [searchOpenLibrary] reads. *)
Record OpenLibraryDoc := {
  ol_title : option string;
  ol_author_name : option (list string);
  ol_isbn : option (list string);
  ol_subject : option (list string);
  ol_first_publish_year : Raw;
  ol_cover_i : option Z;
  ol_ratings_average : Raw;
  ol_ratings_count : Raw
}.

Record Identifier := { i_type : option string; identifier : option string }.

Record ImageLinks := { thumbnail : option string; smallThumbnail : option string }.

(** The part of a Google Books volume that [searchGoogleBooks] reads. *)
Record VolumeInfo := {
  g_title : option string;
  g_authors : option (list string);
  g_categories : option (list string);
  g_description : option string;
  g_publishedDate : Raw;
  g_industryIdentifiers : option (list Identifier);
  g_imageLinks : option ImageLinks;
  g_averageRating : Raw;
  g_ratingsCount : Raw
}.

Record GoogleItem := { g_volumeInfo : option VolumeInfo }.

(** [xs?.[0]] *)
Definition first {A} (xs : option (list A)) : option A := xs ≫= head.

(** [xs.map(f).find((value) => !!value)]: the first element [f] accepts. *)
Fixpoint first_isbn (values : list string) : option string :=
  match values with
  | [] => None
  | v :: rest =>
      match normalizeIsbn v with
      | Some i => if JS.truthy i then Some i else first_isbn rest
      | None => first_isbn rest
      end
  end.

Section Providers.

(** [String(n)] of the template literal that builds the cover address. *)
Variable numberToString : Z -> string.

(** What [fetchJson] resolves to for the query and the limit sent: the
    [docs] and the [items] of the payload ([None] when the request failed or
    the payload has no such member). *)
Variable fetchOpenLibrary : string -> Z -> option (list OpenLibraryDoc).
Variable fetchGoogle : string -> Z -> option (list GoogleItem).

Definition openLibraryCandidate (doc : OpenLibraryDoc) : option ExternalBookCandidate :=
  let title := normalizeText (ol_title doc) in
  let author := default "Unknown Author" (normalizeText (first (ol_author_name doc))) in
  match title with
  | None => None
  | Some title =>
      let firstIsbn := ol_isbn doc ≫= first_isbn in
      let genre := normalizeText (first (ol_subject doc)) in
      let coverUrl :=
        match ol_cover_i doc with
        | Some n => Some ("https://covers.openlibrary.org/b/id/" +:+ numberToString n
                          +:+ "-L.jpg")
        | None => None
        end in
      Some {| c_title := title; c_author := author; c_isbn := firstIsbn;
              c_genre := genre;
              c_publishedYear := parsePublishedYear (ol_first_publish_year doc);
              c_description := None; c_coverUrl := coverUrl;
              c_averageRating := parseAverageRating (ol_ratings_average doc);
              c_ratingsCount := parseRatingsCount (ol_ratings_count doc);
              c_source := from_openlibrary |}
  end.

Definition searchOpenLibrary (query : string) (limit : Z) : list ExternalBookCandidate :=
  let docs := default [] (fetchOpenLibrary query (Z.min limit 100)) in
  omap openLibraryCandidate docs.

Definition googleCandidate (item : GoogleItem) : option ExternalBookCandidate :=
  let info := g_volumeInfo item in
  match normalizeText (info ≫= g_title) with
  | None => None
  | Some title =>
      let author :=
        default "Unknown Author" (normalizeText (first (info ≫= g_authors))) in
      let identifiers := default [] (info ≫= g_industryIdentifiers) in
      let preferredIsbn :=
        first_isbn ((fun i => default "" (identifier i)) <$> identifiers) in
      Some {| c_title := title; c_author := author; c_isbn := preferredIsbn;
              c_genre := normalizeText (first (info ≫= g_categories));
              c_publishedYear :=
                parsePublishedYear (default RawOther (g_publishedDate <$> info));
              c_description := normalizeText (info ≫= g_description);
              c_coverUrl :=
                normalizeCoverUrl
                  (coalesce (normalizeText ((info ≫= g_imageLinks) ≫= thumbnail))
                            (normalizeText ((info ≫= g_imageLinks) ≫= smallThumbnail)));
              c_averageRating :=
                parseAverageRating (default RawOther (g_averageRating <$> info));
              c_ratingsCount :=
                parseRatingsCount (default RawOther (g_ratingsCount <$> info));
              c_source := from_google |}
  end.

Definition searchGoogleBooks (query : string) (limit : Z) : list ExternalBookCandidate :=
  let items := default [] (fetchGoogle query (Z.min limit 40)) in
  omap googleCandidate items.

End Providers.

(** A text as [normalizeText] leaves it: not empty, no white space at
    either end. *)
Definition Clean (t : string) : Prop := t <> "" /\ JS.trim t = t.

(** 10 or 13 characters, each a digit or X. *)
Definition IsbnShape (i : string) : Prop :=
  (String.length i = 10%nat \/ String.length i = 13%nat)
  /\ Str.all isbn_digit i = true.

(** A candidate as the parsing of a provider's answer leaves it. *)
Definition WellFormed (c : ExternalBookCandidate) : Prop :=
  Clean (c_title c) /\ Clean (c_author c)
  /\ (forall i, c_isbn c = Some i -> IsbnShape i)
  /\ (forall g, c_genre c = Some g -> Clean g)
  /\ (forall y, c_publishedYear c = Some y -> 0 <= y <= 2100)
  /\ (forall d, c_description c = Some d -> Clean d)
  /\ (forall u, c_coverUrl c = Some u -> u <> "" /\ JS.startsWith u "http://" = false)
  /\ (forall r, c_averageRating c = Some r -> (0 <= r)%Q /\ (r <= 5)%Q)
  /\ (forall n, c_ratingsCount c = Some n -> 0 <= n).

End Parse.

(** ** Import by query (lib/external-books.ts) *)

Module ExternalSearch.
Import Db ExternalBooks.

Record SearchExternalBooksResult := {
  r_books : list ExternalBookCandidate;
  sourceUsed : option ExternalSource;
  fallbackUsed : bool
}.

(** [xs.slice(0, end)]; a negative [end] counts from the end of the array. *)
Definition slice0 {A} (end_ : Z) (xs : list A) : list A :=
  if 0 <=? end_ then take (Z.to_nat end_) xs
  else take (length xs - Z.to_nat (- end_)) xs.

Section Search.

Variable searchGoogleBooks : string -> Z -> list ExternalBookCandidate.
Variable searchOpenLibrary : string -> Z -> list ExternalBookCandidate.

Definition searchExternalBooks (query : string) (limit : Z) (provider : SearchProvider)
    : Net SearchExternalBooksResult :=
  let normalizedQuery := JS.trim query in
  if negb (JS.truthy normalizedQuery)
  then mret {| r_books := []; sourceUsed := None; fallbackUsed := false |}
  else
    match provider with
    | openlibrary =>
        found ← call (SearchOpenLibrary normalizedQuery limit)
                     (searchOpenLibrary normalizedQuery limit);
        let books := slice0 limit (dedupeCandidates found) in
        mret {| r_books := books;
                sourceUsed := if (0 <? Z.of_nat (length books))
                              then Some from_openlibrary else None;
                fallbackUsed := false |}
    | google =>
        found ← call (SearchGoogle normalizedQuery limit)
                     (searchGoogleBooks normalizedQuery limit);
        let books := slice0 limit (dedupeCandidates found) in
        mret {| r_books := books;
                sourceUsed := if (0 <? Z.of_nat (length books))
                              then Some from_google else None;
                fallbackUsed := false |}
    | auto =>
        found ← call (SearchOpenLibrary normalizedQuery limit)
                     (searchOpenLibrary normalizedQuery limit);
        let openLibraryBooks := dedupeCandidates found in
        if (0 <? Z.of_nat (length openLibraryBooks))
        then mret {| r_books := slice0 limit openLibraryBooks;
                     sourceUsed := Some from_openlibrary;
                     fallbackUsed := false |}
        else
          found ← call (SearchGoogle normalizedQuery limit)
                       (searchGoogleBooks normalizedQuery limit);
          let googleBooks := dedupeCandidates found in
          mret {| r_books := slice0 limit googleBooks;
                  sourceUsed := if (0 <? Z.of_nat (length googleBooks))
                                then Some from_google else None;
                  fallbackUsed := true |}
    end.

End Search.

(** *** persistExternalBooks *)

Record Persisted := {
  p_books : list Book;
  createdCount : Z;
  reusedCount : Z
}.

Definition nothing_persisted : Persisted :=
  {| p_books := []; createdCount := 0; reusedCount := 0 |}.

Definition reused (b : Book) (acc : Persisted) : Persisted :=
  {| p_books := p_books acc ++ [b]; createdCount := createdCount acc;
     reusedCount := reusedCount acc + 1 |}.

Definition created (b : Book) (acc : Persisted) : Persisted :=
  {| p_books := p_books acc ++ [b]; createdCount := createdCount acc + 1;
     reusedCount := reusedCount acc |}.

(** [prisma.book.findUnique({ where: { isbn } })] *)
Definition findUnique_isbn (i : string) (s : Store) : option Book :=
  snd <$> List.find (fun kb => bool_decide (isbn (snd kb) = Some i))
                    (map_to_list (books s)).

(** [candidate.isbn ? await prisma.book.findUnique(...) : null] *)
Definition existingByIsbn (candidate : ExternalBookCandidate) (s : Store)
    : option Book :=
  match c_isbn candidate with
  | Some i => if JS.truthy i then findUnique_isbn i s else None
  | None => None
  end.

Section Persist.

(** The database's equality of texts with [mode: "insensitive"]. *)
Variable insensitive_equals : string -> string -> bool.

(** The id that [prisma.book.create] gives to the next row of a store. *)
Variable newId : Store -> string.

(** [prisma.book.findFirst({ where: { title: { equals, mode }, author: ... } })];
    the database picks the row when several match. *)
Definition findFirst_titleAuthor (title author : string) (s : Store) : option Book :=
  snd <$> List.find (fun kb => insensitive_equals (Db.title (snd kb)) title
                               && insensitive_equals (Db.author (snd kb)) author)
                    (map_to_list (books s)).

(** Some row holds the ISBN already. *)
Definition isbn_in_use (s : Store) (i : string) : bool :=
  existsb (fun kb => bool_decide (isbn (snd kb) = Some i)) (map_to_list (books s)).

(** [prisma.book.create({ data })]: [None] is the unique-constraint
    violation (code P2002), on the id or on the ISBN.
    Modelled from the spec: a new row is available, has no request pending
    and is not flagged as synthetic. *)
Definition book_create (candidate : ExternalBookCandidate) (s : Store)
    : option (Book * Store) :=
  let k := newId s in
  if bool_decide (is_Some (books s !! k))
     || match c_isbn candidate with Some i => isbn_in_use s i | None => false end
  then None
  else
    let row := {| id := k; title := c_title candidate; author := c_author candidate;
                  isbn := c_isbn candidate; genre := c_genre candidate;
                  publishedYear := c_publishedYear candidate;
                  description := c_description candidate;
                  coverUrl := c_coverUrl candidate;
                  averageRating := c_averageRating candidate;
                  ratingsCount := c_ratingsCount candidate;
                  aiMetadata := false; available := true; requestPending := false |} in
    Some (row, set_books s (<[k := row]> (books s))).

Definition enrichExistingBook (existing : Book) (candidate : ExternalBookCandidate)
    : Tx Book := fun s =>
  let patch := buildMetadataPatch existing candidate in
  if keys_length patch =? 0 then Ok (existing, s)
  else update_book (id existing) (p_isbn patch) (patch_data patch) s.

(** The body of the loop for one candidate. *)
Definition persist_one (candidate : ExternalBookCandidate) (acc : Persisted)
    : Tx Persisted := fun s =>
  match existingByIsbn candidate s with
  | Some existing =>
      match enrichExistingBook existing candidate s with
      | Ok (enriched, s') => Ok (reused enriched acc, s')
      | Err e => Err e
      end
  | None =>
      match findFirst_titleAuthor (c_title candidate) (c_author candidate) s with
      | Some existing =>
          match enrichExistingBook existing candidate s with
          | Ok (enriched, s') => Ok (reused enriched acc, s')
          | Err e => Err e
          end
      | None =>
          match book_create candidate s with
          | Some (row, s') => Ok (created row acc, s')
          | None =>
              match existingByIsbn candidate s with
              | Some existing => Ok (reused existing acc, s)
              | None => Err StorageError
              end
          end
      end
  end.

(** The loop; the writes are not in a transaction, so a failure leaves the
    store as the candidates before it made it. *)
Fixpoint persist_loop (candidates : list ExternalBookCandidate) (acc : Persisted)
    (s : Store) : Result Persisted * Store :=
  match candidates with
  | [] => (Ok acc, s)
  | candidate :: rest =>
      match persist_one candidate acc s with
      | Ok (acc', s') => persist_loop rest acc' s'
      | Err e => (Err e, s)
      end
  end.

Definition persistExternalBooks (candidates : list ExternalBookCandidate) (s : Store)
    : Result Persisted * Store :=
  persist_loop (dedupeCandidates candidates) nothing_persisted s.

End Persist.

End ExternalSearch.

(** ** The other loan routes (routes/loans.routes.ts) *)

Module Desk.
Import Db Lending.

Definition set_dueAt (d : option Z) (l : Loan) : Loan :=
  {| loan_id := loan_id l; loan_bookId := loan_bookId l;
     loan_userId := loan_userId l; checkedOutAt := checkedOutAt l;
     dueAt := d; returnedAt := returnedAt l |}.

(** *** GET /loans *)

Inductive StatusFilter := active | returned.

Record LoansQuery := { q_status : option StatusFilter; q_userId : option string }.

(** The four members of the [AND] of the [where] clause. *)
Definition loans_where (v : Viewer) (query : LoansQuery) (l : Loan) : bool :=
  (if is_admin v && JS.truthy_opt (q_userId query)
   then bool_decide (q_userId query = Some (loan_userId l)) else true)
  && (if negb (is_admin v) then String.eqb (loan_userId l) (viewer_id v) else true)
  && (match q_status query with Some active => is_active l | _ => true end)
  && (match q_status query with Some returned => negb (is_active l) | _ => true end).

Definition list_loans (viewer : option Viewer) (query : LoansQuery) (s : Store)
    : Result (list Loan) :=
  match viewer with
  | None => Err Unauthorized
  | Some v =>
      Ok (Recommend.sort_by Recommend.later
            (List.filter (loans_where v query) (loans s)))
  end.

(** *** GET /loans/admin/overview *)

(** [loan.dueAt && loan.dueAt < now] *)
Definition overdue (now : Z) (l : Loan) : bool :=
  match dueAt l with Some d => d <? now | None => false end.

(** [orderBy: [{ dueAt: "asc" }, { checkedOutAt: "asc" }]]; in ascending
    order the database puts the rows without a due date last. *)
Definition due_first (a b : Loan) : bool :=
  match dueAt a, dueAt b with
  | Some x, Some y => (x <? y) || ((x =? y) && (checkedOutAt a <? checkedOutAt b))
  | Some _, None => true
  | None, Some _ => false
  | None, None => checkedOutAt a <? checkedOutAt b
  end.

(** A value of the [byUser] map; the user is known by its id. *)
Record Borrower := {
  b_user : string;
  b_activeLoans : list Loan;
  overdueCount : Z
}.

Definition has_user (key : string) (byUser : list Borrower) : bool :=
  existsb (fun r => String.eqb (b_user r) key) byUser.

(** [record.activeLoans.push(loan)] and the count. *)
Definition push (now : Z) (loan : Loan) (r : Borrower) : Borrower :=
  {| b_user := b_user r; b_activeLoans := b_activeLoans r ++ [loan];
     overdueCount := overdueCount r + (if overdue now loan then 1 else 0) |}.

(** [byUser.get(key)] is the record that holds the key; the loan goes on it. *)
Fixpoint record_loan (now : Z) (loan : Loan) (byUser : list Borrower) : list Borrower :=
  match byUser with
  | [] => []
  | r :: rest =>
      if String.eqb (b_user r) (loan_userId loan)
      then push now loan r :: rest
      else r :: record_loan now loan rest
  end.

(** One call of the [activeLoans.forEach] callback; the map keeps its keys in
    the order in which they were set first. *)
Definition group_step (now : Z) (byUser : list Borrower) (loan : Loan) : list Borrower :=
  let key := loan_userId loan in
  let byUser :=
    if negb (has_user key byUser)
    then byUser ++ [{| b_user := key; b_activeLoans := []; overdueCount := 0 |}]
    else byUser in
  record_loan now loan byUser.

Record Overview := {
  borrowers : list Borrower;
  overdueLoans : list Loan;
  overdueUsers : Z
}.

Definition active_by_due (s : Store) : list Loan :=
  Recommend.sort_by due_first (List.filter is_active (loans s)).

Definition admin_overview (now : Z) (viewer : option Viewer) (s : Store)
    : Result Overview :=
  match viewer with
  | None => Err Unauthorized
  | Some v =>
      if negb (is_admin v) then Err Forbidden
      else
        let activeLoans := active_by_due s in
        let overdueLoans := List.filter (overdue now) activeLoans in
        let byUser := fold_left (group_step now) activeLoans [] in
        Ok {| borrowers := byUser;
              overdueLoans := overdueLoans;
              overdueUsers :=
                Z.of_nat (length (List.filter (fun r => 0 <? overdueCount r) byUser)) |}
  end.

(** *** PATCH /loans/:loanId/due-date *)

Definition update_due_date (viewer : option Viewer) (loanId : nat) (due : Z)
    (s : Store) : Result Loan * Store :=
  match viewer with
  | None => (Err Unauthorized, s)
  | Some v =>
      if negb (is_admin v) then (Err Forbidden, s)
      else match loans s !! loanId with
           | None => (Err NotFound, s)
           | Some loan =>
               if JS.defined (returnedAt loan) then (Err Conflict, s)
               else match loan_update (loan_id loan) (set_dueAt (Some due)) s with
                    | Ok (updated, s') => (Ok updated, s')
                    | Err e => (Err e, s)
                    end
           end
  end.

End Desk.

(** ** The other borrow-request routes (routes/books.routes.ts) *)

Module Requests.
Import Db Lending.

Definition decided (r : BorrowRequest) : bool :=
  status_eqb (status r) APPROVED || status_eqb (status r) DECLINED.

(** *** GET /borrow-requests *)

Definition requests_where (v : Viewer) (filter : option RequestStatus)
    (r : BorrowRequest) : bool :=
  (if is_admin v then true else String.eqb (req_userId r) (viewer_id v))
  && match filter with
     | Some st => status_eqb (status r) st
     | None => if is_admin v then status_eqb (status r) PENDING else true
     end.

(** [{ userId, status: { in: ["APPROVED", "DECLINED"] }, memberSeenAt: null }] *)
Definition unread (userId : string) (r : BorrowRequest) : bool :=
  String.eqb (req_userId r) userId && decided r && negb (JS.defined (memberSeenAt r)).

Record RequestList := {
  data : list BorrowRequest;
  pendingCount : Z;
  unreadForMember : Z
}.

Definition count (f : BorrowRequest -> bool) (s : Store) : Z :=
  Z.of_nat (length (List.filter f (requests s))).

(** The rows are kept in creation order, so [orderBy: createdAt desc] reads
    the table backwards. *)
Definition list_requests (viewer : option Viewer) (filter : option RequestStatus)
    (limit : nat) (s : Store) : Result RequestList :=
  match viewer with
  | None => Err Unauthorized
  | Some v =>
      Ok {| data := take limit (reverse (List.filter (requests_where v filter) (requests s)));
            pendingCount :=
              if is_admin v then count (fun r => status_eqb (status r) PENDING) s else 0;
            unreadForMember :=
              if negb (is_admin v) then count (unread (viewer_id v)) s else 0 |}
  end.

(** *** POST /borrow-requests/me/mark-seen *)

Definition set_memberSeenAt (t : option Z) (r : BorrowRequest) : BorrowRequest :=
  {| req_id := req_id r; req_userId := req_userId r; req_bookId := req_bookId r;
     status := status r; reviewedById := reviewedById r; reviewedAt := reviewedAt r;
     memberSeenAt := t |}.

(** [prisma.borrowRequest.updateMany({ where, data })]: every row that
    matches is updated; the result is their number. *)
Definition requests_updateMany (where_ : BorrowRequest -> bool)
    (data : BorrowRequest -> BorrowRequest) (s : Store) : Z * Store :=
  (Z.of_nat (length (List.filter where_ (requests s))),
   set_requests s ((fun r => if where_ r then data r else r) <$> requests s)).

Definition mark_seen (now : Z) (viewer : option Viewer) (s : Store)
    : Result Z * Store :=
  match viewer with
  | None => (Err Unauthorized, s)
  | Some v =>
      if is_admin v then (Ok 0, s)
      else
        let '(updated, s') :=
          requests_updateMany (unread (viewer_id v)) (set_memberSeenAt (Some now)) s in
        (Ok updated, s')
  end.

End Requests.

(** ** Sequences of lending operations *)

Module Ops.
Import Db Lending.

Inductive Op :=
| Checkout (viewer : option Viewer) (payload : CheckoutPayload)
| Checkin (viewer : option Viewer) (bookId : string)
| CreateRequest (viewer : option Viewer) (bookId : string)
| Approve (viewer : option Viewer) (requestId : nat)
| Decline (viewer : option Viewer) (requestId : nat)
| UpdateDueDate (viewer : option Viewer) (loanId : nat) (due : Z)
| MarkSeen (viewer : option Viewer).

(** What the client learns about the outcome. *)
Definition answer {A} (r : Result A) : option HttpError :=
  match r with Ok _ => None | Err e => Some e end.

Section Serve.

Variable dueEstimate : Book -> ReadingTime.DueDateEstimate.

(** The server handles one request at time [now]. *)
Definition serve (now : Z) (op : Op) (s : Store) : option HttpError * Store :=
  match op with
  | Checkout viewer payload =>
      let '(r, s') := checkout dueEstimate now viewer payload s in (answer r, s')
  | Checkin viewer bookId =>
      let '(r, s') := checkin now viewer bookId s in (answer r, s')
  | CreateRequest viewer bookId =>
      let '(r, s') := create_request now viewer bookId s in (answer r, s')
  | Approve viewer requestId =>
      let '(r, s') := approve dueEstimate now viewer requestId s in (answer r, s')
  | Decline viewer requestId =>
      let '(r, s') := decline now viewer requestId s in (answer r, s')
  | UpdateDueDate viewer loanId due =>
      let '(r, s') := Desk.update_due_date viewer loanId due s in (answer r, s')
  | MarkSeen viewer =>
      let '(r, s') := Requests.mark_seen now viewer s in (answer r, s')
  end.

(** The requests of a day, each with the time at which it is handled. *)
Definition serve_all (day : list (Z * Op)) (s : Store) : Store :=
  fold_left (fun s '(now, op) => (serve now op s).2) day s.

End Serve.

End Ops.

(** ** Vocabulary for the page-count loops of the estimator *)

Module Pages.

(** The entry that the page-count loop of Google Books makes of a volume:
    none for a volume without a usable page count. *)
Definition google_entry (titleNorm authorNorm : string) (item : ReadingTime.GoogleItem)
    : option ReadingTime.GoogleBest :=
  ReadingTime.google_step titleNorm authorNorm None item.

Definition openlibrary_entry (titleNorm authorNorm : string)
    (doc : ReadingTime.OpenLibraryDoc) : option ReadingTime.OpenLibraryBest :=
  ReadingTime.openlibrary_step titleNorm authorNorm None doc.

(** [e] is the first of [entries] with the highest score. *)
Definition FirstBest {A} (score : A -> Z) (entries : list A) (e : A) : Prop :=
  exists before after,
    entries = before ++ e :: after
    /\ Forall (fun x => score x < score e) before
    /\ Forall (fun x => score x <= score e) after.

End Pages.

(** ** Vocabulary of the ledger properties *)

Module Ledger.
Import Db.

(** The pending requests that reference a book. *)
Definition pending_requests (bookId : string) (s : Store) : list BorrowRequest :=
  filter (fun r => status_eqb (status r) PENDING = true ∧ req_bookId r = bookId)
         (requests s).

(** The books and the loans agree, and so do the books and the requests:
    loan rows are numbered by position; a book on the shelf has no active
    loan and a book off the shelf has exactly one; a book has at most one
    pending request, and is marked when it has one. *)
Definition Consistent (s : Store) : Prop :=
  (forall i l, loans s !! i = Some l -> loan_id l = i)
  /\ (forall k b, books s !! k = Some b ->
        length (active_loans k s) = if available b then 0%nat else 1%nat)
  /\ (forall k b, books s !! k = Some b ->
        (length (pending_requests k s) <= 1)%nat
        /\ (pending_requests k s <> [] -> requestPending b = true)).

(** A book is marked as requested although no pending request references it. *)
Definition Wedged (bookId : string) (s : Store) : Prop :=
  (exists b, books s !! bookId = Some b /\ requestPending b = true)
  /\ pending_requests bookId s = [].

(** Every row is filed under its own id. *)
Definition WellKeyed (s : Store) : Prop :=
  forall k b, books s !! k = Some b -> id b = k.

(** [a] is not listed after [b] when the loans are put by due date, the
    loans without one last, and then by checkout time. *)
Definition due_le (a b : Loan) : Prop := Desk.due_first b a = false.

(** [a] was checked out no earlier than [b]. *)
Definition newer (a b : Loan) : Prop := checkedOutAt b <= checkedOutAt a.

(** The overdue counts of the borrowers, added up. *)
Definition total_overdue (byUser : list Desk.Borrower) : Z :=
  foldr (fun r acc => Desk.overdueCount r + acc) 0 byUser.

(** The loans on the records of the borrowers, record after record. *)
Definition all_loans (byUser : list Desk.Borrower) : list Loan :=
  concat (Desk.b_activeLoans <$> byUser).

End Ledger.

(** ** A shelf with a request on it, and an import *)

Module Cases.
Import Db.

(** Member [u] has asked for book A. *)
Definition asking : BorrowRequest :=
  {| req_id := 0; req_userId := "u"; req_bookId := "A"; status := PENDING;
     reviewedById := None; reviewedAt := None; memberSeenAt := None |}.

Definition asked : Store :=
  {| books := {["A" := Sample.shelf_book "A" true true]};
     users := {["u"]} ∪ {["v"]} ∪ {["w"]};
     loans := []; requests := [asking] |}.

(** Texts are equal when their lower-case forms are. *)
Definition same_text (a b : string) : bool :=
  String.eqb (JS.toLowerCase a) (JS.toLowerCase b).

(** The next id is one that no row of the store has. *)
Definition next_id (s : Store) : string := fresh_string "book" (books s).

End Cases.

(** * Properties *)

(** ** Strings and rounding *)

Lemma startsWith_spec s p :
  JS.startsWith s p = true <-> exists post, s = p +:+ post.
Proof.
  revert s. induction p as [|a p IH]; intros s; simpl.
  - split; [intros _; exists s; reflexivity | reflexivity].
  - destruct s as [|b s].
    + split; [discriminate | intros [post H]; discriminate].
    + destruct (Ascii.eqb_spec a b) as [->|Hne].
      * rewrite IH. split; intros [post H]; exists post.
        -- simpl. by rewrite H.
        -- simpl in H. by injection H.
      * split; [discriminate|]. intros [post H]. simpl in H.
        injection H as H1 H2. congruence.
Qed.

Lemma includes_spec s sub :
  JS.includes s sub = true <-> Spec.Contains s sub.
Proof.
  unfold Spec.Contains.
  induction s as [|c s IH]; simpl.
  - rewrite orb_false_r, startsWith_spec. split.
    + intros [post H]. exists "", post. exact H.
    + intros [pre [post H]]. destruct pre; simpl in H.
      * by exists post.
      * discriminate.
  - rewrite orb_true_iff, startsWith_spec, IH. split.
    + intros [[post H]|[pre [post H]]].
      * exists "", post. exact H.
      * exists (String c pre), post. simpl. by rewrite H.
    + intros [pre [post H]]. destruct pre as [|c' pre]; simpl in H.
      * left. by exists post.
      * right. injection H as _ H. by exists pre, post.
Qed.

Lemma includes_false s sub :
  JS.includes s sub = false <-> ~ Spec.Contains s sub.
Proof.
  rewrite <- includes_spec. destruct (JS.includes s sub); split; congruence.
Qed.

Lemma round_nearest q : Spec.Nearest q (JS.round q).
Proof.
  unfold Spec.Nearest, JS.round.
  pose proof (Qfloor_le (q + (1 # 2))) as Hlo.
  pose proof (Qlt_floor (q + (1 # 2))) as Hhi.
  rewrite inject_Z_plus in Hhi.
  change (inject_Z 1) with 1%Q in Hhi.
  split; lra.
Qed.

Lemma nearest_unique q n m : Spec.Nearest q n -> Spec.Nearest q m -> n = m.
Proof.
  intros [H1 H2] [H3 H4].
  assert (inject_Z n < inject_Z m + 1)%Q as A by lra.
  assert (inject_Z m < inject_Z n + 1)%Q as B by lra.
  change 1%Q with (inject_Z 1) in A, B.
  rewrite <- inject_Z_plus in A, B.
  rewrite <- Zlt_Qlt in A, B. lia.
Qed.

(** Running a provider computation on a log. *)
Ltac net_run :=
  unfold result, calls; unfold mbind, net_bind, mret, net_ret, call; simpl.

(** ** Due-date estimator *)

Section ReadingTimeFacts.
Import ReadingTime.

Variable fetchGoogle : string -> option GooglePayload.
Variable fetchOpenLibrary : string -> option OpenLibraryPayload.

Lemma google_step_pages t a best item :
  (forall b, best = Some b -> 30 <= g_pageCount b) ->
  forall b, google_step t a best item = Some b -> 30 <= g_pageCount b.
Proof.
  intros Hbest b. unfold google_step.
  destruct (volumeInfo item) as [volume|]; [|apply Hbest].
  destruct (v_pageCount volume) as [pages|]; [|apply Hbest].
  destruct (pages =? 0) eqn:E0; simpl; [apply Hbest|].
  destruct (pages <? 30) eqn:E30; [apply Hbest|].
  apply Z.ltb_ge in E30.
  destruct best as [b0|].
  - destruct (g_score b0 <? _); [|apply Hbest].
    intros [= <-]. exact E30.
  - intros [= <-]. exact E30.
Qed.

Lemma google_fold_pages t a items : forall best,
  (forall b, best = Some b -> 30 <= g_pageCount b) ->
  forall b, fold_left (google_step t a) items best = Some b -> 30 <= g_pageCount b.
Proof.
  induction items as [|item items IH]; intros best Hbest b; simpl.
  - apply Hbest.
  - apply IH. apply google_step_pages. exact Hbest.
Qed.

Lemma openlibrary_step_pages t a best doc :
  (forall b, best = Some b -> 30 <= o_pages b) ->
  forall b, openlibrary_step t a best doc = Some b -> 30 <= o_pages b.
Proof.
  intros Hbest b. unfold openlibrary_step.
  destruct (number_of_pages_median doc) as [pages|]; [|apply Hbest].
  destruct (pages =? 0) eqn:E0; simpl; [apply Hbest|].
  destruct (pages <? 30) eqn:E30; [apply Hbest|].
  apply Z.ltb_ge in E30.
  destruct best as [b0|].
  - destruct (o_score b0 <? _); [|apply Hbest].
    intros [= <-]. exact E30.
  - intros [= <-]. exact E30.
Qed.

Lemma openlibrary_fold_pages t a docs : forall best,
  (forall b, best = Some b -> 30 <= o_pages b) ->
  forall b, fold_left (openlibrary_step t a) docs best = Some b -> 30 <= o_pages b.
Proof.
  induction docs as [|doc docs IH]; intros best Hbest b; simpl.
  - apply Hbest.
  - apply IH. apply openlibrary_step_pages. exact Hbest.
Qed.

Lemma findGoogle_run input log :
  findGooglePageCount fetchGoogle input log
  = (result (findGooglePageCount fetchGoogle input),
     log ++ [GoogleVolumes (google_query input)]).
Proof. reflexivity. Qed.

Lemma findOpenLibrary_run input log :
  findOpenLibraryPageCount fetchOpenLibrary input log
  = (result (findOpenLibraryPageCount fetchOpenLibrary input),
     log ++ [OpenLibraryDocs (openlibrary_query input)]).
Proof. reflexivity. Qed.

Lemma findGoogle_pages input pages category :
  result (findGooglePageCount fetchGoogle input) = Some (pages, category) ->
  30 <= pages.
Proof.
  unfold findGooglePageCount. net_run.
  destruct (fold_left _ _ None) as [b|] eqn:E; [|discriminate].
  intros [= <- <-].
  eapply google_fold_pages; [|exact E]. discriminate.
Qed.

Lemma findOpenLibrary_pages input pages :
  result (findOpenLibraryPageCount fetchOpenLibrary input) = Some pages ->
  30 <= pages.
Proof.
  unfold findOpenLibraryPageCount. net_run.
  destruct (fold_left _ _ None) as [b|] eqn:E; [|discriminate].
  intros [= <-].
  eapply openlibrary_fold_pages; [|exact E]. discriminate.
Qed.

Lemma estimate_eq now input log :
  estimateLoanDueDate fetchGoogle fetchOpenLibrary now input log
  = match result (findGooglePageCount fetchGoogle input) with
    | Some (pages, category) =>
        let d := clampDays (inject_Z pages / inject_Z (estimatePagesPerDay category)) in
        ({| dueAt := buildDueDate now d; days := d;
            source := google_books; pageCount := Some pages |},
         log ++ [GoogleVolumes (google_query input)])
    | None =>
        let log' := log ++ [GoogleVolumes (google_query input);
                            OpenLibraryDocs (openlibrary_query input)] in
        match result (findOpenLibraryPageCount fetchOpenLibrary input) with
        | Some pages =>
            if pages =? 0 then
              ({| dueAt := buildDueDate now fallbackDays; days := fallbackDays;
                  source := fallback; pageCount := None |}, log')
            else
              let d := clampDays (inject_Z pages / 35) in
              ({| dueAt := buildDueDate now d; days := d;
                  source := openlibrary; pageCount := Some pages |}, log')
        | None =>
            ({| dueAt := buildDueDate now fallbackDays; days := fallbackDays;
                source := fallback; pageCount := None |}, log')
        end
    end.
Proof.
  unfold estimateLoanDueDate.
  unfold mbind at 1, net_bind. rewrite findGoogle_run.
  destruct (result (findGooglePageCount fetchGoogle input)) as [[pages category]|].
  - reflexivity.
  - unfold mbind, net_bind. rewrite findOpenLibrary_run.
    rewrite <- app_assoc. simpl.
    destruct (result (findOpenLibraryPageCount fetchOpenLibrary input)) as [pages|];
      [destruct (pages =? 0)|]; reflexivity.
Qed.

(** What the estimator does, by the outcome of the two lookups. *)
Lemma estimate_cases now input :
  let e := result (estimateLoanDueDate fetchGoogle fetchOpenLibrary now input) in
  match result (findGooglePageCount fetchGoogle input) with
  | Some (pages, category) =>
      calls (estimateLoanDueDate fetchGoogle fetchOpenLibrary now input) = [GoogleVolumes (google_query input)]
      /\ e = {| dueAt := buildDueDate now (days e); days := days e;
                source := google_books; pageCount := Some pages |}
      /\ days e = clampDays (inject_Z pages / inject_Z (estimatePagesPerDay category))
      /\ 30 <= pages
  | None =>
      calls (estimateLoanDueDate fetchGoogle fetchOpenLibrary now input)
      = [GoogleVolumes (google_query input); OpenLibraryDocs (openlibrary_query input)]
      /\ match result (findOpenLibraryPageCount fetchOpenLibrary input) with
         | Some pages =>
             e = {| dueAt := buildDueDate now (days e); days := days e;
                    source := openlibrary; pageCount := Some pages |}
             /\ days e = clampDays (inject_Z pages / 35)
             /\ 30 <= pages
         | None =>
             e = {| dueAt := buildDueDate now 30; days := 30;
                    source := fallback; pageCount := None |}
         end
  end.
Proof.
  intros e. subst e.
  pose proof (findGoogle_pages input) as HG.
  pose proof (findOpenLibrary_pages input) as HO.
  change (result (estimateLoanDueDate fetchGoogle fetchOpenLibrary now input))
    with (estimateLoanDueDate fetchGoogle fetchOpenLibrary now input []).1.
  change (calls (estimateLoanDueDate fetchGoogle fetchOpenLibrary now input))
    with (estimateLoanDueDate fetchGoogle fetchOpenLibrary now input []).2.
  rewrite !estimate_eq.
  destruct (result (findGooglePageCount fetchGoogle input)) as [[pages category]|].
  - simpl. repeat split; eauto.
  - destruct (result (findOpenLibraryPageCount fetchOpenLibrary input)) as [pages|].
    + specialize (HO pages eq_refl).
      destruct (pages =? 0) eqn:E0; [apply Z.eqb_eq in E0; lia|].
      simpl. repeat split; eauto.
    + simpl. repeat split; eauto.
Qed.

Lemma google_fold_none t a items : forall best,
  fold_left (google_step t a) items best = None
  <-> best = None /\ Forall (fun item => Spec.usable_pages (Spec.google_pages item) = false) items.
Proof.
  induction items as [|item items IH]; intros best; simpl.
  - split; [intros ->; split; [done | constructor] | tauto].
  - rewrite IH, Forall_cons. unfold google_step, Spec.google_pages.
    destruct (volumeInfo item) as [volume|]; simpl; [|tauto].
    destruct (v_pageCount volume) as [pages|]; simpl; [|tauto].
    destruct (pages =? 0) eqn:E0; simpl.
    + apply Z.eqb_eq in E0. subst pages. simpl. tauto.
    + destruct (pages <? 30) eqn:E30; simpl.
      * apply Z.ltb_lt in E30. assert ((30 <=? pages) = false) as -> by lia. tauto.
      * apply Z.ltb_ge in E30. assert ((30 <=? pages) = true) as -> by lia.
        destruct best as [b|]; [destruct (g_score b <? _)|];
          split; intros [H1 H2]; try discriminate; destruct H2; discriminate.
Qed.

Lemma openlibrary_fold_none t a docs : forall best,
  fold_left (openlibrary_step t a) docs best = None
  <-> best = None
      /\ Forall (fun doc => Spec.usable_pages (number_of_pages_median doc) = false) docs.
Proof.
  induction docs as [|doc docs IH]; intros best; simpl.
  - split; [intros ->; split; [done | constructor] | tauto].
  - rewrite IH, Forall_cons. unfold openlibrary_step.
    destruct (number_of_pages_median doc) as [pages|]; simpl; [|tauto].
    destruct (pages =? 0) eqn:E0; simpl.
    + apply Z.eqb_eq in E0. subst pages. simpl. tauto.
    + destruct (pages <? 30) eqn:E30; simpl.
      * apply Z.ltb_lt in E30. assert ((30 <=? pages) = false) as -> by lia. tauto.
      * apply Z.ltb_ge in E30. assert ((30 <=? pages) = true) as -> by lia.
        destruct best as [b|]; [destruct (o_score b <? _)|];
          split; intros [H1 H2]; try discriminate; destruct H2; discriminate.
Qed.

Lemma findGoogle_none input :
  result (findGooglePageCount fetchGoogle input) = None
  <-> Forall (fun item => Spec.usable_pages (Spec.google_pages item) = false)
             (default [] (fetchGoogle (google_query input) ≫= items)).
Proof.
  transitivity
    (fold_left (google_step (normalize (title input)) (normalize (author input)))
       (default [] (fetchGoogle (google_query input) ≫= items)) None = None).
  - unfold findGooglePageCount. net_run.
    destruct (fold_left _ _ None); split; congruence.
  - rewrite google_fold_none. tauto.
Qed.

Lemma findOpenLibrary_none input :
  result (findOpenLibraryPageCount fetchOpenLibrary input) = None
  <-> Forall (fun doc => Spec.usable_pages (number_of_pages_median doc) = false)
             (default [] (fetchOpenLibrary (openlibrary_query input) ≫= docs)).
Proof.
  transitivity
    (fold_left (openlibrary_step (normalize (title input)) (normalize (author input)))
       (default [] (fetchOpenLibrary (openlibrary_query input) ≫= docs)) None = None).
  - unfold findOpenLibraryPageCount. net_run.
    destruct (fold_left _ _ None); split; simpl; congruence.
  - rewrite openlibrary_fold_none. tauto.
Qed.

Lemma clampDays_bounds q : 14 <= clampDays q <= 45.
Proof. unfold clampDays, minimumDays, maximumDays. lia. Qed.

Lemma clampDays_nearest q n :
  Spec.Nearest q n -> clampDays q = Z.max 14 (Z.min 45 n).
Proof.
  intros H. unfold clampDays, minimumDays, maximumDays.
  by rewrite (nearest_unique q _ _ (round_nearest q) H).
Qed.

Lemma pagesPerDay_table category :
  let v := normalize (default "" category) in
  (Spec.Juvenile v -> estimatePagesPerDay category = 50)
  /\ (~ Spec.Juvenile v -> Spec.Technical v -> estimatePagesPerDay category = 25)
  /\ (~ Spec.Juvenile v -> ~ Spec.Technical v -> Spec.Literary v ->
      estimatePagesPerDay category = 30)
  /\ (~ Spec.Juvenile v -> ~ Spec.Technical v -> ~ Spec.Literary v ->
      estimatePagesPerDay category = 35).
Proof.
  intros v. unfold Spec.Juvenile, Spec.Technical, Spec.Literary.
  rewrite <- !includes_spec.
  assert (estimatePagesPerDay category
          = if JS.includes v "children" || JS.includes v "young adult" then 50
            else if JS.includes v "science" || JS.includes v "engineering"
                    || JS.includes v "technology" || JS.includes v "computer" then 25
            else if JS.includes v "fantasy" || JS.includes v "historical"
                    || JS.includes v "classic" then 30
            else 35) as ->.
  { subst v. destruct category as [[|c0 c]|]; reflexivity. }
  destruct (JS.includes v "children"), (JS.includes v "young adult"); simpl;
    try (intuition congruence).
  destruct (JS.includes v "science"), (JS.includes v "engineering"),
    (JS.includes v "technology"), (JS.includes v "computer"); simpl;
    try (intuition congruence).
  destruct (JS.includes v "fantasy"), (JS.includes v "historical"),
    (JS.includes v "classic"); simpl; intuition congruence.
Qed.


(** C5 (amended).  The days of an estimate are the page count divided by the
    reading speed of the category, rounded to the nearest integer and then
    clamped to 14..45; the speed is 50 for children / young adult, else 25
    for science / engineering / technology / computer, else 30 for fantasy /
    historical / classic, else 35, and 35 for Open Library; page counts
    under 30 are passed over; without a usable page count the estimate is
    30 days.  1000 pages at 35 pages a day give 29 days (inside the clamp),
    50 pages give the 14-day minimum. *)
Theorem due_date_days_rounded_then_clamped now input :
  let e := result (estimateLoanDueDate fetchGoogle fetchOpenLibrary now input) in
  (forall category,
     let v := normalize (default "" category) in
     (Spec.Juvenile v -> estimatePagesPerDay category = 50)
     /\ (~ Spec.Juvenile v -> Spec.Technical v -> estimatePagesPerDay category = 25)
     /\ (~ Spec.Juvenile v -> ~ Spec.Technical v -> Spec.Literary v ->
         estimatePagesPerDay category = 30)
     /\ (~ Spec.Juvenile v -> ~ Spec.Technical v -> ~ Spec.Literary v ->
         estimatePagesPerDay category = 35))
  /\ (forall q n, Spec.Nearest q n -> clampDays q = Z.max 14 (Z.min 45 n))
  /\ (forall q, exists n, Spec.Nearest q n)
  /\ match pageCount e with
     | Some pages =>
         30 <= pages
         /\ ((source e = google_books
              /\ exists category,
                   result (findGooglePageCount fetchGoogle input) = Some (pages, category)
                   /\ days e = clampDays (inject_Z pages
                                          / inject_Z (estimatePagesPerDay category)))
             \/ (source e = openlibrary
                 /\ days e = clampDays (inject_Z pages / 35)))
     | None => source e = fallback /\ days e = 30
     end
  /\ (result (findGooglePageCount fetchGoogle input) = None
      <-> Forall (fun item => Spec.usable_pages (Spec.google_pages item) = false)
                 (default [] (fetchGoogle (google_query input) ≫= items)))
  /\ (result (findOpenLibraryPageCount fetchOpenLibrary input) = None
      <-> Forall (fun doc => Spec.usable_pages (number_of_pages_median doc) = false)
                 (default [] (fetchOpenLibrary (openlibrary_query input) ≫= docs)))
  /\ (pageCount e = None
      <-> result (findGooglePageCount fetchGoogle input) = None
          /\ result (findOpenLibraryPageCount fetchOpenLibrary input) = None)
  /\ clampDays (1000 / inject_Z (estimatePagesPerDay None)) = 29
  /\ clampDays (50 / inject_Z (estimatePagesPerDay None)) = 14.
Proof.
  intros e. subst e.
  split; [apply pagesPerDay_table|].
  split; [apply clampDays_nearest|].
  split; [intros q; exists (JS.round q); apply round_nearest|].
  pose proof (estimate_cases now input) as H. cbv zeta in H.
  split; [|split; [apply findGoogle_none|split; [apply findOpenLibrary_none|split]]].
  - destruct (result (findGooglePageCount fetchGoogle input)) as [[pages category]|].
    + destruct H as (_ & He & Hd & Hp). rewrite He. simpl.
      split; [done|]. left. split; [done|]. exists category. split; [done|].
      rewrite He in Hd. exact Hd.
    + destruct H as (_ & H).
      destruct (result (findOpenLibraryPageCount fetchOpenLibrary input)) as [pages|].
      * destruct H as (He & Hd & Hp). rewrite He. simpl.
        split; [done|]. right. split; [done|]. rewrite He in Hd. exact Hd.
      * rewrite H. simpl. done.
  - destruct (result (findGooglePageCount fetchGoogle input)) as [[pages category]|].
    + destruct H as (_ & He & _). rewrite He. simpl. split; [done|]. intros [? _]. done.
    + destruct H as (_ & H).
      destruct (result (findOpenLibraryPageCount fetchOpenLibrary input)) as [pages|].
      * destruct H as (He & _). rewrite He. simpl. split; [done|]. intros [_ ?]. done.
      * rewrite H. simpl. done.
  - split; reflexivity.
Qed.

End ReadingTimeFacts.

(** C5, as stated: 1000 pages at the default 35 pages a day are said to clamp
    to 45 days; the estimator answers 29. *)
Lemma thousand_pages_is_not_45_days :
  ReadingTime.clampDays (1000 / inject_Z (ReadingTime.estimatePagesPerDay None)) = 29
  /\ ReadingTime.clampDays (1000 / inject_Z (ReadingTime.estimatePagesPerDay None)) <> 45.
Proof. split; [reflexivity | discriminate]. Qed.

(** ** Synthetic metadata *)

Section SyntheticFacts.
Import Db ExternalBooks.

Lemma hashString_range input : 0 <= hashString input < 2 ^ 32.
Proof.
  unfold hashString.
  assert (forall cs h, 0 <= h < 2 ^ 32 ->
            0 <= fold_left (fun hash c => (hash * 31 + c) mod 2 ^ 32) cs h < 2 ^ 32) as H.
  { induction cs as [|c cs IH]; intros h Hh; simpl; [exact Hh|].
    apply IH. apply Z.mod_pos_bound. lia. }
  apply H. lia.
Qed.

Lemma syntheticRating_steps hash :
  exists k, 0 <= k <= 13 /\ k = hash mod 14
            /\ syntheticRating hash = Qred ((34 + k) # 10).
Proof.
  exists (hash mod 14).
  pose proof (Z.mod_pos_bound hash 14 ltac:(lia)) as Hk.
  split; [lia|]. split; [reflexivity|].
  unfold syntheticRating. generalize dependent (hash mod 14). intros k Hk.
  assert (k = 0 \/ k = 1 \/ k = 2 \/ k = 3 \/ k = 4 \/ k = 5 \/ k = 6 \/ k = 7
          \/ k = 8 \/ k = 9 \/ k = 10 \/ k = 11 \/ k = 12 \/ k = 13) as Hcases by lia.
  repeat (destruct Hcases as [-> | Hcases]; [vm_compute; reflexivity|]).
  subst k. vm_compute. reflexivity.
Qed.

Lemma syntheticRating_range hash :
  (34 # 10 <= syntheticRating hash)%Q /\ (syntheticRating hash <= 47 # 10)%Q
  /\ exists k, 0 <= k <= 13
               /\ (syntheticRating hash == (34 # 10) + inject_Z k * (1 # 10))%Q.
Proof.
  destruct (syntheticRating_steps hash) as (k & Hk & _ & ->).
  rewrite !Qred_correct.
  repeat split.
  - unfold Qle. simpl. lia.
  - unfold Qle. simpl. lia.
  - exists k. split; [lia|]. rewrite Qred_correct.
    unfold Qeq, inject_Z, Qplus, Qmult. simpl.
    change (Z.pos (10 * (1 * 10))) with 100. change (Z.pos (1 * 10)) with 10. lia.
Qed.

Lemma syntheticRatingsCount_range hash : 12 <= syntheticRatingsCount hash < 252.
Proof.
  unfold syntheticRatingsCount.
  pose proof (Z.mod_pos_bound hash 240 ltac:(lia)). lia.
Qed.

Variable makeGeneratedCoverDataUrl : string -> string -> string.

Lemma synthetic_rating_value existing pending r :
  cp_averageRating (buildSyntheticCorePatch makeGeneratedCoverDataUrl existing pending) = Some r ->
  r = syntheticRating (hashString (title existing +:+ "|" +:+ author existing)).
Proof.
  unfold buildSyntheticCorePatch. simpl.
  destruct (_ || _); [discriminate|]. by intros [= <-].
Qed.

Lemma synthetic_count_value existing pending n :
  cp_ratingsCount (buildSyntheticCorePatch makeGeneratedCoverDataUrl existing pending) = Some n ->
  n = syntheticRatingsCount (hashString (title existing +:+ "|" +:+ author existing)).
Proof.
  unfold buildSyntheticCorePatch. simpl.
  destruct (_ || _); [discriminate|]. by intros [= <-].
Qed.

End SyntheticFacts.

(** C4.  The synthetic average rating and ratings count of a record are a
    function of its title and author alone, through [hashString] of
    "title|author" (a 32-bit value): the rating is one of 3.4, 3.5, ..., 4.7,
    the count lies in 12..251, and two syntheses for the same title and
    author give the same rating and the same count, whatever the other
    columns, the pending patch, the cover generator or the place of the
    record in a sweep. *)
Theorem synthetic_ratings_deterministic :
  (forall input, 0 <= ExternalBooks.hashString input < 2 ^ 32)
  /\ (forall cover existing pending r,
        ExternalBooks.cp_averageRating
          (ExternalBooks.buildSyntheticCorePatch cover existing pending) = Some r ->
        (34 # 10 <= r)%Q /\ (r <= 47 # 10)%Q
        /\ exists k, 0 <= k <= 13 /\ (r == (34 # 10) + inject_Z k * (1 # 10))%Q)
  /\ (forall cover existing pending n,
        ExternalBooks.cp_ratingsCount
          (ExternalBooks.buildSyntheticCorePatch cover existing pending) = Some n ->
        12 <= n < 252)
  /\ (forall cover existing pending,
        Db.averageRating existing = None ->
        ExternalBooks.cp_averageRating pending = None ->
        Db.ratingsCount existing = None ->
        ExternalBooks.cp_ratingsCount pending = None ->
        is_Some (ExternalBooks.cp_averageRating
                   (ExternalBooks.buildSyntheticCorePatch cover existing pending))
        /\ is_Some (ExternalBooks.cp_ratingsCount
                      (ExternalBooks.buildSyntheticCorePatch cover existing pending)))
  /\ (forall cover1 cover2 e1 e2 p1 p2,
        Db.title e1 = Db.title e2 -> Db.author e1 = Db.author e2 ->
        (forall r1 r2,
           ExternalBooks.cp_averageRating
             (ExternalBooks.buildSyntheticCorePatch cover1 e1 p1) = Some r1 ->
           ExternalBooks.cp_averageRating
             (ExternalBooks.buildSyntheticCorePatch cover2 e2 p2) = Some r2 ->
           r1 = r2)
        /\ (forall n1 n2,
              ExternalBooks.cp_ratingsCount
                (ExternalBooks.buildSyntheticCorePatch cover1 e1 p1) = Some n1 ->
              ExternalBooks.cp_ratingsCount
                (ExternalBooks.buildSyntheticCorePatch cover2 e2 p2) = Some n2 ->
              n1 = n2)).
Proof.
  split; [apply hashString_range|].
  split.
  { intros cover existing pending r H.
    apply synthetic_rating_value in H as ->. apply syntheticRating_range. }
  split.
  { intros cover existing pending n H.
    apply synthetic_count_value in H as ->. apply syntheticRatingsCount_range. }
  split.
  { intros cover existing pending H1 H2 H3 H4.
    unfold ExternalBooks.buildSyntheticCorePatch. simpl.
    rewrite H1, H2, H3, H4. simpl. split; eexists; reflexivity. }
  intros cover1 cover2 e1 e2 p1 p2 Ht Ha. split.
  - intros r1 r2 H1 H2.
    apply synthetic_rating_value in H1, H2. rewrite H1, H2, Ht, Ha. reflexivity.
  - intros n1 n2 H1 H2.
    apply synthetic_count_value in H1, H2. rewrite H1, H2, Ht, Ha. reflexivity.
Qed.

(** ** Match scoring *)

Section ScoringFacts.
Import Db ExternalBooks.

Lemma truthy_spec s : JS.truthy s = true <-> s <> "".
Proof. destruct s; simpl; split; done. Qed.

Lemma truthy_opt_spec o : JS.truthy_opt o = true <-> Spec.HasIsbn o.
Proof.
  unfold Spec.HasIsbn. destruct o as [s|]; simpl.
  - rewrite truthy_spec. split.
    + intros H. by exists s.
    + intros (i & [= <-] & H). exact H.
  - split; [discriminate|]. intros (i & H & _). discriminate.
Qed.

Lemma isbn_points_spec a b : Spec.IsbnPoints a b (Spec.isbn_points a b).
Proof.
  unfold Spec.isbn_points.
  destruct (JS.truthy_opt a) eqn:Ea, (JS.truthy_opt b) eqn:Eb; simpl.
  - apply truthy_opt_spec in Ea, Eb.
    case_bool_decide; [by apply Spec.isbn_exact | by apply Spec.isbn_mismatch].
  - apply Spec.isbn_absent. intros [_ H]. apply truthy_opt_spec in H. congruence.
  - apply Spec.isbn_absent. intros [H _]. apply truthy_opt_spec in H. congruence.
  - apply Spec.isbn_absent. intros [H _]. apply truthy_opt_spec in H. congruence.
Qed.

Lemma partial_match_spec a b :
  String.eqb a b = false ->
  JS.truthy a && JS.truthy b && (JS.includes a b || JS.includes b a) = true
  <-> Spec.PartialMatch a b.
Proof.
  intros Hne. apply String.eqb_neq in Hne. unfold Spec.PartialMatch.
  rewrite !andb_true_iff, orb_true_iff, !truthy_spec, !includes_spec. tauto.
Qed.

Lemma match_points_spec exact partial a b :
  Spec.MatchPoints exact partial a b (Spec.match_points exact partial a b).
Proof.
  unfold Spec.match_points. destruct (String.eqb a b) eqn:E.
  - apply Spec.match_exact. by apply String.eqb_eq.
  - destruct (_ && _ && _) eqn:P.
    + apply Spec.match_partial. by apply partial_match_spec.
    + apply Spec.match_none; [by apply String.eqb_neq|].
      intros H. apply partial_match_spec in H; congruence.
Qed.

Lemma match_points_partial exact partial a b :
  Spec.PartialMatch a b -> Spec.match_points exact partial a b = partial.
Proof.
  intros H. unfold Spec.match_points.
  assert (String.eqb a b = false) as E by (apply String.eqb_neq, H).
  rewrite E. apply partial_match_spec in H; [|exact E]. by rewrite H.
Qed.

Lemma match_points_none exact partial a b :
  a <> b -> ~ Spec.PartialMatch a b -> Spec.match_points exact partial a b = 0.
Proof.
  intros Hne H. unfold Spec.match_points.
  assert (String.eqb a b = false) as E by (by apply String.eqb_neq).
  rewrite E. destruct (_ && _ && _) eqn:P; [|reflexivity].
  apply partial_match_spec in P; [tauto | exact E].
Qed.

Lemma candidateScore_parts book candidate :
  candidateScore book candidate
  = Spec.isbn_points (isbn book) (c_isbn candidate)
    + Spec.match_points 40 20 (normalizeForCompare (title book))
                         (normalizeForCompare (c_title candidate))
    + Spec.match_points 25 10 (normalizeForCompare (author book))
                         (normalizeForCompare (c_author candidate))
    + 6 * keys_length (buildMetadataPatch book candidate).
Proof.
  unfold candidateScore, Spec.isbn_points, Spec.match_points. cbv zeta.
  repeat match goal with
         | |- context [if ?c then _ else _] => destruct c
         end; lia.
Qed.

Lemma count_key_range {A} (o : option A) : 0 <= count_key o <= 1.
Proof. destruct o; simpl; lia. Qed.

Lemma keys_length_range p : 0 <= keys_length p <= 8.
Proof.
  unfold keys_length.
  pose proof (count_key_range (p_author p)). pose proof (count_key_range (p_coverUrl p)).
  pose proof (count_key_range (p_description p)). pose proof (count_key_range (p_genre p)).
  pose proof (count_key_range (p_publishedYear p)). pose proof (count_key_range (p_isbn p)).
  pose proof (count_key_range (p_averageRating p)).
  pose proof (count_key_range (p_ratingsCount p)). lia.
Qed.

Lemma dune_normalised :
  normalizeForCompare "Dune" = "dune"
  /\ normalizeForCompare "Frank Herbert" = "frank herbert"
  /\ isUnknownAuthor "Frank Herbert" = false.
Proof. repeat split; reflexivity. Qed.

(** C6 (amended).  The score of a candidate against a record is the sum of:
    the ISBN part (+100 when both sides have an ISBN and they are equal,
    -30 when both have one and they differ, else 0); the title part on the
    normalised titles (+40 when equal, +20 when they differ, both are
    non-empty and one contains the other, else 0); the author part on the
    normalised authors (+25 / +10 / 0 likewise); and 6 for every key of the
    fill-missing-only patch, that is, for every field the candidate could
    newly fill.  For a record titled Dune by Frank Herbert without ISBN, a
    candidate with that title, that author and an ISBN scores strictly
    higher than any candidate whose title matches only partially and whose
    author does not match. *)
Theorem candidateScore_sum_of_parts book candidate :
  (exists i t a,
     candidateScore book candidate
     = i + t + a + 6 * keys_length (buildMetadataPatch book candidate)
     /\ Spec.IsbnPoints (isbn book) (c_isbn candidate) i
     /\ Spec.MatchPoints 40 20 (normalizeForCompare (title book))
                               (normalizeForCompare (c_title candidate)) t
     /\ Spec.MatchPoints 25 10 (normalizeForCompare (author book))
                               (normalizeForCompare (c_author candidate)) a
     /\ 0 <= keys_length (buildMetadataPatch book candidate) <= 8)
  /\ (forall dune full partial,
        title dune = "Dune" -> author dune = "Frank Herbert" -> isbn dune = None ->
        c_title full = "Dune" -> c_author full = "Frank Herbert" ->
        c_isbn full = Some "0441013597" ->
        Spec.PartialMatch (normalizeForCompare (c_title partial))
                          (normalizeForCompare (title dune)) ->
        normalizeForCompare (c_author partial) <> normalizeForCompare (author dune) ->
        ~ Spec.PartialMatch (normalizeForCompare (author dune))
                            (normalizeForCompare (c_author partial)) ->
        candidateScore dune partial < candidateScore dune full).
Proof.
  split.
  - exists (Spec.isbn_points (isbn book) (c_isbn candidate)),
      (Spec.match_points 40 20 (normalizeForCompare (title book))
                          (normalizeForCompare (c_title candidate))),
      (Spec.match_points 25 10 (normalizeForCompare (author book))
                          (normalizeForCompare (c_author candidate))).
    split; [apply candidateScore_parts|].
    split; [apply isbn_points_spec|].
    split; [apply match_points_spec|].
    split; [apply match_points_spec|].
    apply keys_length_range.
  - intros dune full partial Ht Ha Hi Ft Fa Fi Ptitle Pauthor1 Pauthor2.
    destruct dune_normalised as (Nt & Na & Nu).
    rewrite !candidateScore_parts.
    rewrite Ht, Ha, Hi, Ft, Fa, Fi in *. rewrite Nt, Na in *.
    (* the partial candidate *)
    assert (Spec.match_points 40 20 "dune" (normalizeForCompare (c_title partial)) = 20) as ->.
    { apply match_points_partial. unfold Spec.PartialMatch in *. intuition. }
    assert (Spec.match_points 25 10 "frank herbert"
              (normalizeForCompare (c_author partial)) = 0) as ->.
    { apply match_points_none; [congruence | exact Pauthor2]. }
    assert (keys_length (buildMetadataPatch dune partial) <= 7) as Hk.
    { unfold buildMetadataPatch, keys_length. simpl. rewrite Ha, Nu. simpl.
      repeat match goal with
             | |- context [count_key (if ?c then _ else _)] => destruct c
             end;
      repeat match goal with
             | |- context [count_key ?o] =>
                 pose proof (count_key_range o); generalize dependent (count_key o); intros
             end; simpl; lia. }
    (* the full candidate *)
    assert (1 <= keys_length (buildMetadataPatch dune full)) as Hf.
    { pose proof (count_key_range (p_author (buildMetadataPatch dune full))).
      pose proof (count_key_range (p_coverUrl (buildMetadataPatch dune full))).
      pose proof (count_key_range (p_description (buildMetadataPatch dune full))).
      pose proof (count_key_range (p_genre (buildMetadataPatch dune full))).
      pose proof (count_key_range (p_publishedYear (buildMetadataPatch dune full))).
      pose proof (count_key_range (p_averageRating (buildMetadataPatch dune full))).
      pose proof (count_key_range (p_ratingsCount (buildMetadataPatch dune full))).
      assert (count_key (p_isbn (buildMetadataPatch dune full)) = 1) as Hisbn.
      { unfold buildMetadataPatch. simpl. rewrite Hi, Fi. reflexivity. }
      unfold keys_length. lia. }
    change (Spec.isbn_points None (c_isbn partial)) with 0.
    change (Spec.isbn_points None (Some "0441013597")) with 0.
    change (Spec.match_points 40 20 "dune" "dune") with 40.
    change (Spec.match_points 25 10 "frank herbert" "frank herbert") with 25.
    lia.
Qed.

End ScoringFacts.

(** C6, as stated: +20 whenever one title contains the other.  The title
    [?] is normalised to the empty string, which the normalised title of
    Dune contains (as every string does); the score has the author part and
    one fillable field and nothing for the title. *)
Lemma empty_title_earns_no_containment_points :
  ExternalBooks.normalizeForCompare (Db.title Sample.question_mark) = ""
  /\ ExternalBooks.normalizeForCompare (ExternalBooks.c_title Sample.found_dune) = "dune"
  /\ Spec.Contains "dune" ""
  /\ JS.includes "dune" "" = true
  /\ ExternalBooks.keys_length
       (ExternalBooks.buildMetadataPatch Sample.question_mark Sample.found_dune) = 1
  /\ ExternalBooks.candidateScore Sample.question_mark Sample.found_dune = 25 + 6 * 1
  /\ ExternalBooks.candidateScore Sample.question_mark Sample.found_dune
     <> 20 + 25 + 6 * 1.
Proof.
  repeat split; try reflexivity.
  - by exists "dune", "".
  - vm_compute. discriminate.
Qed.

(** ** Fill-missing-only patches *)

Section PatchFacts.
Import Db ExternalBooks.

Lemma populated_text_spec o : JS.truthy_opt o = true <-> Spec.PopulatedText o.
Proof. apply truthy_opt_spec. Qed.

Lemma populated_year_spec o : truthy_num o = true <-> Spec.PopulatedYear o.
Proof.
  unfold Spec.PopulatedYear. destruct o as [y|]; simpl.
  - rewrite negb_true_iff, Z.eqb_neq. split.
    + intros H. by exists y.
    + intros (y' & [= <-] & H). exact H.
  - split; [discriminate|]. intros (y & H & _). discriminate.
Qed.

Lemma populated_number_spec {A} (o : option A) :
  JS.defined o = true <-> Spec.PopulatedNumber o.
Proof.
  unfold Spec.PopulatedNumber. destruct o; simpl; split; done.
Qed.

Lemma guard_text (e c : option string) :
  is_Some (if negb (JS.truthy_opt e) && JS.truthy_opt c then c else None) ->
  ~ Spec.PopulatedText e.
Proof.
  rewrite <- populated_text_spec.
  destruct (JS.truthy_opt e); simpl; [intros [x H]; discriminate | done].
Qed.

Lemma guard_year (e c : option Z) :
  is_Some (if negb (truthy_num e) && truthy_num c then c else None) ->
  ~ Spec.PopulatedYear e.
Proof.
  rewrite <- populated_year_spec.
  destruct (truthy_num e); simpl; [intros [x H]; discriminate | done].
Qed.

Lemma guard_number {A} (e c : option A) :
  is_Some (if negb (JS.defined e) && JS.defined c then c else None) ->
  ~ Spec.PopulatedNumber e.
Proof.
  rewrite <- populated_number_spec.
  destruct (JS.defined e); simpl; [intros [x H]; discriminate | done].
Qed.

Lemma guard_author (e c : string) :
  is_Some (if isUnknownAuthor e && JS.truthy c && negb (isUnknownAuthor c)
           then Some c else None) ->
  ~ Spec.PopulatedAuthor e.
Proof.
  unfold Spec.PopulatedAuthor.
  destruct (isUnknownAuthor e); simpl; [done | intros [x H]; discriminate].
Qed.

(** A key enters the patch only when the column of the record is not
    populated. *)
Lemma patch_keys_only_missing existing candidate :
  Spec.FillsOnlyMissing existing (buildMetadataPatch existing candidate).
Proof.
  unfold Spec.FillsOnlyMissing, buildMetadataPatch. simpl.
  repeat split;
    first [apply guard_author | apply guard_text | apply guard_year | apply guard_number].
Qed.

Lemma core_patch_keys_only_missing existing candidate :
  Spec.CoreFillsOnlyMissing existing
    (buildCoreMetadataPatchFromCandidate existing candidate).
Proof.
  unfold Spec.CoreFillsOnlyMissing, buildCoreMetadataPatchFromCandidate. simpl.
  repeat split;
    first [apply guard_author | apply guard_text | apply guard_number].
Qed.

Lemma keep_coalesce {A} (P : option A -> Prop) (x o0 ob : option A) :
  (is_Some x -> ~ P o0) -> (P o0 -> ob = o0) -> P o0 -> coalesce x ob = o0.
Proof.
  intros Hx Hb HP. destruct x as [v|]; simpl; [|by apply Hb].
  exfalso. apply Hx; [by eexists | exact HP].
Qed.

Lemma keep_default (x : option string) (a0 ab : string) :
  (is_Some x -> ~ Spec.PopulatedAuthor a0) ->
  (Spec.PopulatedAuthor a0 -> ab = a0) ->
  Spec.PopulatedAuthor a0 -> default ab x = a0.
Proof.
  intros Hx Hb HP. destruct x as [v|]; simpl; [|by apply Hb].
  exfalso. apply Hx; [by eexists | exact HP].
Qed.

Lemma enrich_data_keeps b0 p b :
  Spec.FillsOnlyMissing b0 p -> Spec.Keeps b0 b -> Spec.Keeps b0 (enrich_data p b).
Proof.
  intros (P1 & P2 & P3 & P4 & P5 & P6 & P7 & P8).
  intros (H1 & H2 & H3 & H4 & H5 & H6 & H7 & H8 & H9 & H10 & H11 & H12 & H13).
  unfold Spec.Keeps, enrich_data, patch_data. simpl.
  repeat split; try assumption; try reflexivity.
  - by apply keep_default.
  - by apply (keep_coalesce Spec.PopulatedText).
  - by apply (keep_coalesce Spec.PopulatedText).
  - by apply (keep_coalesce Spec.PopulatedText).
  - by apply (keep_coalesce Spec.PopulatedYear).
  - by apply (keep_coalesce Spec.PopulatedText).
  - by apply (keep_coalesce Spec.PopulatedNumber).
  - by apply (keep_coalesce Spec.PopulatedNumber).
Qed.

Lemma core_enrich_data_keeps b0 p b :
  Spec.CoreFillsOnlyMissing b0 p -> Spec.Keeps b0 b ->
  Spec.Keeps b0 (core_enrich_data p b).
Proof.
  intros (P1 & P2 & P3 & P4 & P5).
  intros (H1 & H2 & H3 & H4 & H5 & H6 & H7 & H8 & H9 & H10 & H11 & H12 & H13).
  unfold Spec.Keeps, core_enrich_data, core_patch_data. simpl.
  repeat split; try assumption; try reflexivity.
  - by apply keep_default.
  - by apply (keep_coalesce Spec.PopulatedText).
  - by apply (keep_coalesce Spec.PopulatedText).
  - by apply (keep_coalesce Spec.PopulatedNumber).
  - by apply (keep_coalesce Spec.PopulatedNumber).
Qed.

Lemma patch_data_idempotent p b : patch_data p (patch_data p b) = patch_data p b.
Proof.
  destruct p as [[?|] [?|] [?|] [?|] [?|] [?|] [?|] [?|]]; reflexivity.
Qed.

Lemma enrich_data_idempotent p b : enrich_data p (enrich_data p b) = enrich_data p b.
Proof.
  destruct p as [[?|] [?|] [?|] [?|] [?|] [?|] [?|] [?|]]; reflexivity.
Qed.

Opaque isUnknownAuthor.

(** Once a patch is applied, the same candidate has nothing left to fill. *)
Lemma patch_after_enrich existing candidate :
  buildMetadataPatch (enrich_data (buildMetadataPatch existing candidate) existing)
                     candidate
  = Spec.empty_patch.
Proof.
  unfold Spec.empty_patch, buildMetadataPatch, enrich_data, patch_data. simpl.
  f_equal.
  - destruct (isUnknownAuthor (author existing)) eqn:E1; simpl; [|by rewrite E1].
    destruct (JS.truthy (c_author candidate)) eqn:E2; simpl; [|by rewrite E1].
    destruct (isUnknownAuthor (c_author candidate)) eqn:E3; simpl.
    + by rewrite E1.
    + by rewrite E3.
  - destruct (JS.truthy_opt (coverUrl existing)) eqn:E1; simpl; [by rewrite E1|].
    destruct (JS.truthy_opt (c_coverUrl candidate)) eqn:E2; simpl.
    + destruct (c_coverUrl candidate); [simpl in *; by rewrite E2 | discriminate].
    + by rewrite E1.
  - destruct (JS.truthy_opt (description existing)) eqn:E1; simpl; [by rewrite E1|].
    destruct (JS.truthy_opt (c_description candidate)) eqn:E2; simpl.
    + destruct (c_description candidate); [simpl in *; by rewrite E2 | discriminate].
    + by rewrite E1.
  - destruct (JS.truthy_opt (genre existing)) eqn:E1; simpl; [by rewrite E1|].
    destruct (JS.truthy_opt (c_genre candidate)) eqn:E2; simpl.
    + destruct (c_genre candidate); [simpl in *; by rewrite E2 | discriminate].
    + by rewrite E1.
  - destruct (truthy_num (publishedYear existing)) eqn:E1; simpl; [by rewrite E1|].
    destruct (truthy_num (c_publishedYear candidate)) eqn:E2; simpl.
    + destruct (c_publishedYear candidate); [simpl in *; by rewrite E2 | discriminate].
    + by rewrite E1.
  - destruct (JS.truthy_opt (isbn existing)) eqn:E1; simpl; [by rewrite E1|].
    destruct (JS.truthy_opt (c_isbn candidate)) eqn:E2; simpl.
    + destruct (c_isbn candidate); [simpl in *; by rewrite E2 | discriminate].
    + by rewrite E1.
  - destruct (JS.defined (averageRating existing)) eqn:E1; simpl; [by rewrite E1|].
    destruct (JS.defined (c_averageRating candidate)) eqn:E2; simpl.
    + destruct (c_averageRating candidate); [reflexivity | discriminate].
    + by rewrite E1.
  - destruct (JS.defined (ratingsCount existing)) eqn:E1; simpl; [by rewrite E1|].
    destruct (JS.defined (c_ratingsCount candidate)) eqn:E2; simpl.
    + destruct (c_ratingsCount candidate); [reflexivity | discriminate].
    + by rewrite E1.
Qed.

Transparent isUnknownAuthor.

Variable makeGeneratedCoverDataUrl : string -> string -> string.
Variable searchGoogleBooks : string -> Z -> list ExternalBookCandidate.
Variable searchOpenLibrary : string -> Z -> list ExternalBookCandidate.

Lemma is_Some_coalesce {A} (a b : option A) :
  is_Some (coalesce a b) -> is_Some a \/ is_Some b.
Proof. destruct a; simpl; [left; by eexists | by right]. Qed.

(** The synthetic patch fills only what the record and the pending patch
    both lack, so merging it over a fill-missing-only patch gives one. *)
Lemma merged_core_patch_only_missing existing pending :
  Spec.CoreFillsOnlyMissing existing pending ->
  Spec.CoreFillsOnlyMissing existing
    (merge_core pending
       (buildSyntheticCorePatch makeGeneratedCoverDataUrl existing pending)).
Proof.
  intros (P1 & P2 & P3 & P4 & P5).
  unfold Spec.CoreFillsOnlyMissing, merge_core, buildSyntheticCorePatch. simpl.
  repeat split; intros H; apply is_Some_coalesce in H as [H|H]; try tauto.
  - unfold Spec.PopulatedAuthor.
    destruct (cp_author pending) as [a|]; [apply P1; by eexists|].
    simpl in H. destruct (isUnknownAuthor (author existing)); [done|].
    simpl in H. destruct H; discriminate.
  - destruct (cp_coverUrl pending) as [a|]; [apply P2; by eexists|].
    rewrite <- populated_text_spec. simpl in H. destruct (JS.truthy_opt (coverUrl existing)); [|done].
    destruct H; discriminate.
  - destruct (cp_genre pending) as [a|]; [apply P3; by eexists|].
    rewrite <- populated_text_spec. simpl in H. destruct (JS.truthy_opt (genre existing)); [|done].
    destruct H; discriminate.
  - rewrite <- populated_number_spec.
    destruct (JS.defined (averageRating existing)); [|done].
    rewrite orb_true_r in H. destruct H; discriminate.
  - rewrite <- populated_number_spec.
    destruct (JS.defined (ratingsCount existing)); [|done].
    rewrite orb_true_r in H. destruct H; discriminate.
Qed.

Lemma empty_core_patch_only_missing existing :
  Spec.CoreFillsOnlyMissing existing empty_core_patch.
Proof.
  unfold Spec.CoreFillsOnlyMissing, empty_core_patch. simpl.
  repeat split; intros [x H]; discriminate.
Qed.

Lemma keeps_refl b : Spec.Keeps b b.
Proof. unfold Spec.Keeps. tauto. Qed.

Lemma store_keeps_refl s : Spec.StoreKeeps s s.
Proof.
  unfold Spec.StoreKeeps. repeat split; try reflexivity.
  intros k b0 H. exists b0. split; [exact H | apply keeps_refl].
Qed.

Lemma update_book_ok k new_isbn data s b' s' :
  update_book k new_isbn data s = Ok (b', s') ->
  exists b, books s !! k = Some b /\ s' = set_books s (<[k := data b]> (books s)).
Proof.
  unfold update_book, book_update.
  destruct new_isbn as [i|]; [destruct (isbn_taken s k i); [discriminate|]|];
    destruct (books s !! k) as [b|]; try discriminate;
    intros [= <- <-]; by exists b.
Qed.

Lemma store_keeps_update s0 s k b0 b data :
  Spec.StoreKeeps s0 s -> books s0 !! k = Some b0 -> books s !! k = Some b ->
  (forall x, Spec.Keeps b0 x -> Spec.Keeps b0 (data x)) ->
  Spec.StoreKeeps s0 (set_books s (<[k := data b]> (books s))).
Proof.
  intros (Hb & Hu & Hl & Hr) H0 Hk Hdata.
  unfold Spec.StoreKeeps. simpl. repeat split; try assumption.
  intros k' b0' H0'. destruct (decide (k = k')) as [<-|Hne].
  - rewrite lookup_insert_eq. eexists. split; [reflexivity|].
    destruct (Hb k b0 H0) as (x & Hx & Kx).
    assert (b0' = b0) as -> by congruence.
    assert (x = b) as -> by congruence.
    by apply Hdata.
  - rewrite lookup_insert_ne by done. by apply Hb.
Qed.

Lemma sweep_keeps (row : Book -> Store -> Net (RowOutcome * Store)) :
  (forall book s0 s log,
     books s0 !! id book = Some book -> Spec.StoreKeeps s0 s ->
     Spec.StoreKeeps s0 (row book s log).1.2) ->
  forall rows s0 s report log,
    Forall (fun r => books s0 !! id r = Some r) rows ->
    Spec.StoreKeeps s0 s ->
    Spec.StoreKeeps s0 (sweep row rows s report log).1.2.
Proof.
  intros Hrow. induction rows as [|book rest IH]; intros s0 s report log Hrows Hs.
  - exact Hs.
  - apply Forall_cons in Hrows as [Hbook Hrest].
    simpl. unfold mbind, net_bind.
    pose proof (Hrow book s0 s log Hbook Hs) as Hstep.
    destruct (row book s log) as [[o s'] log']. simpl in Hstep.
    by apply IH.
Qed.

Lemma enrich_library_row_keeps provider onlyMissing book s0 s log :
  books s0 !! id book = Some book -> Spec.StoreKeeps s0 s ->
  Spec.StoreKeeps s0
    (enrich_library_row searchGoogleBooks searchOpenLibrary provider onlyMissing
       book s log).1.2.
Proof.
  intros Hbook Hs. unfold enrich_library_row.
  destruct (onlyMissing && negb (needsMetadataEnrichment book)); [exact Hs|].
  unfold mbind, net_bind.
  destruct (findBestCandidateForBook searchGoogleBooks searchOpenLibrary book provider log)
    as [[c|] log']; [|exact Hs].
  destruct (keys_length (buildMetadataPatch book c) =? 0); [exact Hs|].
  destruct (update_book _ _ _ s) as [[b' s']|e] eqn:E; [|exact Hs].
  simpl. apply update_book_ok in E as (b & Hb & ->).
  eapply store_keeps_update; eauto. intros x. apply enrich_data_keeps.
  apply patch_keys_only_missing.
Qed.

Lemma enrich_core_row_keeps provider book s0 s log :
  books s0 !! id book = Some book -> Spec.StoreKeeps s0 s ->
  Spec.StoreKeeps s0
    (enrich_core_row makeGeneratedCoverDataUrl searchGoogleBooks searchOpenLibrary
       provider book s log).1.2.
Proof.
  intros Hbook Hs. unfold enrich_core_row.
  destruct (negb (hasMissingCoreMetadata book)); [exact Hs|].
  unfold mbind, net_bind.
  destruct (findBestCandidateForBook searchGoogleBooks searchOpenLibrary book provider log)
    as [candidate log'].
  destruct (core_keys_length _ =? 0); [exact Hs|].
  destruct (update_book _ _ _ s) as [[b' s']|e] eqn:E; [|exact Hs].
  simpl. apply update_book_ok in E as (b & Hb & ->).
  eapply store_keeps_update; eauto. intros x. apply core_enrich_data_keeps.
  apply merged_core_patch_only_missing.
  destruct candidate as [c|];
    [apply core_patch_keys_only_missing | apply empty_core_patch_only_missing].
Qed.

(** C3.  An enrichment patch holds a key only for a column that is not
    populated in the record (null, the empty string or the year 0; for the
    author: one of the placeholder names), so the update leaves every
    populated column as it was; applying a patch twice is the same as
    applying it once, and after the update the same candidate yields the
    empty patch; every enrichment update sets the synthetic flag, the
    import update leaves it as it is, and through a whole sweep (either
    one) each row keeps its populated columns and its flag once set. *)
Theorem enrichment_patch_monotone_idempotent provider onlyMissing existing candidate :
  let p := buildMetadataPatch existing candidate in
  Spec.FillsOnlyMissing existing p
  /\ Spec.Keeps existing (enrich_data p existing)
  /\ aiMetadata (enrich_data p existing) = true
  /\ (forall q b, enrich_data q (enrich_data q b) = enrich_data q b)
  /\ (forall q b, patch_data q (patch_data q b) = patch_data q b)
  /\ buildMetadataPatch (enrich_data p existing) candidate = Spec.empty_patch
  /\ (forall q b, aiMetadata (patch_data q b) = aiMetadata b)
  /\ (forall q b, aiMetadata (core_enrich_data q b) = true)
  /\ (forall rows s log,
        Forall (fun r => books s !! id r = Some r) rows ->
        Spec.StoreKeeps s
          (enrichLibraryMetadata searchGoogleBooks searchOpenLibrary provider
             onlyMissing rows s log).1.2)
  /\ (forall rows s log,
        Forall (fun r => books s !! id r = Some r) rows ->
        Spec.StoreKeeps s
          (enrichMissingCoreMetadata makeGeneratedCoverDataUrl searchGoogleBooks
             searchOpenLibrary provider rows s log).1.2).
Proof.
  intros p. subst p.
  split; [apply patch_keys_only_missing|].
  split; [apply enrich_data_keeps; [apply patch_keys_only_missing | apply keeps_refl]|].
  split; [reflexivity|].
  split; [apply enrich_data_idempotent|].
  split; [apply patch_data_idempotent|].
  split; [apply patch_after_enrich|].
  split; [reflexivity|].
  split; [reflexivity|].
  split.
  - intros rows s log Hrows. unfold enrichLibraryMetadata.
    apply sweep_keeps; [|exact Hrows|apply store_keeps_refl].
    intros. by apply enrich_library_row_keeps.
  - intros rows s log Hrows. unfold enrichMissingCoreMetadata.
    apply sweep_keeps; [|exact Hrows|apply store_keeps_refl].
    intros. by apply enrich_core_row_keeps.
Qed.

End PatchFacts.

(** ** Candidate search *)

Section SearchFacts.
Import Db ExternalBooks.

Variable searchGoogleBooks : string -> Z -> list ExternalBookCandidate.
Variable searchOpenLibrary : string -> Z -> list ExternalBookCandidate.

Lemma queryByProvider_calls query limit provider :
  calls (queryByProvider searchGoogleBooks searchOpenLibrary query limit provider)
  = match provider with
    | openlibrary => [SearchOpenLibrary query limit]
    | google => [SearchGoogle query limit]
    | auto =>
        match searchGoogleBooks query limit with
        | [] => [SearchGoogle query limit; SearchOpenLibrary query limit]
        | _ :: _ => [SearchGoogle query limit]
        end
    end.
Proof.
  destruct provider; try reflexivity.
  unfold queryByProvider. net_run.
  destruct (searchGoogleBooks query limit); reflexivity.
Qed.

Lemma queryByProvider_result query limit provider :
  result (queryByProvider searchGoogleBooks searchOpenLibrary query limit provider)
  = dedupeCandidates
      match provider with
      | openlibrary => searchOpenLibrary query limit
      | google => searchGoogleBooks query limit
      | auto =>
          match searchGoogleBooks query limit with
          | [] => searchOpenLibrary query limit
          | found => found
          end
      end.
Proof.
  destruct provider; try reflexivity.
  unfold queryByProvider. net_run.
  destruct (searchGoogleBooks query limit); reflexivity.
Qed.

Lemma queryByProvider_run query limit provider log :
  queryByProvider searchGoogleBooks searchOpenLibrary query limit provider log
  = (result (queryByProvider searchGoogleBooks searchOpenLibrary query limit provider),
     log ++ calls (queryByProvider searchGoogleBooks searchOpenLibrary query limit provider)).
Proof.
  destruct provider; try reflexivity.
  unfold queryByProvider. net_run.
  destruct (searchGoogleBooks query limit); simpl; [|reflexivity].
  by rewrite <- app_assoc.
Qed.

(** The running best is the first candidate with the highest score. *)
Lemma consider_first_best book : forall seen best pre,
  match best with
  | Some (c, s) => Spec.FirstBest book pre c s
  | None => pre = []
  end ->
  match fold_left (consider book) seen best with
  | Some (c, s) => Spec.FirstBest book (pre ++ seen) c s
  | None => pre ++ seen = []
  end.
Proof.
  induction seen as [|x seen IH]; intros best pre Hbest; simpl.
  - rewrite app_nil_r. exact Hbest.
  - replace (pre ++ x :: seen) with ((pre ++ [x]) ++ seen) by (by rewrite <- app_assoc).
    apply IH. unfold consider.
    destruct best as [[c s]|].
    + destruct Hbest as (Hs & before & after & -> & Hb & Ha).
      destruct (s <? candidateScore book x) eqn:E.
      * apply Z.ltb_lt in E. split; [reflexivity|].
        exists (before ++ c :: after), []. split; [done|]. split; [|constructor].
        apply Forall_app. split.
        -- eapply Forall_impl; [exact Hb|]. simpl. lia.
        -- constructor; [lia|]. eapply Forall_impl; [exact Ha|]. simpl. lia.
      * apply Z.ltb_ge in E. split; [exact Hs|].
        exists before, (after ++ [x]). split; [by rewrite <- app_assoc|].
        split; [exact Hb|]. apply Forall_app. split; [exact Ha|].
        constructor; [lia | constructor].
    + subst pre. split; [reflexivity|].
      exists [], []. split; [done|]. split; constructor.
Qed.

Lemma best_of_first_best book seen :
  match Spec.best_of book seen with
  | Some (c, s) => Spec.FirstBest book seen c s
  | None => seen = []
  end.
Proof. apply (consider_first_best book seen None []). reflexivity. Qed.

Lemma seen_after_cons results q rest m :
  Spec.seen_after results (q :: rest) (S m)
  = results q ++ Spec.seen_after results rest m.
Proof. reflexivity. Qed.

Lemma attempt_loop_spec book provider : forall attempts best log,
  let results q :=
    result (queryByProvider searchGoogleBooks searchOpenLibrary q 10 provider) in
  let qcalls q :=
    calls (queryByProvider searchGoogleBooks searchOpenLibrary q 10 provider) in
  let B m := fold_left (consider book) (Spec.seen_after results attempts m) best in
  exists n,
    (n <= length attempts)%nat
    /\ attempt_loop searchGoogleBooks searchOpenLibrary book provider attempts best log
       = (Spec.accepts (B n), log ++ concat (qcalls <$> take n attempts))
    /\ (forall m, (1 <= m < n)%nat -> Spec.stops (B m) = false)
    /\ ((1 <= n)%nat /\ Spec.stops (B n) = true
        \/ n = length attempts /\ (attempts <> [] -> Spec.stops (B n) = false)).
Proof.
  induction attempts as [|q rest IH]; intros best log results qcalls B.
  - exists 0%nat. subst B. simpl. rewrite app_nil_r.
    split; [lia|]. split; [reflexivity|]. split; [intros m; lia|].
    right. done.
  - simpl attempt_loop. unfold mbind at 1, net_bind.
    rewrite queryByProvider_run. fold (results q) (qcalls q).
    set (best' := fold_left (consider book) (results q) best).
    destruct (Spec.stops best') eqn:Estop.
    + exists 1%nat.
      assert (B 1%nat = best') as HB1.
      { subst B best'. cbv beta. rewrite seen_after_cons.
        unfold Spec.seen_after. simpl. by rewrite app_nil_r. }
      rewrite HB1. simpl take. simpl concat. rewrite app_nil_r.
      repeat split; try (simpl; lia).
      * destruct best' as [[b s]|]; [|discriminate]. simpl in Estop. rewrite Estop.
        simpl. assert ((18 <=? s) = true) as -> by lia. reflexivity.
      * left. split; [lia | exact Estop].
    + destruct (IH best' (log ++ qcalls q)) as (n & Hn & Hrun & Hearly & Hend).
      fold results qcalls in Hrun, Hearly, Hend.
      assert (forall m, B (S m) = fold_left (consider book)
                                     (Spec.seen_after results rest m) best') as HB.
      { intros m. subst B best'. cbv beta. rewrite seen_after_cons.
        by rewrite fold_left_app. }
      exists (S n). split; [simpl; lia|]. split; [|split].
      * rewrite HB. simpl take. rewrite fmap_cons. simpl concat.
        rewrite app_assoc. rewrite <- Hrun.
        clear -Estop. destruct best' as [[b s]|]; [|reflexivity].
        simpl in Estop. by rewrite Estop.
      * intros m Hm. destruct m as [|m]; [lia|]. rewrite HB.
        destruct m as [|m].
        -- unfold Spec.seen_after. simpl. exact Estop.
        -- apply Hearly. lia.
      * rewrite HB. destruct Hend as [[H1 H2]|[H1 H2]].
        -- left. split; [lia | exact H2].
        -- right. split; [simpl; by rewrite H1|]. intros _.
           destruct rest as [|q' rest'].
           ++ subst n. unfold Spec.seen_after. simpl. exact Estop.
           ++ apply H2. done.
Qed.

Lemma attempts_for_shape book :
  attempts_for book
  = match isbn book with
    | Some i =>
        if JS.truthy i
        then ["isbn:" +:+ i; title book +:+ " " +:+ author book; title book]
        else [title book +:+ " " +:+ author book; title book]
    | None => [title book +:+ " " +:+ author book; title book]
    end.
Proof.
  unfold attempts_for. destruct (isbn book) as [i|]; [destruct (JS.truthy i)|];
    reflexivity.
Qed.

(** C7 (amended).  The search builds two or three queries in the order
    [isbn:<isbn>] (when the record has an ISBN), [<title> <author>],
    [<title>]; in an attempt with provider [auto] Google Books (Source B) is
    asked first and Open Library (Source A) only after Google Books
    returned nothing, and a forced provider is asked alone, so Source A is
    never asked before Source B; the attempts are made in order up to the
    first one after which the best candidate seen so far scores 25 or more,
    and that candidate is then the answer; when no attempt ends that way all
    are made and the best candidate is the answer when it scores 18 or
    more, and there is no match otherwise; the best candidate is the first
    seen among those with the highest score. *)
Theorem findBestCandidate_search_order book provider :
  let find := findBestCandidateForBook searchGoogleBooks searchOpenLibrary book provider in
  let attempts := attempts_for book in
  let results q :=
    result (queryByProvider searchGoogleBooks searchOpenLibrary q 10 provider) in
  let qcalls q :=
    calls (queryByProvider searchGoogleBooks searchOpenLibrary q 10 provider) in
  let best m := Spec.best_of book (Spec.seen_after results attempts m) in
  attempts
  = (match isbn book with
     | Some i => if JS.truthy i then ["isbn:" +:+ i] else []
     | None => []
     end) ++ [title book +:+ " " +:+ author book; title book]
  /\ (forall q,
        qcalls q
        = match provider with
          | openlibrary => [SearchOpenLibrary q 10]
          | google => [SearchGoogle q 10]
          | auto =>
              match searchGoogleBooks q 10 with
              | [] => [SearchGoogle q 10; SearchOpenLibrary q 10]
              | _ :: _ => [SearchGoogle q 10]
              end
          end)
  /\ (forall q before after,
        qcalls q = before ++ SearchOpenLibrary q 10 :: after ->
        SearchGoogle q 10 ∉ after)
  /\ (exists n,
        (1 <= n <= length attempts)%nat
        /\ calls find = concat (qcalls <$> take n attempts)
        /\ result find = Spec.accepts (best n)
        /\ (forall m, (1 <= m < n)%nat -> Spec.stops (best m) = false)
        /\ (Spec.stops (best n) = true
            \/ n = length attempts /\ Spec.stops (best n) = false))
  /\ (forall m,
        match best m with
        | Some (c, s) => Spec.FirstBest book (Spec.seen_after results attempts m) c s
        | None => Spec.seen_after results attempts m = []
        end).
Proof.
  intros find attempts results qcalls best.
  split; [reflexivity|].
  split; [intros q; apply queryByProvider_calls|].
  split.
  { intros q before after. subst qcalls. cbv beta. rewrite queryByProvider_calls.
    destruct provider; [| |destruct (searchGoogleBooks q 10)];
      destruct before as [|x [|y [|z before]]]; simpl; intros [= ]; subst;
      try (by destruct before); set_solver. }
  split; [|intros m; apply best_of_first_best].
  destruct (attempt_loop_spec book provider attempts None []) as (n & Hn & Hrun & Hearly & Hend).
  fold results qcalls in Hrun, Hearly, Hend.
  assert (attempts <> []) as Hne.
  { subst attempts. rewrite attempts_for_shape.
    destruct (isbn book) as [i|]; [destruct (JS.truthy i)|]; discriminate. }
  exists n.
  assert (1 <= n)%nat as H1.
  { destruct Hend as [[? _]|[-> _]]; [lia|]. destruct attempts; [done | simpl; lia]. }
  split; [lia|].
  subst find. unfold calls, result, findBestCandidateForBook.
  fold attempts. rewrite Hrun. simpl.
  repeat split; try done.
  destruct Hend as [[_ H]|[H2 H3]]; [by left | right; split; [done | by apply H3]].
Qed.

End SearchFacts.

(** C7, as stated: in every attempt Source B is asked before Source A.  A
    sweep run with the provider forced to Open Library asks Open Library
    (Source A) and never Google Books (Source B). *)
Lemma forced_provider_asks_one_source :
  calls (ExternalBooks.findBestCandidateForBook Sample.both_know_A Sample.both_know_A
           (Sample.shelf_book "A" true false) ExternalBooks.openlibrary)
  = [SearchOpenLibrary "A Author" 10]
  /\ forall q limit,
       SearchGoogle q limit
       ∉ calls (ExternalBooks.findBestCandidateForBook Sample.both_know_A
                  Sample.both_know_A (Sample.shelf_book "A" true false)
                  ExternalBooks.openlibrary).
Proof.
  assert (calls (ExternalBooks.findBestCandidateForBook Sample.both_know_A
                   Sample.both_know_A (Sample.shelf_book "A" true false)
                   ExternalBooks.openlibrary)
          = [SearchOpenLibrary "A Author" 10]) as -> by (vm_compute; reflexivity).
  split; [reflexivity|]. intros q limit H.
  apply list_elem_of_singleton in H. discriminate.
Qed.

(** ** Lending *)

(** Running a transaction body. *)
Ltac tx_run := unfold mbind, Db.tx_bind, mret, Db.tx_ret, Db.throw.

Section LendingFacts.
Import Db Lending.

Variable dueEstimate : Book -> ReadingTime.DueDateEstimate.

Lemma active_loans_app bookId bs us ls rs l :
  active_loans bookId {| books := bs; users := us; loans := ls ++ [l]; requests := rs |}
  = active_loans bookId {| books := bs; users := us; loans := ls; requests := rs |}
    ++ (if bool_decide (is_active l = true /\ loan_bookId l = bookId) then [l] else []).
Proof.
  unfold active_loans. simpl. rewrite filter_app. f_equal.
  rewrite filter_cons, filter_nil. case_bool_decide; case_decide; tauto.
Qed.

Lemma active_loans_books bookId bs bs' us ls rs :
  active_loans bookId {| books := bs; users := us; loans := ls; requests := rs |}
  = active_loans bookId {| books := bs'; users := us; loans := ls; requests := rs |}.
Proof. reflexivity. Qed.

(** The claim of the checkout, case by case. *)
Lemma checkout_tx_cases now v payload due s :
  transaction (checkout_tx now v payload due) s
  = match books s !! bookId payload with
    | Some book =>
        if available book then
          if bool_decide (viewer_id v ∈ users s) then
            let l := {| loan_id := length (loans s); loan_bookId := bookId payload;
                        loan_userId := viewer_id v; checkedOutAt := now;
                        dueAt := due; returnedAt := None |} in
            (Ok l, {| books := <[bookId payload := set_available false book]> (books s);
                      users := users s; loans := loans s ++ [l];
                      requests := requests s |})
          else (Err StorageError, s)
        else (Err Conflict, s)
    | None => (Err Conflict, s)
    end.
Proof.
  unfold transaction, checkout_tx. tx_run. unfold book_updateMany, loan_create.
  destruct (books s !! bookId payload) as [book|] eqn:E; [|reflexivity].
  destruct (available book); [|reflexivity]. simpl.
  rewrite lookup_insert_eq. simpl.
  destruct (bool_decide (viewer_id v ∈ users s)); reflexivity.
Qed.

Lemma checkout_cases now viewer payload s :
  checkout dueEstimate now viewer payload s
  = match viewer with
    | None => (Err Unauthorized, s)
    | Some v =>
        if JS.defined (payload_dueAt payload) && negb (is_admin v) then (Err Forbidden, s)
        else match books s !! bookId payload with
             | None => (Err NotFound, s)
             | Some book =>
                 transaction
                   (checkout_tx now v payload (checkout_dueAt dueEstimate payload book)) s
             end
    end.
Proof.
  unfold checkout, checkout_lookup.
  destruct viewer as [v|]; [|reflexivity].
  destruct (JS.defined (payload_dueAt payload) && negb (is_admin v)); [reflexivity|].
  destruct (books s !! bookId payload); reflexivity.
Qed.

Lemma admissible_guard s b v payload :
  Spec.Admissible s b v payload ->
  JS.defined (payload_dueAt payload) && negb (is_admin v) = false.
Proof.
  intros (_ & [-> | ->] & _); [reflexivity | apply andb_false_r].
Qed.

Lemma how_many_insert f ps : forall i p p',
  ps !! i = Some p ->
  (Spec.how_many f (<[i := p']> ps) + (if f p then 1 else 0)
   = Spec.how_many f ps + (if f p' then 1 else 0))%nat.
Proof.
  unfold Spec.how_many.
  induction ps as [|x ps IH]; intros i p p' Hi; [discriminate|].
  destruct i as [|i]; simpl in *.
  - injection Hi as ->. destruct (f p), (f p'); simpl; lia.
  - specialize (IH i p p' Hi). destruct (f x); simpl; lia.
Qed.

Lemma how_many_answered_all ps :
  Forall (fun p => answered p = true) ps -> Spec.how_many answered ps = length ps.
Proof.
  unfold Spec.how_many. induction 1 as [|p ps Hp _ IH]; simpl; [done|].
  rewrite Hp. simpl. by rewrite IH.
Qed.

Lemma how_many_outcomes s b ps :
  Forall (Spec.phase_ok s b) ps -> Forall (fun p => answered p = true) ps ->
  (Spec.how_many succeeded ps + Spec.how_many conflicted ps = length ps)%nat.
Proof.
  unfold Spec.how_many. induction 1 as [|p ps Hp _ IH]; intros Hall; simpl; [done|].
  apply Forall_cons in Hall as [Ha Hall]. specialize (IH Hall).
  destruct p as [viewer payload|v payload due|[l|e]]; try discriminate; simpl.
  - lia.
  - simpl in Hp. subst e. simpl. lia.
Qed.

Lemma admissible_same_users s s' b v payload :
  users s' = users s -> Spec.Admissible s b v payload -> Spec.Admissible s' b v payload.
Proof. unfold Spec.Admissible. intros ->. tauto. Qed.

Lemma phase_ok_same_users s s' b p :
  users s' = users s -> Spec.phase_ok s b p -> Spec.phase_ok s' b p.
Proof.
  intros Hu. destruct p as [[v|] payload|v payload due|[l|e]]; simpl; try done;
    by apply admissible_same_users.
Qed.

Lemma racing_intro b s ps book :
  Forall (Spec.phase_ok s b) ps -> books s !! b = Some book ->
  (if available book
   then Spec.how_many answered ps = 0%nat /\ active_loans b s = []
   else Spec.how_many succeeded ps = 1%nat /\ length (active_loans b s) = 1%nat) ->
  Spec.Racing b (s, ps).
Proof. intros H1 H2 H3. split; [exact H1|]. exists book. by split. Qed.

Lemma none_answered_none_succeeded ps :
  Spec.how_many answered ps = 0%nat -> Spec.how_many succeeded ps = 0%nat.
Proof.
  unfold Spec.how_many. induction ps as [|x ps IH]; [done|]. simpl.
  destruct x as [| |[l|e]]; simpl; try discriminate; exact IH.
Qed.

(** One step of one request keeps the invariant of the race. *)
Lemma step_racing now b i cfg :
  Spec.Racing b cfg -> Spec.Racing b (step dueEstimate now i cfg).
Proof.
  destruct cfg as [s ps]. intros (Hok & book & Hbook & Hstate). simpl in *.
  unfold step. destruct (ps !! i) as [p|] eqn:Hi; [|by eapply racing_intro].
  pose proof (proj1 (Forall_lookup _ _) Hok i p Hi) as Hp.
  destruct p as [[v|] payload|v payload due|r]; simpl in Hp; try done.
  - (* the reads before the transaction *)
    unfold advance, checkout_lookup.
    rewrite (admissible_guard _ _ _ _ Hp).
    destruct Hp as (Hb & Hguard & Hu). rewrite Hb, Hbook.
    apply racing_intro with (book := book); [|exact Hbook|].
    + apply Forall_insert; [exact Hok|]. simpl. by repeat split.
    + pose proof (how_many_insert answered ps i _
                    (Claiming v payload (checkout_dueAt dueEstimate payload book)) Hi) as Ha.
      pose proof (how_many_insert succeeded ps i _
                    (Claiming v payload (checkout_dueAt dueEstimate payload book)) Hi) as Hs.
      simpl in Ha, Hs.
      revert Hstate. destruct (available book); intros [H1 H2]; (split; [lia | exact H2]).
  - (* the transaction *)
    unfold advance. rewrite checkout_tx_cases.
    destruct Hp as (Hb & Hguard & Hu). rewrite Hb, Hbook.
    revert Hstate. destruct (available book) eqn:Hav; intros [H1 H2].
    + rewrite bool_decide_eq_true_2 by exact Hu. cbv zeta.
      apply racing_intro with (book := set_available false book).
      * apply Forall_insert; [|done].
        eapply Forall_impl; [exact Hok|]. intros p. by apply phase_ok_same_users.
      * simpl. by rewrite lookup_insert_eq.
      * simpl. split.
        -- pose proof (how_many_insert succeeded ps i _
                         (Answered (Ok {| loan_id := length (loans s);
                                          loan_bookId := b; loan_userId := viewer_id v;
                                          checkedOutAt := now; dueAt := due;
                                          returnedAt := None |})) Hi) as Hs.
           simpl in Hs. apply none_answered_none_succeeded in H1. lia.
        -- rewrite active_loans_app.
           rewrite (active_loans_books b _ (books s)).
           change (active_loans b {| books := books s; users := users s;
                                     loans := loans s; requests := requests s |})
             with (active_loans b s).
           rewrite H2. simpl. rewrite bool_decide_eq_true_2 by done. reflexivity.
    + apply racing_intro with (book := book); [|exact Hbook|].
      * apply Forall_insert; [exact Hok | done].
      * rewrite Hav.
        pose proof (how_many_insert succeeded ps i _ (Answered (Err Conflict)) Hi) as Hs.
        simpl in Hs. split; [lia | exact H2].
  - (* already answered *)
    unfold advance. rewrite list_insert_id by exact Hi.
    by eapply racing_intro.
Qed.

Lemma run_racing now b schedule : forall cfg,
  Spec.Racing b cfg -> Spec.Racing b (run dueEstimate now schedule cfg).
Proof.
  induction schedule as [|i schedule IH]; intros cfg H; [exact H|].
  simpl. apply IH. by apply step_racing.
Qed.

Lemma advance_progress now p s :
  (Nat.min 2 (S (Spec.progress p)) <= Spec.progress (advance dueEstimate now p s).1)%nat.
Proof.
  destruct p as [viewer payload|v payload due|r]; simpl.
  - destruct (checkout_lookup s viewer payload) as [[v book]|e]; simpl; lia.
  - destruct (transaction _ s) as [r s']. simpl. lia.
  - lia.
Qed.

Lemma step_progress now i j cfg p :
  cfg.2 !! j = Some p ->
  exists p', (step dueEstimate now i cfg).2 !! j = Some p'
             /\ (Nat.min 2 (Spec.progress p + (if decide (i = j) then 1 else 0))
                 <= Spec.progress p')%nat.
Proof.
  destruct cfg as [s ps]. cbn [fst snd]. intros Hj. unfold step.
  destruct (ps !! i) as [q|] eqn:Hi.
  - pose proof (advance_progress now q s) as Hq.
    destruct (advance dueEstimate now q s) as [q' s']. cbn [fst snd] in *.
    destruct (decide (i = j)) as [->|Hne].
    + rewrite list_lookup_insert_eq by (by eapply lookup_lt_Some).
      exists q'. split; [done|]. assert (q = p) as -> by congruence. lia.
    + rewrite list_lookup_insert_ne by done. exists p. split; [done | lia].
  - cbn [fst snd]. exists p. split; [done|].
    destruct (decide (i = j)) as [->|]; [congruence | lia].
Qed.

Lemma run_progress now schedule : forall cfg j p,
  cfg.2 !! j = Some p ->
  exists p', (run dueEstimate now schedule cfg).2 !! j = Some p'
             /\ (Nat.min 2 (Spec.progress p + Spec.turns schedule j)
                 <= Spec.progress p')%nat.
Proof.
  induction schedule as [|i schedule IH]; intros cfg j p Hj.
  - exists p. split; [done|]. unfold Spec.turns. cbn [count_occ]. lia.
  - destruct (step_progress now i j cfg p Hj) as (p1 & H1 & Hp1).
    destruct (IH _ j p1 H1) as (p2 & H2 & Hp2).
    exists p2. split; [exact H2|].
    unfold Spec.turns in *. cbn [count_occ].
    destruct (Nat.eq_dec i j) as [->|Hne].
    + rewrite decide_True in Hp1 by done. lia.
    + rewrite decide_False in Hp1 by done. lia.
Qed.

Lemma run_length now schedule : forall cfg,
  length (run dueEstimate now schedule cfg).2 = length cfg.2.
Proof.
  induction schedule as [|i schedule IH]; intros cfg; [done|].
  simpl. rewrite IH. destruct cfg as [s ps]. unfold step.
  destruct (ps !! i) as [q|]; [|done].
  destruct (advance dueEstimate now q s). simpl. apply length_insert.
Qed.

(** A schedule that gives every request two steps answers them all. *)
Lemma run_completes now schedule cfg :
  (forall i, (i < length cfg.2)%nat -> (2 <= Spec.turns schedule i)%nat) ->
  Forall (fun p => answered p = true) (run dueEstimate now schedule cfg).2.
Proof.
  intros Hturns. apply Forall_lookup. intros j p' Hj.
  assert (j < length cfg.2)%nat as Hlt.
  { rewrite <- (run_length now schedule). by eapply lookup_lt_Some. }
  destruct (lookup_lt_is_Some_2 _ _ Hlt) as [p Hp].
  destruct (run_progress now schedule cfg j p Hp) as (p2 & H2 & Hp2).
  assert (p2 = p') as -> by congruence.
  specialize (Hturns j Hlt).
  destruct p'; cbn [Spec.progress] in Hp2; [lia | lia | done].
Qed.

Lemma arrivals_racing s0 b book attempts :
  books s0 !! b = Some book -> available book = true -> active_loans b s0 = [] ->
  Forall (fun a => Spec.Admissible s0 b a.1 a.2) attempts ->
  Spec.Racing b (s0, Spec.arrivals attempts).
Proof.
  intros Hbook Hav Hloans Hadm.
  apply racing_intro with (book := book); [|exact Hbook|].
  - unfold Spec.arrivals. apply Forall_fmap.
    eapply Forall_impl; [exact Hadm|]. by intros [v payload].
  - rewrite Hav. split; [|exact Hloans].
    unfold Spec.how_many, Spec.arrivals. clear.
    induction attempts as [|a attempts IH]; [done | exact IH].
Qed.

(** C1.  A direct checkout of an existing book claims it by a conditional
    update that turns [available] from true to false and matches only a row
    with [available = true]; when no row matches, the answer is Conflict and
    the store is as before; when the Loan cannot be created the claim is
    rolled back with it; on success the store differs by the claimed book
    and by one new active Loan.  So, when any number of admissible requests
    for one available book are served in any interleaving of their two
    steps (the reads, the transaction), once all are answered exactly one
    has succeeded and all others got Conflict, the book is not available
    and has exactly one active loan; and every schedule that gives each
    request its two steps answers them all. *)
Theorem checkout_claim_one_winner now s0 b book attempts schedule :
  books s0 !! b = Some book -> available book = true -> active_loans b s0 = [] ->
  attempts <> [] ->
  Forall (fun a => Spec.Admissible s0 b a.1 a.2) attempts ->
  (forall s v payload bk,
     books s !! bookId payload = Some bk ->
     JS.defined (payload_dueAt payload) && negb (is_admin v) = false ->
     checkout dueEstimate now (Some v) payload s
     = if available bk then
         if bool_decide (viewer_id v ∈ users s) then
           let l := {| loan_id := length (loans s); loan_bookId := bookId payload;
                       loan_userId := viewer_id v; checkedOutAt := now;
                       dueAt := checkout_dueAt dueEstimate payload bk;
                       returnedAt := None |} in
           (Ok l, {| books := <[bookId payload := set_available false bk]> (books s);
                     users := users s; loans := loans s ++ [l];
                     requests := requests s |})
         else (Err StorageError, s)
       else (Err Conflict, s))
  /\ (let final := run dueEstimate now schedule (s0, Spec.arrivals attempts) in
      length final.2 = length attempts
      /\ (Forall (fun p => answered p = true) final.2 ->
          Spec.how_many succeeded final.2 = 1%nat
          /\ Spec.how_many conflicted final.2 = (length attempts - 1)%nat
          /\ exists book',
               books final.1 !! b = Some book' /\ available book' = false
               /\ length (active_loans b final.1) = 1%nat))
  /\ ((forall i, (i < length attempts)%nat -> (2 <= Spec.turns schedule i)%nat) ->
      Forall (fun p => answered p = true)
             (run dueEstimate now schedule (s0, Spec.arrivals attempts)).2).
Proof.
  intros Hbook Hav Hloans Hne Hadm.
  split; [|split].
  - intros s v payload bk Hbk Hguard.
    rewrite checkout_cases, Hguard, Hbk, checkout_tx_cases, Hbk. reflexivity.
  - cbv zeta.
    pose proof (run_racing now b schedule _
                  (arrivals_racing s0 b book attempts Hbook Hav Hloans Hadm)) as Hrace.
    pose proof (run_length now schedule (s0, Spec.arrivals attempts)) as Hlen.
    simpl in Hlen. unfold Spec.arrivals in Hlen at 2. rewrite length_fmap in Hlen.
    split; [exact Hlen|]. intros Hall.
    destruct (run dueEstimate now schedule (s0, Spec.arrivals attempts)) as [s' ps'].
    simpl in *. destruct Hrace as (Hok & book' & Hbook' & Hstate). simpl in *.
    pose proof (how_many_answered_all ps' Hall) as Hans.
    pose proof (how_many_outcomes s' b ps' Hok Hall) as Hout.
    assert (length attempts <> 0)%nat as Hpos by (by destruct attempts).
    destruct (available book') eqn:Hav'.
    + destruct Hstate as [H0 _]. lia.
    + destruct Hstate as [H1 H2]. split; [exact H1|]. split; [lia|].
      exists book'. by repeat split.
  - intros Hturns. apply run_completes. simpl.
    unfold Spec.arrivals. by rewrite length_fmap.
Qed.

End LendingFacts.

(** ** Borrow requests and check-in *)

Section RequestFacts.
Import Db Lending.

Variable dueEstimate : Book -> ReadingTime.DueDateEstimate.

Lemma create_request_tx_cases now v b s :
  transaction (create_request_tx now v b) s
  = match books s !! b with
    | Some book =>
        if available book && negb (requestPending book) then
          if bool_decide (viewer_id v ∈ users s) then
            let r := {| req_id := length (requests s); req_userId := viewer_id v;
                        req_bookId := b; status := PENDING; reviewedById := None;
                        reviewedAt := None; memberSeenAt := Some now |} in
            (Ok r, {| books := <[b := set_requestPending true book]> (books s);
                      users := users s; loans := loans s;
                      requests := requests s ++ [r] |})
          else (Err StorageError, s)
        else (Err Conflict, s)
    | None => (Err Conflict, s)
    end.
Proof.
  unfold transaction, create_request_tx. tx_run. unfold book_updateMany, request_create.
  destruct (books s !! b) as [book|] eqn:E; [|reflexivity].
  destruct (available book && negb (requestPending book)); [|reflexivity]. simpl.
  rewrite lookup_insert_eq. simpl.
  destruct (bool_decide (viewer_id v ∈ users s)); reflexivity.
Qed.

Lemma approve_tx_cases now v requestId existing due s :
  transaction (approve_tx now v requestId existing due) s
  = match requests s !! requestId with
    | Some r =>
        if status_eqb (status r) PENDING then
          match books s !! req_bookId existing with
          | Some book =>
              if available book && requestPending book then
                if bool_decide (req_userId existing ∈ users s) then
                  let l := {| loan_id := length (loans s);
                              loan_bookId := req_bookId existing;
                              loan_userId := req_userId existing;
                              checkedOutAt := now; dueAt := Some due;
                              returnedAt := None |} in
                  (Ok (l, Some (review APPROVED now v r)),
                   {| books := <[req_bookId existing :=
                                   set_requestPending false (set_available false book)]>
                                 (books s);
                      users := users s; loans := loans s ++ [l];
                      requests := <[requestId := review APPROVED now v r]> (requests s) |})
                else (Err StorageError, s)
              else (Err Conflict, s)
          | None => (Err Conflict, s)
          end
        else (Err Conflict, s)
    | None => (Err Conflict, s)
    end.
Proof.
  unfold transaction, approve_tx. tx_run.
  unfold request_updateMany, book_updateMany, loan_create, request_findUnique.
  destruct (requests s !! requestId) as [r|] eqn:Er; [|reflexivity].
  destruct (status_eqb (status r) PENDING); [|reflexivity]. simpl.
  destruct (books s !! req_bookId existing) as [book|] eqn:Eb; [|reflexivity].
  destruct (available book && requestPending book); [|reflexivity]. simpl.
  rewrite lookup_insert_eq. simpl.
  destruct (bool_decide (req_userId existing ∈ users s)); [|reflexivity]. simpl.
  rewrite list_lookup_insert_eq by (by eapply lookup_lt_Some). reflexivity.
Qed.

Lemma decline_tx_cases now v requestId existing s :
  transaction (decline_tx now v requestId existing) s
  = match requests s !! requestId with
    | Some r =>
        if status_eqb (status r) PENDING then
          (Ok (Some (review DECLINED now v r)),
           {| books :=
                match books s !! req_bookId existing with
                | Some book =>
                    if available book && requestPending book
                    then <[req_bookId existing := set_requestPending false book]> (books s)
                    else books s
                | None => books s
                end;
              users := users s; loans := loans s;
              requests := <[requestId := review DECLINED now v r]> (requests s) |})
        else (Err Conflict, s)
    | None => (Err Conflict, s)
    end.
Proof.
  unfold transaction, decline_tx. tx_run.
  unfold request_updateMany, book_updateMany, request_findUnique.
  destruct (requests s !! requestId) as [r|] eqn:Er; [|reflexivity].
  destruct (status_eqb (status r) PENDING); [|reflexivity]. simpl.
  destruct (books s !! req_bookId existing) as [book|] eqn:Eb.
  - destruct (available book && requestPending book); simpl;
      rewrite list_lookup_insert_eq by (by eapply lookup_lt_Some); reflexivity.
  - simpl. rewrite list_lookup_insert_eq by (by eapply lookup_lt_Some). reflexivity.
Qed.

Lemma checkin_tx_cases now b l s :
  transaction (checkin_tx now b l) s
  = match books s !! b with
    | Some book =>
        match loans s !! loan_id l with
        | Some l0 =>
            (Ok (set_returnedAt (Some now) l0),
             {| books := <[b := set_available true book]> (books s);
                users := users s;
                loans := <[loan_id l := set_returnedAt (Some now) l0]> (loans s);
                requests := requests s |})
        | None => (Err StorageError, s)
        end
    | None => (Err StorageError, s)
    end.
Proof.
  unfold transaction, checkin_tx. tx_run. unfold book_update, loan_update.
  destruct (books s !! b) as [book|]; [|reflexivity]. simpl.
  destruct (loans s !! loan_id l); reflexivity.
Qed.

Lemma status_eqb_spec a b : status_eqb a b = true <-> a = b.
Proof. destruct a, b; simpl; split; congruence. Qed.

(** C10.  The claim of the direct checkout looks at [available] only: a book
    with a pending request ([available] and [requestPending] both true) is
    checked out by any admissible viewer and is then not available while
    the request is still pending; the check-in that follows makes the book
    available again and leaves [requestPending] and the requests as they
    were. *)
Theorem checkout_ignores_pending_request now now' v w payload s book :
  books s !! bookId payload = Some book ->
  Spec.REQUEST_PENDING book ->
  Spec.Admissible s (bookId payload) v payload ->
  active_loans (bookId payload) s = [] ->
  is_admin w = true \/ viewer_id w = viewer_id v ->
  exists loan s1 loan' s2,
    checkout dueEstimate now (Some v) payload s = (Ok loan, s1)
    /\ books s1 !! bookId payload = Some (set_available false book)
    /\ available (set_available false book) = false
    /\ requestPending (set_available false book) = true
    /\ requests s1 = requests s
    /\ checkin now' (Some w) (bookId payload) s1 = (Ok loan', s2)
    /\ books s2 !! bookId payload = Some (set_available true (set_available false book))
    /\ available (set_available true (set_available false book)) = true
    /\ requestPending (set_available true (set_available false book)) = true
    /\ requests s2 = requests s
    /\ loan' = set_returnedAt (Some now') loan.
Proof.
  intros Hbook [Hav Hpend] Hadm Hloans Hw.
  pose proof (admissible_guard _ _ _ _ Hadm) as Hguard.
  destruct Hadm as (_ & _ & Hu).
  set (loan := {| loan_id := length (loans s); loan_bookId := bookId payload;
                  loan_userId := viewer_id v; checkedOutAt := now;
                  dueAt := checkout_dueAt dueEstimate payload book;
                  returnedAt := None |}).
  set (s1 := {| books := <[bookId payload := set_available false book]> (books s);
                users := users s; loans := loans s ++ [loan];
                requests := requests s |}).
  exists loan, s1, (set_returnedAt (Some now') loan),
    {| books := <[bookId payload := set_available true (set_available false book)]>
                  (books s1);
       users := users s1;
       loans := <[loan_id loan := set_returnedAt (Some now') loan]> (loans s1);
       requests := requests s1 |}.
  assert (books s1 !! bookId payload = Some (set_available false book)) as Hb1
    by (subst s1; simpl; apply lookup_insert_eq).
  split.
  { rewrite checkout_cases, Hguard, Hbook, checkout_tx_cases, Hbook, Hav.
    by rewrite bool_decide_eq_true_2 by exact Hu. }
  split; [exact Hb1|]. split; [reflexivity|]. split; [exact Hpend|].
  split; [reflexivity|]. split.
  { unfold checkin, find_active_loan.
    assert (active_loans (bookId payload) s1 = [loan]) as ->.
    { subst s1. rewrite active_loans_app.
      rewrite (active_loans_books _ _ (books s)).
      change (active_loans (bookId payload)
                {| books := books s; users := users s; loans := loans s;
                   requests := requests s |})
        with (active_loans (bookId payload) s).
      rewrite Hloans. simpl. by rewrite bool_decide_eq_true_2. }
    change (head [loan]) with (Some loan). cbv iota beta.
    assert (negb (is_admin w) && negb (String.eqb (loan_userId loan) (viewer_id w)) = false)
      as ->.
    { destruct Hw as [-> | Hw]; [reflexivity|]. simpl. rewrite Hw.
      rewrite String.eqb_refl. apply andb_false_r. }
    rewrite checkin_tx_cases, Hb1.
    assert (loans s1 !! loan_id loan = Some loan) as ->.
    { subst s1 loan. simpl. rewrite lookup_app_r by lia.
      by rewrite Nat.sub_diag. }
    reflexivity. }
  split; [simpl; apply lookup_insert_eq|].
  split; [reflexivity|]. split; [exact Hpend|]. split; reflexivity.
Qed.

(** C2.  A borrow request on a book that is available with no request
    pending marks the book as pending and creates a PENDING request; on any
    other book it is refused with Conflict and creates nothing.  Approving
    the request sets it to APPROVED, turns the book to not available and not
    pending and creates an active Loan for the requester, all in one
    transaction; the transaction checks the status again, so that an
    approval of a request that is no longer PENDING (a second approval, or
    one decided in between) is refused with Conflict and changes nothing, as
    is one whose book is no longer available and pending.  Declining sets
    the request to DECLINED, clears [requestPending] and creates no Loan:
    the book is as before the request.  (The release is itself a claim on a
    book that is available and pending; any other book is left as it is.) *)
Theorem borrow_request_lifecycle now v admin b s book :
  books s !! b = Some book -> Spec.AVAILABLE book ->
  is_admin v = false -> viewer_id v ∈ users s -> is_admin admin = true ->
  exists req s1,
    create_request now (Some v) b s = (Ok req, s1)
    /\ status req = PENDING /\ req_id req = length (requests s)
    /\ req_userId req = viewer_id v /\ req_bookId req = b
    /\ requests s1 = requests s ++ [req] /\ loans s1 = loans s
    /\ books s1 = <[b := set_requestPending true book]> (books s)
    /\ Spec.REQUEST_PENDING (set_requestPending true book)
    /\ (forall s' v' bk,
          books s' !! b = Some bk -> ~ Spec.AVAILABLE bk -> is_admin v' = false ->
          create_request now (Some v') b s' = (Err Conflict, s'))
    /\ (exists loan r s2,
          approve dueEstimate now (Some admin) (req_id req) s1 = (Ok (loan, Some r), s2)
          /\ r = review APPROVED now admin req /\ status r = APPROVED
          /\ requests s2 = requests s ++ [r]
          /\ loans s2 = loans s ++ [loan]
          /\ is_active loan = true /\ loan_userId loan = viewer_id v
          /\ loan_bookId loan = b
          /\ (exists book2, books s2 !! b = Some book2 /\ Spec.ON_LOAN book2)
          /\ approve dueEstimate now (Some admin) (req_id req) s2 = (Err Conflict, s2))
    /\ (forall s' requestId existing due,
          (forall r, requests s' !! requestId = Some r -> status r <> PENDING) ->
          transaction (approve_tx now admin requestId existing due) s' = (Err Conflict, s'))
    /\ (forall s' requestId existing due bk,
          books s' !! req_bookId existing = Some bk -> ~ Spec.REQUEST_PENDING bk ->
          transaction (approve_tx now admin requestId existing due) s' = (Err Conflict, s'))
    /\ (exists r s3,
          decline now (Some admin) (req_id req) s1 = (Ok (Some r), s3)
          /\ r = review DECLINED now admin req /\ status r = DECLINED
          /\ requests s3 = requests s ++ [r]
          /\ loans s3 = loans s
          /\ books s3 !! b = Some book /\ Spec.AVAILABLE book
          /\ decline now (Some admin) (req_id req) s3 = (Err Conflict, s3))
    /\ (forall s' requestId r bk,
          requests s' !! requestId = Some r -> status r = PENDING ->
          books s' !! req_bookId r = Some bk -> ~ Spec.REQUEST_PENDING bk ->
          decline now (Some admin) requestId s'
          = (Ok (Some (review DECLINED now admin r)),
             {| books := books s'; users := users s'; loans := loans s';
                requests := <[requestId := review DECLINED now admin r]> (requests s') |})).
Proof.
  intros Hbook [Hav Hpend] Hmember Hu Hadmin.
  set (req := {| req_id := length (requests s); req_userId := viewer_id v;
                 req_bookId := b; status := PENDING; reviewedById := None;
                 reviewedAt := None; memberSeenAt := Some now |}).
  set (s1 := {| books := <[b := set_requestPending true book]> (books s);
                users := users s; loans := loans s;
                requests := requests s ++ [req] |}).
  assert (requests s1 !! length (requests s) = Some req) as Hreq.
  { subst s1. simpl. rewrite lookup_app_r by lia. by rewrite Nat.sub_diag. }
  assert (books s1 !! b = Some (set_requestPending true book)) as Hb1
    by (subst s1; simpl; apply lookup_insert_eq).
  assert (forall st, <[length (requests s) := review st now admin req]> (requests s ++ [req])
                     = requests s ++ [review st now admin req]) as Hins.
  { intros st. replace (length (requests s)) with (length (requests s) + 0)%nat by lia.
    by rewrite insert_app_r. }
  exists req, s1.
  change (req_id req) with (length (requests s)).
  split.
  { unfold create_request. rewrite Hmember, create_request_tx_cases, Hbook, Hav, Hpend.
    simpl. by rewrite bool_decide_eq_true_2 by exact Hu. }
  do 7 (split; [reflexivity|]).
  split; [split; [exact Hav | reflexivity]|].
  split.
  { intros s' v' bk Hbk Hnot Hm. unfold create_request.
    rewrite Hm, create_request_tx_cases, Hbk.
    destruct (available bk) eqn:E1, (requestPending bk) eqn:E2; simpl; try reflexivity.
    exfalso. apply Hnot. by split. }
  split.
  { set (loan := {| loan_id := length (loans s); loan_bookId := b;
                    loan_userId := viewer_id v; checkedOutAt := now;
                    dueAt := Some (approve_dueAt dueEstimate s1 req);
                    returnedAt := None |}).
    exists loan, (review APPROVED now admin req),
      {| books := <[b := set_requestPending false
                           (set_available false (set_requestPending true book))]>
                    (books s1);
         users := users s; loans := loans s ++ [loan];
         requests := requests s ++ [review APPROVED now admin req] |}.
    split.
    { unfold approve, review_precheck. rewrite Hadmin. simpl negb. cbv iota.
      rewrite Hreq. simpl status_eqb. cbv iota. simpl negb. cbv iota.
      rewrite approve_tx_cases, Hreq. simpl status_eqb. cbv iota.
      change (req_bookId req) with b. rewrite Hb1.
      change (available (set_requestPending true book)) with (available book).
      rewrite Hav. simpl andb. cbv iota.
      change (req_userId req) with (viewer_id v).
      change (users s1) with (users s).
      rewrite bool_decide_eq_true_2 by exact Hu. cbv zeta.
      change (requests s1) with (requests s ++ [req]). rewrite Hins.
      reflexivity. }
    do 7 (split; [reflexivity|]).
    split.
    { eexists. split; [simpl; apply lookup_insert_eq|]. by split. }
    unfold approve, review_precheck. rewrite Hadmin. simpl negb. cbv iota.
    simpl requests. rewrite lookup_app_r by lia. rewrite Nat.sub_diag. reflexivity. }
  split.
  { intros s' requestId existing due Hst. rewrite approve_tx_cases.
    destruct (requests s' !! requestId) as [r|] eqn:Er; [|reflexivity].
    destruct (status_eqb (status r) PENDING) eqn:E; [|reflexivity].
    apply status_eqb_spec in E. by destruct (Hst r eq_refl). }
  split.
  { intros s' requestId existing due bk Hbk Hnot. rewrite approve_tx_cases.
    destruct (requests s' !! requestId) as [r|] eqn:Er; [|reflexivity].
    destruct (status_eqb (status r) PENDING) eqn:E; [|reflexivity].
    rewrite Hbk.
    destruct (available bk) eqn:E1, (requestPending bk) eqn:E2; simpl; try reflexivity.
    exfalso. apply Hnot. by split. }
  split.
  2:{ intros s' requestId r bk Hr Hst Hbk Hnot.
      unfold decline, review_precheck. rewrite Hadmin. simpl negb. cbv iota.
      rewrite Hr, Hst. simpl status_eqb. simpl negb. cbv iota.
      rewrite decline_tx_cases, Hr, Hst. simpl status_eqb. cbv iota.
      rewrite Hbk.
      destruct (available bk) eqn:E1, (requestPending bk) eqn:E2; simpl; try reflexivity.
      exfalso. apply Hnot. by split. }
  exists (review DECLINED now admin req),
    {| books := <[b := set_requestPending false (set_requestPending true book)]> (books s1);
       users := users s; loans := loans s;
       requests := requests s ++ [review DECLINED now admin req] |}.
  split.
  { unfold decline, review_precheck. rewrite Hadmin. simpl negb. cbv iota.
    rewrite Hreq. simpl status_eqb. cbv iota. simpl negb. cbv iota.
    rewrite decline_tx_cases, Hreq. simpl status_eqb. cbv iota.
    change (req_bookId req) with b. rewrite Hb1.
    change (available (set_requestPending true book)) with (available book).
    rewrite Hav. simpl andb. cbv iota.
    change (requests s1) with (requests s ++ [req]). rewrite Hins.
    reflexivity. }
  do 4 (split; [reflexivity|]).
  split.
  { simpl. rewrite lookup_insert_eq. f_equal.
    destruct book. simpl in *. by subst. }
  split; [by split|].
  unfold decline, review_precheck. rewrite Hadmin. simpl negb. cbv iota.
  simpl requests. rewrite lookup_app_r by lia. rewrite Nat.sub_diag. reflexivity.
Qed.

End RequestFacts.

(** ** Recommendations *)

Section SortFacts.
Import Recommend.

Context {A : Type} (before : A -> A -> bool) (le : A -> A -> Prop).
Hypothesis le_trans : forall x y z, le x y -> le y z -> le x z.
Hypothesis before_true : forall y x, before y x = true -> le y x.
Hypothesis before_false : forall y x, before y x = false -> le x y.

Lemma insert_by_perm x l : Permutation (insert_by before x l) (x :: l).
Proof.
  induction l as [|y l IH]; simpl; [done|].
  destruct (before y x); [|done].
  rewrite IH. apply perm_swap.
Qed.

Lemma insert_by_sorted x l :
  StronglySorted le l -> StronglySorted le (insert_by before x l).
Proof.
  induction 1 as [|y l Hl IH Hy]; simpl.
  - repeat constructor.
  - destruct (before y x) eqn:E.
    + constructor; [exact IH|].
      rewrite insert_by_perm. constructor; [by apply before_true | exact Hy].
    + constructor; [by constructor|].
      constructor; [by apply before_false|].
      eapply Forall_impl; [exact Hy|]. intros z Hz. simpl.
      eapply le_trans; [|exact Hz]. by apply before_false.
Qed.

Lemma sort_by_perm l : Permutation (sort_by before l) l.
Proof.
  induction l as [|x l IH]; simpl; [done|].
  unfold sort_by in *. simpl. rewrite insert_by_perm. by constructor.
Qed.

Lemma sort_by_sorted l : StronglySorted le (sort_by before l).
Proof.
  induction l as [|x l IH]; [constructor|].
  unfold sort_by in *. simpl. by apply insert_by_sorted.
Qed.

End SortFacts.


Section RecommendFacts.
Import Db Recommend.











Variable log10 : Q -> Q.



Lemma round_proper q r : (q == r)%Q -> JS.round q = JS.round r.
Proof. intros H. unfold JS.round. by rewrite H. Qed.

Lemma toFixed2_value q :
  (JS.toFixed 2 q == inject_Z (JS.round (q * 100)) * (1 # 100))%Q.
Proof. unfold JS.toFixed. rewrite Qred_correct. reflexivity. Qed.



Lemma toFixed2_proper q r : (q == r)%Q -> JS.toFixed 2 q = JS.toFixed 2 r.
Proof.
  intros H. unfold JS.toFixed. apply Qred_complete.
  rewrite (round_proper (q * inject_Z (10 ^ Z.of_nat 2)) (r * inject_Z (10 ^ Z.of_nat 2)));
    [reflexivity | by rewrite H].
Qed.










End RecommendFacts.


(** ** The lending theorems on the sample shelf *)

(** Three requests for book A, interleaved: one wins, two get Conflict. *)
Lemma checkout_claim_one_winner_sample :
  let final :=
    Lending.run Sample.no_estimate 0 [0; 1; 2; 1; 0; 2]%nat
      (Sample.one_book true false,
       Spec.arrivals [(Sample.member "u", Sample.wants "A");
                      (Sample.member "v", Sample.wants "A");
                      (Sample.librarian, Sample.wants "A")]) in
  Spec.how_many Lending.succeeded final.2 = 1%nat
  /\ Spec.how_many Lending.conflicted final.2 = 2%nat.
Proof.
  destruct (checkout_claim_one_winner Sample.no_estimate 0
              (Sample.one_book true false) "A" (Sample.shelf_book "A" true false)
              [(Sample.member "u", Sample.wants "A");
               (Sample.member "v", Sample.wants "A");
               (Sample.librarian, Sample.wants "A")]
              [0; 1; 2; 1; 0; 2]%nat)
    as (_ & (_ & Hwin) & _).
  - reflexivity.
  - reflexivity.
  - reflexivity.
  - discriminate.
  - repeat constructor; simpl; set_solver.
  - destruct Hwin as (H1 & H2 & _).
    + repeat constructor.
    + split; [exact H1 | exact H2].
Defined.

(** A request by member [u] for book A on the shelf. *)
Lemma borrow_request_lifecycle_sample :
  exists req s1,
    Lending.create_request 0 (Some (Sample.member "u")) "A" (Sample.one_book true false)
    = (Db.Ok req, s1)
    /\ Db.status req = Db.PENDING.
Proof.
  destruct (borrow_request_lifecycle Sample.no_estimate 0 (Sample.member "u")
              Sample.librarian "A" (Sample.one_book true false)
              (Sample.shelf_book "A" true false))
    as (req & s1 & H1 & H2 & _).
  - reflexivity.
  - split; reflexivity.
  - reflexivity.
  - simpl; set_solver.
  - reflexivity.
  - exists req, s1. split; [exact H1 | exact H2].
Defined.

(** Book A with a request pending is checked out by member [u] and checked
    in by the librarian. *)
Lemma checkout_ignores_pending_request_sample :
  exists loan s1 loan' s2,
    Lending.checkout Sample.no_estimate 0 (Some (Sample.member "u")) (Sample.wants "A")
      (Sample.one_book true true) = (Db.Ok loan, s1)
    /\ Db.books s1 !! "A" = Some (Sample.shelf_book "A" false true)
    /\ Lending.checkin 5 (Some Sample.librarian) "A" s1 = (Db.Ok loan', s2)
    /\ Db.books s2 !! "A" = Some (Sample.shelf_book "A" true true).
Proof.
  destruct (checkout_ignores_pending_request Sample.no_estimate 0 5
              (Sample.member "u") Sample.librarian (Sample.wants "A")
              (Sample.one_book true true) (Sample.shelf_book "A" true true))
    as (loan & s1 & loan' & s2 & H1 & H2 & _ & _ & _ & H6 & H7 & _).
  - reflexivity.
  - split; reflexivity.
  - split; [reflexivity|]. split; [left; reflexivity|].
    simpl; set_solver.
  - reflexivity.
  - left; reflexivity.
  - exists loan, s1, loan', s2. repeat split; assumption.
Defined.

(** ** Parsing of provider payloads *)

Section TrimFacts.

Lemma trimStart_head s c t : JS.trimStart s = String c t -> JS.is_space c = false.
Proof.
  induction s as [|a s IH]; simpl; [discriminate|].
  destruct (JS.is_space a) eqn:E; [exact IH|].
  intros H. injection H as <- _. exact E.
Qed.

Lemma trimStart_fix c s : JS.is_space c = false -> JS.trimStart (String c s) = String c s.
Proof. intros H. simpl. by rewrite H. Qed.

Lemma trimEnd_head c s : JS.is_space c = false ->
  JS.trimEnd (String c s) = String c (JS.trimEnd s).
Proof. intros H. simpl. by rewrite H. Qed.

Lemma trimEnd_idem s : JS.trimEnd (JS.trimEnd s) = JS.trimEnd s.
Proof.
  induction s as [|c s IH]; [reflexivity|].
  simpl. destruct (JS.is_space c && JS.is_empty (JS.trimEnd s)) eqn:E; [reflexivity|].
  simpl. rewrite IH, E. reflexivity.
Qed.

Lemma trim_idem s : JS.trim (JS.trim s) = JS.trim s.
Proof.
  unfold JS.trim. destruct (JS.trimStart s) as [|c t] eqn:E; [reflexivity|].
  pose proof (trimStart_head _ _ _ E) as Hc.
  rewrite (trimEnd_head _ _ Hc), (trimStart_fix _ _ Hc).
  rewrite <- (trimEnd_head _ _ Hc). apply trimEnd_idem.
Qed.

Lemma trimEnd_last s pre c :
  JS.trimEnd s = pre +:+ String c "" -> JS.is_space c = false.
Proof.
  revert pre. induction s as [|a s IH]; intros pre; simpl.
  - destruct pre; discriminate.
  - destruct (JS.is_space a && JS.is_empty (JS.trimEnd s)) eqn:E.
    + destruct pre; discriminate.
    + destruct pre as [|b pre]; simpl.
      * intros H. injection H as -> Ht. rewrite Ht in E. simpl in E.
        by rewrite andb_true_r in E.
      * intros H. injection H as _ Ht. by apply (IH pre).
Qed.

Lemma trim_ends s :
  (forall c t, JS.trim s = String c t -> JS.is_space c = false)
  /\ (forall pre c, JS.trim s = pre +:+ String c "" -> JS.is_space c = false).
Proof.
  split.
  - intros c t. unfold JS.trim. destruct (JS.trimStart s) as [|a u] eqn:E; [discriminate|].
    pose proof (trimStart_head _ _ _ E) as Ha. rewrite (trimEnd_head _ _ Ha).
    intros H. injection H as <- _. exact Ha.
  - intros pre c. unfold JS.trim. apply trimEnd_last.
Qed.

Lemma trimStart_blank s : JS.trimStart s = "" <-> Str.all JS.is_space s = true.
Proof.
  induction s as [|c s IH]; simpl; [done|].
  destruct (JS.is_space c); simpl; [exact IH|]. split; discriminate.
Qed.

Lemma trimEnd_blank s : JS.trimEnd s = "" <-> Str.all JS.is_space s = true.
Proof.
  induction s as [|c s IH]; simpl; [done|].
  destruct (JS.is_space c); simpl.
  - destruct (JS.trimEnd s) eqn:E; simpl.
    + split; [intros _; by apply IH | done].
    + split; [discriminate|]. intros H. apply IH in H. discriminate.
  - split; discriminate.
Qed.

Lemma trimStart_all s : Str.all JS.is_space s = true -> JS.trimStart s = "".
Proof. apply trimStart_blank. Qed.

Lemma trim_blank s : JS.trim s = "" <-> Str.all JS.is_space s = true.
Proof.
  unfold JS.trim. split.
  - intros H. apply trimEnd_blank in H.
    destruct (JS.trimStart s) as [|c t] eqn:E; [by apply trimStart_blank|].
    pose proof (trimStart_head _ _ _ E) as Hc. simpl in H. by rewrite Hc in H.
  - intros H. by rewrite (trimStart_all _ H).
Qed.

End TrimFacts.

Section ParseFacts.
Import ExternalBooks Parse.

Lemma length_pos_nonempty (s : string) :
  (0 <? Z.of_nat (String.length s)) = negb (JS.is_empty s).
Proof. destruct s; reflexivity. Qed.

(** X1.  [normalizeText] answers with the trimmed text, which is never empty and
    has no white space at either end, so that normalising it again changes
    nothing; a value that is not a string, or is white space only, is
    answered with null. *)
Theorem normalizeText_trimmed_or_null value :
  match normalizeText value with
  | Some t =>
      (exists v, value = Some v /\ t = JS.trim v)
      /\ t <> ""
      /\ (forall c rest, t = String c rest -> JS.is_space c = false)
      /\ (forall pre c, t = pre +:+ String c "" -> JS.is_space c = false)
      /\ normalizeText (Some t) = Some t
  | None =>
      value = None \/ exists v, value = Some v /\ Str.all JS.is_space v = true
  end.
Proof.
  destruct value as [v|]; simpl; [|by left].
  rewrite length_pos_nonempty.
  destruct (JS.trim v) as [|c t] eqn:E; simpl.
  - right. exists v. split; [done|]. by apply trim_blank.
  - destruct (trim_ends v) as [H1 H2]. rewrite E in H1, H2.
    split; [by exists v|]. split; [done|]. split; [exact H1|]. split; [exact H2|].
    rewrite <- E, trim_idem, E. reflexivity.
Qed.

Lemma length_toUpperCase s : String.length (Str.toUpperCase s) = String.length s.
Proof. induction s as [|c s IH]; simpl; congruence. Qed.

Lemma upper_isbn_char c : is_isbn_char c = true ->
  isbn_digit (Str.upper_char c) = true.
Proof.
  unfold is_isbn_char, isbn_digit, Str.upper_char, JS.is_lower, JS.is_digit, JS.code.
  destruct c as [[] [] [] [] [] [] [] []]; vm_compute; try done.
Qed.

Lemma isbn_digit_fix c : isbn_digit c = true ->
  is_isbn_char c = true /\ Str.upper_char c = c.
Proof.
  unfold is_isbn_char, isbn_digit, Str.upper_char, JS.is_lower, JS.is_digit, JS.code.
  destruct c as [[] [] [] [] [] [] [] []]; vm_compute; try done.
Qed.

Lemma cleaned_isbn_digits s :
  Str.all isbn_digit (Str.toUpperCase (Str.only is_isbn_char s)) = true.
Proof.
  induction s as [|c s IH]; simpl; [reflexivity|].
  destruct (is_isbn_char c) eqn:E; [|exact IH].
  simpl. by rewrite (upper_isbn_char _ E), IH.
Qed.

Lemma isbn_digits_fix s : Str.all isbn_digit s = true ->
  Str.toUpperCase (Str.only is_isbn_char s) = s.
Proof.
  induction s as [|c s IH]; simpl; [reflexivity|].
  intros H. apply andb_true_iff in H as [Hc Hs].
  destruct (isbn_digit_fix _ Hc) as [H1 H2].
  rewrite H1. simpl. by rewrite H2, IH.
Qed.

(** X2.  [normalizeIsbn] looks at the digits and the letters X and x of its
    input only: when there are 10 or 13 of them it answers with them, X in
    capitals, and otherwise with null.  An answer has 10 or 13 characters,
    each a digit or X, and is its own normal form.  (No check digit is
    verified.) *)
Theorem normalizeIsbn_shape input :
  let kept := Str.only is_isbn_char input in
  normalizeIsbn input
  = (if bool_decide (String.length kept = 10%nat \/ String.length kept = 13%nat)
     then Some (Str.toUpperCase kept) else None)
  /\ normalizeIsbn kept = normalizeIsbn input
  /\ (forall i, normalizeIsbn input = Some i ->
        (String.length i = 10%nat \/ String.length i = 13%nat)
        /\ Str.all isbn_digit i = true
        /\ normalizeIsbn i = Some i).
Proof.
  intros kept.
  assert (normalizeIsbn input
          = (if bool_decide (String.length kept = 10%nat \/ String.length kept = 13%nat)
             then Some (Str.toUpperCase kept) else None)) as Hshape.
  { unfold normalizeIsbn. fold kept. rewrite length_toUpperCase.
    destruct (Z.eqb_spec (Z.of_nat (String.length kept)) 10) as [H10|H10];
      destruct (Z.eqb_spec (Z.of_nat (String.length kept)) 13) as [H13|H13]; simpl.
    - lia.
    - rewrite bool_decide_eq_true_2; [done | left; lia].
    - rewrite bool_decide_eq_true_2; [done | right; lia].
    - rewrite bool_decide_eq_false_2; [done | lia]. }
  assert (forall s, Str.only is_isbn_char (Str.only is_isbn_char s) = Str.only is_isbn_char s)
    as Honly.
  { induction s as [|c s IH]; simpl; [reflexivity|].
    destruct (is_isbn_char c) eqn:E; [|exact IH]. simpl. by rewrite E, IH. }
  split; [exact Hshape|]. split.
  { unfold normalizeIsbn. subst kept. by rewrite Honly. }
  intros i Hi. rewrite Hshape in Hi.
  destruct (bool_decide _) eqn:E in Hi; [|discriminate].
  apply bool_decide_eq_true_1 in E. injection Hi as <-.
  rewrite length_toUpperCase. split; [exact E|].
  split; [apply cleaned_isbn_digits|].
  subst kept. unfold normalizeIsbn.
  rewrite (isbn_digits_fix _ (cleaned_isbn_digits input)).
  rewrite length_toUpperCase.
  destruct E as [E|E]; rewrite E; reflexivity.
Qed.

Lemma startsWith_https_not_http s : JS.startsWith ("https://" +:+ s) "http://" = false.
Proof. reflexivity. Qed.

Lemma drop_prefix (p s : string) : Str.drop (String.length p) (p +:+ s) = s.
Proof. induction p as [|c p IH]; simpl; [by destruct s | exact IH]. Qed.

(** X3.  [normalizeCoverUrl] never answers with an address that starts with
    [http://]: such an address is answered with [https://] in front of the
    rest, any other non-empty address as it is, and null or the empty
    string with null.  An answer is its own normal form. *)
Theorem normalizeCoverUrl_never_http value :
  match normalizeCoverUrl value with
  | Some u =>
      JS.startsWith u "http://" = false /\ u <> ""
      /\ normalizeCoverUrl (Some u) = Some u
      /\ exists v, value = Some v
           /\ ((JS.startsWith v "http://" = false /\ u = v)
               \/ exists rest, v = "http://" +:+ rest /\ u = "https://" +:+ rest)
  | None => value = None \/ value = Some ""
  end.
Proof.
  destruct value as [v|]; [|by left]. unfold normalizeCoverUrl.
  destruct v as [|c v]; [by right|].
  change (negb (JS.truthy (String c v))) with false. cbv iota.
  destruct (JS.startsWith (String c v) "http://") eqn:E.
  - apply startsWith_spec in E as [rest E]. rewrite E.
    rewrite (drop_prefix "http://" rest).
    split; [reflexivity|]. split; [done|]. split; [reflexivity|].
    exists ("http://" +:+ rest). split; [reflexivity|]. right. by exists rest.
  - split; [exact E|]. split; [done|]. split.
    + change (negb (JS.truthy (String c v))) with false. cbv iota. by rewrite E.
    + exists (String c v). split; [reflexivity|]. by left.
Qed.

Lemma digit_value_range c : JS.is_digit c = true -> 0 <= Str.digit_value c <= 9.
Proof.
  unfold JS.is_digit, Str.digit_value. intros H.
  apply andb_true_iff in H as [H1 H2]. lia.
Qed.

Lemma year_here_range s y : year_here s = Some y -> 1000 <= y <= 2100.
Proof.
  destruct s as [|c1 [|c2 [|c3 [|c4 rest]]]]; try discriminate.
  unfold year_here.
  match goal with |- context [if ?b then _ else _] => destruct b eqn:E end;
    [|discriminate].
  intros H. injection H as <-.
  apply andb_true_iff in E as [E _].
  apply orb_true_iff in E as [E|E]; [apply orb_true_iff in E as [E|E]|].
  - repeat (apply andb_true_iff in E as [E ?]).
    apply Ascii.eqb_eq in E as ->.
    pose proof (digit_value_range c2 ltac:(done)).
    pose proof (digit_value_range c3 ltac:(done)).
    pose proof (digit_value_range c4 ltac:(done)).
    change (Str.digit_value "1") with 1. lia.
  - repeat (apply andb_true_iff in E as [E ?]).
    apply Ascii.eqb_eq in E as ->.
    match goal with H : Ascii.eqb c2 _ = true |- _ => apply Ascii.eqb_eq in H as -> end.
    pose proof (digit_value_range c3 ltac:(done)).
    pose proof (digit_value_range c4 ltac:(done)).
    change (Str.digit_value "2") with 2. change (Str.digit_value "0") with 0. lia.
  - repeat (apply andb_true_iff in E as [E ?]).
    apply Ascii.eqb_eq in E as ->.
    repeat match goal with H : Ascii.eqb _ _ = true |- _ => apply Ascii.eqb_eq in H as -> end.
    vm_compute. split; discriminate.
Qed.

Lemma find_year_range w s y : find_year w s = Some y -> 1000 <= y <= 2100.
Proof.
  revert w. induction s as [|c s IH]; intros w; [discriminate|].
  cbn [find_year]. destruct w.
  - apply IH.
  - destruct (year_here (String c s)) as [y'|] eqn:E.
    + intros H. injection H as <-. by apply year_here_range in E.
    + apply IH.
Qed.

Lemma Qle_bool_true a b : Qle_bool a b = true <-> (a <= b)%Q.
Proof. apply Qle_bool_iff. Qed.

Lemma Qle_bool_false a b : Qle_bool a b = false <-> (b < a)%Q.
Proof.
  split.
  - intros H. apply Qnot_le_lt. intros Hle. apply Qle_bool_iff in Hle. congruence.
  - intros H. destruct (Qle_bool a b) eqn:E; [|reflexivity].
    apply Qle_bool_iff in E. lra.
Qed.

Lemma clamp_range q :
  (0 <= Parse.Qmin 5 (Parse.Qmax 0 q))%Q /\ (Parse.Qmin 5 (Parse.Qmax 0 q) <= 5)%Q.
Proof.
  unfold Parse.Qmin, Parse.Qmax.
  destruct (Qle_bool 0 q) eqn:E1.
  - apply Qle_bool_true in E1.
    destruct (Qle_bool 5 q) eqn:E2.
    + split; lra.
    + apply Qle_bool_false in E2. split; lra.
  - destruct (Qle_bool 5 0) eqn:E2.
    + apply Qle_bool_true in E2. lra.
    + split; lra.
Qed.

Lemma toFixed2_range q : (0 <= q)%Q -> (q <= 5)%Q ->
  (0 <= JS.toFixed 2 q)%Q /\ (JS.toFixed 2 q <= 5)%Q
  /\ (JS.toFixed 2 q * 100 == inject_Z (JS.round (q * 100)))%Q.
Proof.
  intros H0 H5. rewrite toFixed2_value.
  destruct (round_nearest (q * 100)) as [Hlo Hhi].
  assert (0 <= JS.round (q * 100) <= 500) as Hn.
  { split.
    - assert (inject_Z (-1) < inject_Z (JS.round (q * 100)))%Q as A
        by (change (inject_Z (-1)) with (-1)%Q; lra).
      rewrite <- Zlt_Qlt in A. lia.
    - assert (inject_Z (JS.round (q * 100)) < inject_Z 501)%Q as A
        by (change (inject_Z 501) with 501%Q; lra).
      rewrite <- Zlt_Qlt in A. lia. }
  assert (inject_Z 0 <= inject_Z (JS.round (q * 100)))%Q as A by (rewrite <- Zle_Qle; lia).
  assert (inject_Z (JS.round (q * 100)) <= inject_Z 500)%Q as B by (rewrite <- Zle_Qle; lia).
  change (inject_Z 0) with 0%Q in A. change (inject_Z 500) with 500%Q in B.
  repeat split; try lra.
Qed.

(** X4.  The numbers parsed out of a payload are in range: a year lies in
    0..2100 (in 1000..2100 when it was read out of a text), an average
    rating in 0..5 with two decimals (a rating outside is clamped, not
    refused), and a ratings count is not negative.  A year in a text
    stands as a word of its own: [2005-06-01] gives 2005, [c1999] and
    [19999] give nothing. *)
Theorem parsed_numbers_in_range raw :
  (forall y, parsePublishedYear raw = Some y ->
     0 <= y <= 2100 /\ (forall s, raw = RawString s -> 1000 <= y))
  /\ (forall q, raw = RawNumber q ->
        ((0 <= q)%Q -> (q <= 2100)%Q -> parsePublishedYear raw = Some (Qfloor q))
        /\ ((q < 0)%Q \/ (2100 < q)%Q -> parsePublishedYear raw = None))
  /\ (forall r, parseAverageRating raw = Some r ->
        (0 <= r)%Q /\ (r <= 5)%Q /\ exists n : Z, (r * 100 == inject_Z n)%Q)
  /\ (forall q, raw = RawNumber q -> (5 <= q)%Q -> parseAverageRating raw = Some 5%Q)
  /\ (forall q, raw = RawNumber q -> (q <= 0)%Q -> parseAverageRating raw = Some 0%Q)
  /\ (forall n, parseRatingsCount raw = Some n -> 0 <= n)
  /\ parsePublishedYear (RawString "2005-06-01") = Some 2005
  /\ parsePublishedYear (RawString "June 1999.") = Some 1999
  /\ parsePublishedYear (RawString "c1999") = None
  /\ parsePublishedYear (RawString "19999") = None
  /\ parsePublishedYear (RawString "0999 or 2101, then 2100") = Some 2100.
Proof.
  split.
  { intros y H. destruct raw as [q|s|]; simpl in H; [| |discriminate].
    - destruct (Qle_bool 0 q) eqn:E1; [|discriminate].
      destruct (Qle_bool q 2100) eqn:E2; [|discriminate].
      injection H as <-. apply Qle_bool_true in E1, E2.
      split; [|intros s; discriminate]. split.
      + apply Qfloor_resp_le in E1. exact E1.
      + apply Qfloor_resp_le in E2. exact E2.
    - apply find_year_range in H. split; [lia|]. intros _ _. lia. }
  split.
  { intros q ->. simpl. split.
    - intros H0 H1.
      rewrite (proj2 (Qle_bool_true 0 q) H0), (proj2 (Qle_bool_true q 2100) H1).
      reflexivity.
    - intros [H|H].
      + by rewrite (proj2 (Qle_bool_false 0 q) H).
      + rewrite (proj2 (Qle_bool_false q 2100) H). by rewrite andb_false_r. }
  split.
  { intros r H. destruct raw as [q|s|]; simpl in H; try discriminate.
    injection H as <-. destruct (clamp_range q) as [H0 H5].
    destruct (toFixed2_range _ H0 H5) as (A & B & C).
    split; [exact A|]. split; [exact B|]. eexists. exact C. }
  split.
  { intros q -> Hq. simpl. f_equal.
    assert (Parse.Qmin 5 (Parse.Qmax 0 q) = 5%Q) as ->; [|reflexivity].
    unfold Parse.Qmin, Parse.Qmax.
    rewrite (proj2 (Qle_bool_true 0 q)) by lra.
    by rewrite (proj2 (Qle_bool_true 5 q)) by lra. }
  split.
  { intros q -> Hq. simpl.
    unfold Parse.Qmin, Parse.Qmax.
    destruct (Qle_bool 0 q) eqn:E.
    - apply Qle_bool_true in E.
      rewrite (proj2 (Qle_bool_false 5 q)) by lra.
      f_equal. apply (toFixed2_proper q 0). lra.
    - reflexivity. }
  split.
  { intros n H. destruct raw as [q|s|]; simpl in H; try discriminate.
    destruct (Qle_bool 0 q) eqn:E; [|discriminate]. injection H as <-.
    apply Qle_bool_true in E. apply Qfloor_resp_le in E. exact E. }
  repeat split; reflexivity.
Qed.

End ParseFacts.

(** ** The ledger under sequences of operations *)

Section ListFacts.
Context {A : Type} (P : A -> Prop) `{Pdec : !forall x, Decision (P x)}.

Lemma filter_insert_length (l : list A) i x y :
  l !! i = Some x ->
  (length (filter P (<[i := y]> l)) + (if decide (P x) then 1 else 0)
   = length (filter P l) + (if decide (P y) then 1 else 0))%nat.
Proof.
  intros H. rewrite insert_take_drop by (by eapply lookup_lt_Some).
  rewrite <- (take_drop_middle l i x H) at 3.
  rewrite !filter_app, !filter_cons, !length_app.
  destruct (decide (P x)), (decide (P y)); simpl; lia.
Qed.

Lemma filter_insert_same (l : list A) i x y :
  l !! i = Some x -> (P x <-> P y) ->
  length (filter P (<[i := y]> l)) = length (filter P l).
Proof.
  intros H Hxy. pose proof (filter_insert_length l i x y H) as E.
  destruct (decide (P x)), (decide (P y)); tauto || lia.
Qed.

Lemma filter_insert_drop (l : list A) i x y :
  l !! i = Some x -> P x -> ~ P y ->
  (length (filter P (<[i := y]> l)) + 1 = length (filter P l))%nat.
Proof.
  intros Hi Hx Hy. pose proof (filter_insert_length l i x y Hi) as E.
  destruct (decide (P x)), (decide (P y)); tauto || lia.
Qed.

Lemma filter_snoc_length (l : list A) x :
  length (filter P (l ++ [x]))
  = (length (filter P l) + (if decide (P x) then 1 else 0))%nat.
Proof.
  rewrite filter_app, length_app, filter_cons, filter_nil.
  destruct (decide (P x)); reflexivity.
Qed.

Lemma filter_fmap_length (f : A -> A) (l : list A) :
  (forall x, P (f x) <-> P x) ->
  length (filter P (f <$> l)) = length (filter P l).
Proof.
  intros Hf. induction l as [|x l IH]; [reflexivity|].
  rewrite fmap_cons, !filter_cons.
  destruct (decide (P (f x))), (decide (P x)); simpl; try (by rewrite IH); exfalso.
  - by apply n, Hf.
  - by apply n, Hf.
Qed.

Lemma filter_length_nil (l : list A) : length (filter P l) = 0%nat <-> filter P l = [].
Proof. destruct (filter P l); simpl; split; (done || lia). Qed.

Lemma filter_elem_length (l : list A) x : x ∈ l -> P x -> (1 <= length (filter P l))%nat.
Proof.
  intros Hin Hx. assert (x ∈ filter P l) as H by (by apply list_elem_of_filter).
  destruct (filter P l); [by apply elem_of_nil in H | simpl; lia].
Qed.

End ListFacts.

Section LedgerFacts.
Import Db Lending Desk Requests Ops Ledger.

Variable dueEstimate : Book -> ReadingTime.DueDateEstimate.








(** The effect of a review on the pending requests of a book. *)
Lemma review_pending st now v i r k s :
  st <> PENDING -> requests s !! i = Some r -> status_eqb (status r) PENDING = true ->
  (length (filter (fun x => status_eqb (status x) PENDING = true /\ req_bookId x = k)
             (<[i := review st now v r]> (requests s)))
   + (if decide (req_bookId r = k) then 1 else 0)
   = length (pending_requests k s))%nat.
Proof.
  intros Hst Hi Hp. unfold pending_requests.
  assert (status_eqb (status (review st now v r)) PENDING = false) as Hno
    by (by destruct st).
  destruct (decide (req_bookId r = k)) as [Hk|Hk].
  - apply (filter_insert_drop _ _ _ r); [done|done|].
    intros [? _]. cbn in *. congruence.
  - rewrite Nat.add_0_r. apply (filter_insert_same _ _ _ r); [done|].
    split; intros [? ?]; cbn in *; congruence.
Qed.







Lemma fresh_library_consistent bs us :
  (forall k b, bs !! k = Some b -> available b = true) ->
  Consistent {| books := bs; users := us; loans := []; requests := [] |}.
Proof.
  intros H. split; [|split].
  - intros i l Hl. by destruct i.
  - intros k b Hk. cbn in Hk. by rewrite (H _ _ Hk).
  - intros k b Hk. split; [simpl; lia | done].
Qed.





Lemma wedged_intro b s book :
  books s !! b = Some book -> requestPending book = true ->
  length (pending_requests b s) = 0%nat -> Wedged b s.
Proof.
  intros Hb Hf Hp. split; [by exists book|]. by destruct (pending_requests b s).
Qed.

Lemma serve_wedged now op b s :
  Wedged b s -> Wedged b (serve dueEstimate now op s).2.
Proof.
  intros Hw. pose proof Hw as [(book & Hb & Hf) Hp].
  destruct op as [viewer payload|viewer k|viewer k|viewer requestId|viewer requestId
                 |viewer loanId due|viewer]; unfold serve.
  - pose proof (checkout_cases dueEstimate now viewer payload s) as E.
    destruct (checkout dueEstimate now viewer payload s) as [r s'].
    cbn [snd]. destruct viewer as [v|]; [|by injection E as _ ->].
    destruct (JS.defined (payload_dueAt payload) && negb (is_admin v));
      [by injection E as _ ->|].
    destruct (books s !! bookId payload) as [bk|] eqn:Ek; [|by injection E as _ ->].
    rewrite checkout_tx_cases, Ek in E.
    destruct (available bk); [|by injection E as _ ->].
    destruct (bool_decide (viewer_id v ∈ users s)); [|by injection E as _ ->].
    injection E as _ ->.
    destruct (decide (bookId payload = b)) as [Heq|Hne].
    + apply (wedged_intro _ _ (set_available false bk)).
      * cbn [books]. rewrite Heq. apply lookup_insert_eq.
      * rewrite Heq in Ek. cbn. congruence.
      * change (pending_requests b _) with (pending_requests b s). by rewrite Hp.
    + apply (wedged_intro _ _ book).
      * cbn [books]. by rewrite lookup_insert_ne.
      * exact Hf.
      * change (pending_requests b _) with (pending_requests b s). by rewrite Hp.
  - unfold checkin. destruct viewer as [v|]; [|exact Hw].
    destruct (find_active_loan s k) as [l|]; [|exact Hw].
    destruct (negb (is_admin v) && negb (String.eqb (loan_userId l) (viewer_id v)));
      [exact Hw|].
    rewrite checkin_tx_cases.
    destruct (books s !! k) as [bk|] eqn:Ek; [|exact Hw].
    destruct (loans s !! loan_id l) as [l0|]; [|exact Hw]. cbn [snd].
    destruct (decide (k = b)) as [Heq|Hne].
    + apply (wedged_intro _ _ (set_available true bk)).
      * cbn [books]. rewrite Heq. apply lookup_insert_eq.
      * rewrite Heq in Ek. cbn. congruence.
      * change (pending_requests b _) with (pending_requests b s). by rewrite Hp.
    + apply (wedged_intro _ _ book).
      * cbn [books]. by rewrite lookup_insert_ne.
      * exact Hf.
      * change (pending_requests b _) with (pending_requests b s). by rewrite Hp.
  - unfold create_request. destruct viewer as [v|]; [|exact Hw].
    destruct (is_admin v); [exact Hw|].
    rewrite create_request_tx_cases.
    destruct (books s !! k) as [bk|] eqn:Ek; [|exact Hw].
    destruct (available bk && negb (requestPending bk)) eqn:Eg; [|exact Hw].
    destruct (bool_decide (viewer_id v ∈ users s)); [|exact Hw]. cbn [snd].
    apply andb_true_iff in Eg as [_ Eg]. apply negb_true_iff in Eg.
    destruct (decide (k = b)) as [Heq|Hne]; [rewrite Heq in Ek; congruence|].
    apply (wedged_intro _ _ book).
    + cbn [books]. by rewrite lookup_insert_ne.
    + exact Hf.
    + unfold pending_requests. cbn [requests]. rewrite filter_snoc_length.
      rewrite decide_False by (cbn; intros [_ ?]; congruence).
      unfold pending_requests in Hp. by rewrite Hp.
  - unfold approve, review_precheck. destruct viewer as [v|]; [|exact Hw].
    destruct (negb (is_admin v)); [exact Hw|].
    destruct (requests s !! requestId) as [r|] eqn:Er; [|exact Hw].
    destruct (status_eqb (status r) PENDING) eqn:Es; [|exact Hw]. cbn [negb].
    rewrite approve_tx_cases, Er, Es.
    destruct (books s !! req_bookId r) as [bk|] eqn:Ek; [|exact Hw].
    destruct (available bk && requestPending bk); [|exact Hw].
    destruct (bool_decide (req_userId r ∈ users s)); [|exact Hw]. cbn [snd].
    pose proof (review_pending APPROVED now v requestId r b s ltac:(done) Er Es) as E.
    rewrite Hp in E. simpl in E.
    destruct (decide (req_bookId r = b)) as [Heq|Hne]; [lia|].
    apply (wedged_intro _ _ book).
    + cbn [books]. by rewrite lookup_insert_ne.
    + exact Hf.
    + unfold pending_requests. cbn [requests]. lia.
  - unfold decline, review_precheck. destruct viewer as [v|]; [|exact Hw].
    destruct (negb (is_admin v)); [exact Hw|].
    destruct (requests s !! requestId) as [r|] eqn:Er; [|exact Hw].
    destruct (status_eqb (status r) PENDING) eqn:Es; [|exact Hw]. cbn [negb].
    rewrite decline_tx_cases, Er, Es. cbn [snd].
    pose proof (review_pending DECLINED now v requestId r b s ltac:(done) Er Es) as E.
    rewrite Hp in E. simpl in E.
    destruct (decide (req_bookId r = b)) as [Heq|Hne]; [lia|].
    apply (wedged_intro _ _ book).
    + cbn [books]. destruct (books s !! req_bookId r) as [bk|]; [|exact Hb].
      destruct (available bk && requestPending bk); [|exact Hb].
      by rewrite lookup_insert_ne.
    + exact Hf.
    + unfold pending_requests. cbn [requests]. lia.
  - unfold update_due_date. destruct viewer as [v|]; [|exact Hw].
    destruct (negb (is_admin v)); [exact Hw|].
    destruct (loans s !! loanId) as [l|]; [|exact Hw].
    destruct (JS.defined (returnedAt l)); [exact Hw|].
    unfold loan_update. destruct (loans s !! loan_id l); exact Hw.
  - unfold mark_seen. destruct viewer as [v|]; [|exact Hw].
    destruct (is_admin v); [exact Hw|]. cbn [requests_updateMany snd].
    apply (wedged_intro _ _ book); [exact Hb | exact Hf |].
    unfold pending_requests. cbn [requests set_requests].
    rewrite filter_fmap_length.
    + unfold pending_requests in Hp. by rewrite Hp.
    + intros x. by destruct (unread (viewer_id v) x).
Qed.

Lemma serve_all_wedged day b s :
  Wedged b s -> Wedged b (serve_all dueEstimate day s).
Proof.
  revert s. induction day as [|[now op] day IH]; intros s Hw; [exact Hw|].
  simpl. apply IH. by apply serve_wedged.
Qed.

Lemma wedged_refuses_requests now w b s :
  Wedged b s ->
  (serve dueEstimate now (CreateRequest w b) s).1
  = Some match w with
         | None => Unauthorized
         | Some x => if is_admin x then Forbidden else Conflict
         end.
Proof.
  intros [(book & Hb & Hf) _]. unfold serve, create_request.
  destruct w as [x|]; [|reflexivity].
  destruct (is_admin x); [reflexivity|].
  rewrite create_request_tx_cases, Hb, Hf. by rewrite andb_false_r.
Qed.

(** X12.  A borrow request that is declined while its book is out on a direct
    checkout leaves the book marked as requested with no pending request
    behind it.  From then on the mark stays, whatever the server is asked,
    and every further borrow request for the book is refused (a member's
    with Conflict). *)
Theorem declined_request_on_lent_book_wedges_it t1 t2 t3 u v admin b s book :
  Consistent s -> books s !! b = Some book -> Spec.AVAILABLE book ->
  is_admin u = false -> viewer_id u ∈ users s -> viewer_id v ∈ users s ->
  is_admin admin = true ->
  let s3 :=
    serve_all dueEstimate
      [(t1, CreateRequest (Some u) b);
       (t2, Checkout (Some v) {| bookId := b; payload_dueAt := None |});
       (t3, Decline (Some admin) (length (requests s)))] s in
  Wedged b s3
  /\ (exists book3, books s3 !! b = Some book3 /\ available book3 = false
                    /\ requestPending book3 = true)
  /\ (forall day, Wedged b (serve_all dueEstimate day s3))
  /\ (forall day now w,
        (serve dueEstimate now (CreateRequest w b) (serve_all dueEstimate day s3)).1
        = Some match w with
               | None => Unauthorized
               | Some x => if is_admin x then Forbidden else Conflict
               end).
Proof.
  intros Hc Hb [Hav Hpend] Hu Huin Hvin Hadmin s3.
  assert (pending_requests b s = []) as Hp0.
  { destruct Hc as (_ & _ & HP). destruct (HP _ _ Hb) as [_ H2].
    destruct (pending_requests b s) eqn:E; [done|].
    assert (requestPending book = true) by (by apply H2). congruence. }
  set (r := {| req_id := length (requests s); req_userId := viewer_id u;
               req_bookId := b; status := PENDING; reviewedById := None;
               reviewedAt := None; memberSeenAt := Some t1 |}).
  set (l := {| loan_id := length (loans s); loan_bookId := b;
               loan_userId := viewer_id v; checkedOutAt := t2;
               dueAt := Some (ReadingTime.dueAt (dueEstimate (set_requestPending true book)));
               returnedAt := None |}).
  assert (s3 = {| books := <[b := set_available false (set_requestPending true book)]>
                             (<[b := set_requestPending true book]> (books s));
                  users := users s; loans := loans s ++ [l];
                  requests := <[length (requests s) := review DECLINED t3 admin r]>
                                (requests s ++ [r]) |}) as Hs3.
  { subst s3. unfold serve_all. cbn [fold_left]. unfold serve at 3.
    unfold create_request. rewrite Hu, create_request_tx_cases, Hb, Hav, Hpend.
    cbn [andb negb]. rewrite (bool_decide_eq_true_2 _ Huin). cbn [snd].
    unfold serve at 2. rewrite checkout_cases. cbn [payload_dueAt JS.defined andb bookId books].
    rewrite lookup_insert_eq, checkout_tx_cases. cbn [bookId books].
    rewrite lookup_insert_eq. cbn [available set_requestPending users].
    rewrite Hav, (bool_decide_eq_true_2 _ Hvin). cbn [snd].
    unfold serve, decline, review_precheck. rewrite Hadmin. cbn [negb requests].
    assert ((requests s ++ [r]) !! length (requests s) = Some r) as Hr
      by (rewrite lookup_app_r by lia; by rewrite Nat.sub_diag).
    fold r. rewrite Hr. cbn [status r status_eqb negb].
    rewrite decline_tx_cases. cbn [requests]. rewrite Hr. cbn [status r status_eqb].
    cbn [snd req_bookId r books]. rewrite lookup_insert_eq.
    cbn [available set_available andb]. reflexivity. }
  assert (Wedged b s3) as Hw.
  { rewrite Hs3. apply (wedged_intro _ _ (set_available false (set_requestPending true book))).
    - cbn [books]. apply lookup_insert_eq.
    - reflexivity.
    - unfold pending_requests. cbn [requests].
      replace (length (requests s)) with (length (requests s) + 0)%nat by lia.
      rewrite insert_app_r. cbn [insert list_insert].
      rewrite filter_snoc_length.
      rewrite decide_False by (cbn; intros [? _]; done).
      unfold pending_requests in Hp0. by rewrite Hp0. }
  split; [exact Hw|]. split.
  { exists (set_available false (set_requestPending true book)). rewrite Hs3.
    cbn [books]. by rewrite lookup_insert_eq. }
  split; [intros day; by apply serve_all_wedged|].
  intros day now w. apply wedged_refuses_requests. by apply serve_all_wedged.
Qed.


End LedgerFacts.

(** ** Listings of loans *)

Section DeskFacts.
Import Db Lending Desk Ledger.

Lemma later_sorted (l : list Loan) :
  StronglySorted newer (Recommend.sort_by Recommend.later l).
Proof.
  apply (sort_by_sorted Recommend.later).
  - intros x y z. unfold newer. lia.
  - intros y x. unfold Recommend.later, newer. rewrite Z.ltb_lt. lia.
  - intros y x. unfold Recommend.later, newer. rewrite Z.ltb_ge. lia.
Qed.

Lemma elem_of_List_filter {A} (f : A -> bool) (l : list A) x :
  x ∈ List.filter f l <-> x ∈ l /\ f x = true.
Proof.
  rewrite !list_elem_of_In, filter_In. tauto.
Qed.

Lemma Forall_List_filter {A} (f : A -> bool) (l : list A) :
  Forall (fun x => x ∈ l /\ f x = true) (List.filter f l).
Proof. apply Forall_forall. intros x. apply elem_of_List_filter. Qed.

Lemma List_filter_all {A} (f : A -> bool) (l : list A) :
  (forall x, f x = true) -> List.filter f l = l.
Proof.
  intros H. induction l as [|x l IH]; [reflexivity|]. simpl. by rewrite H, IH.
Qed.

(** X14.  The listing of loans shows a member the member's own loans only,
    whatever user the query names; an administrator sees the loans of the
    user the query names, or all loans; the status filter keeps the loans
    that are out, or the returned ones; nothing is listed twice or left out,
    and the loans come newest first. *)
Theorem loans_listing_scoped_and_ordered v query s :
  exists rows,
    list_loans (Some v) query s = Ok rows
    /\ StronglySorted newer rows
    /\ rows ≡ₚ List.filter (loans_where v query) (loans s)
    /\ (forall l, l ∈ rows <-> l ∈ loans s /\ loans_where v query l = true)
    /\ (is_admin v = false -> Forall (fun l => loan_userId l = viewer_id v) rows)
    /\ (forall u, is_admin v = true -> q_userId query = Some u -> u <> "" ->
          Forall (fun l => loan_userId l = u) rows)
    /\ (q_status query = Some active -> Forall (fun l => returnedAt l = None) rows)
    /\ (q_status query = Some returned -> Forall (fun l => returnedAt l <> None) rows)
    /\ (is_admin v = true -> JS.truthy_opt (q_userId query) = false ->
        q_status query = None -> rows ≡ₚ loans s)
    /\ list_loans None query s = Err Unauthorized.
Proof.
  eexists. split; [reflexivity|].
  split; [apply later_sorted|].
  split; [apply (sort_by_perm Recommend.later)|].
  assert (forall l, l ∈ Recommend.sort_by Recommend.later
                          (List.filter (loans_where v query) (loans s))
                    <-> l ∈ loans s /\ loans_where v query l = true) as Hin.
  { intros l. rewrite (sort_by_perm Recommend.later). apply elem_of_List_filter. }
  split; [exact Hin|].
  split.
  { intros Hm. apply Forall_forall. intros l Hl. apply Hin in Hl as [_ Hl].
    unfold loans_where in Hl. rewrite Hm in Hl. cbn [andb negb] in Hl.
    apply andb_true_iff in Hl as [Hl _]. apply andb_true_iff in Hl as [Hl _].
    by apply String.eqb_eq in Hl. }
  split.
  { intros u Ha Hu Hne. apply Forall_forall. intros l Hl. apply Hin in Hl as [_ Hl].
    unfold loans_where in Hl. rewrite Ha, Hu in Hl. cbn [andb JS.truthy_opt] in Hl.
    assert (JS.truthy u = true) as Ht by (by destruct u).
    rewrite Ht in Hl.
    apply andb_true_iff in Hl as [Hl _]. apply andb_true_iff in Hl as [Hl _].
    apply andb_true_iff in Hl as [Hl _].
    apply bool_decide_eq_true_1 in Hl. congruence. }
  split.
  { intros Hs. apply Forall_forall. intros l Hl. apply Hin in Hl as [_ Hl].
    unfold loans_where in Hl. rewrite Hs in Hl.
    apply andb_true_iff in Hl as [Hl _]. apply andb_true_iff in Hl as [_ Hl].
    unfold is_active in Hl. by destruct (returnedAt l). }
  split.
  { intros Hs. apply Forall_forall. intros l Hl. apply Hin in Hl as [_ Hl].
    unfold loans_where in Hl. rewrite Hs in Hl.
    apply andb_true_iff in Hl as [_ Hl].
    unfold is_active in Hl. by destruct (returnedAt l). }
  split; [|reflexivity].
  intros Ha Hu Hs. rewrite (sort_by_perm Recommend.later).
  rewrite List_filter_all; [done|].
  intros l. unfold loans_where. by rewrite Ha, Hu, Hs.
Qed.

(** *** The overview of the borrowers *)

Lemma due_first_sorted (l : list Loan) :
  StronglySorted due_le (Recommend.sort_by due_first l).
Proof.
  apply (sort_by_sorted due_first).
  - intros x y z. unfold due_le, due_first.
    destruct (dueAt x), (dueAt y), (dueAt z); try done;
      rewrite ?orb_false_iff, ?andb_false_iff, ?Z.ltb_ge, ?Z.eqb_neq; lia.
  - intros y x. unfold due_le, due_first.
    destruct (dueAt x), (dueAt y); try done;
      rewrite ?orb_true_iff, ?orb_false_iff, ?andb_true_iff, ?andb_false_iff,
        ?Z.ltb_lt, ?Z.ltb_ge, ?Z.eqb_eq, ?Z.eqb_neq; lia.
  - intros y x H. exact H.
Qed.

Lemma has_user_spec key m : has_user key m = true <-> key ∈ b_user <$> m.
Proof.
  unfold has_user. induction m as [|r m IH]; simpl.
  - split; [discriminate | intros H; by apply elem_of_nil in H].
  - rewrite orb_true_iff, IH, elem_of_cons, String.eqb_eq. split; intros [?|?]; auto.
Qed.

Lemma record_loan_map now loan (m : list Borrower) :
  NoDup (b_user <$> m) ->
  record_loan now loan m
  = (fun r => if String.eqb (b_user r) (loan_userId loan) then push now loan r else r) <$> m.
Proof.
  induction m as [|r m IH]; [reflexivity|].
  rewrite fmap_cons. intros Hnd. apply NoDup_cons in Hnd as [Hr Hnd].
  simpl. destruct (String.eqb_spec (b_user r) (loan_userId loan)) as [E|E].
  - f_equal. symmetry. rewrite <- (list_fmap_id m) at 2. apply list_fmap_ext.
    intros i x Hx. destruct (String.eqb_spec (b_user x) (loan_userId loan)) as [E'|]; [|done].
    exfalso. apply Hr. rewrite E, <- E'. apply list_elem_of_fmap. exists x.
    split; [done|]. by eapply list_elem_of_lookup_2.
  - f_equal. by apply IH.
Qed.

Lemma touched_keys now loan (m : list Borrower) :
  b_user <$> ((fun r => if String.eqb (b_user r) (loan_userId loan)
                        then push now loan r else r) <$> m)
  = b_user <$> m.
Proof.
  rewrite <- list_fmap_compose. apply list_fmap_ext. intros i r _. simpl.
  by destruct (String.eqb (b_user r) (loan_userId loan)).
Qed.

Lemma touched_totals now loan (m : list Borrower) :
  NoDup (b_user <$> m) -> loan_userId loan ∈ b_user <$> m ->
  let m' := (fun r => if String.eqb (b_user r) (loan_userId loan)
                      then push now loan r else r) <$> m in
  total_overdue m' = total_overdue m + (if overdue now loan then 1 else 0)
  /\ length (all_loans m') = S (length (all_loans m)).
Proof.
  induction m as [|r m IH]; [intros _ H; by apply elem_of_nil in H|].
  rewrite fmap_cons. intros Hnd Hin. apply NoDup_cons in Hnd as [Hr Hnd].
  cbn zeta. rewrite fmap_cons. unfold total_overdue, all_loans.
  rewrite !fmap_cons. cbn [foldr concat]. rewrite !length_app.
  fold (total_overdue m). fold (all_loans m).
  destruct (String.eqb_spec (b_user r) (loan_userId loan)) as [E|E].
  - assert ((fun r0 => if String.eqb (b_user r0) (loan_userId loan)
                       then push now loan r0 else r0) <$> m = m) as ->.
    { rewrite <- (list_fmap_id m) at 2. apply list_fmap_ext.
      intros i x Hx.
      destruct (String.eqb_spec (b_user x) (loan_userId loan)) as [E'|]; [|done].
      exfalso. apply Hr. rewrite E, <- E'. apply list_elem_of_fmap. exists x.
      split; [done|]. by eapply list_elem_of_lookup_2. }
    fold (total_overdue m). fold (all_loans m).
    cbn [push overdueCount b_activeLoans]. rewrite length_app. simpl. split; lia.
  - apply elem_of_cons in Hin as [Hin|Hin]; [congruence|].
    destruct (IH Hnd Hin) as [H1 H2]. cbn zeta in H1, H2.
    unfold total_overdue in H1 at 1. unfold all_loans in H2 at 1.
    rewrite H1, H2. split; lia.
Qed.

Lemma List_filter_snoc {A} (f : A -> bool) l x :
  List.filter f (l ++ [x]) = List.filter f l ++ (if f x then [x] else []).
Proof. rewrite List.filter_app. simpl. by destruct (f x). Qed.

Lemma List_filter_none {A} (f : A -> bool) l :
  (forall x, x ∈ l -> f x = false) -> List.filter f l = [].
Proof.
  induction l as [|x l IH]; [reflexivity|]. intros H. simpl.
  rewrite (H x) by (by left). apply IH. intros y Hy. apply H. by right.
Qed.

(** The state of the grouping after the loans [done] were visited. *)
Lemma group_step_invariant now done m loan :
  NoDup (b_user <$> m) ->
  (forall u, u ∈ b_user <$> m <-> exists l, l ∈ done /\ loan_userId l = u) ->
  Forall (fun r =>
            b_activeLoans r
            = List.filter (fun l => String.eqb (loan_userId l) (b_user r)) done
            /\ overdueCount r
               = Z.of_nat (length (List.filter (overdue now) (b_activeLoans r)))) m ->
  total_overdue m = Z.of_nat (length (List.filter (overdue now) done)) ->
  length (all_loans m) = length done ->
  let m' := group_step now m loan in
  let done' := done ++ [loan] in
  NoDup (b_user <$> m')
  /\ (forall u, u ∈ b_user <$> m' <-> exists l, l ∈ done' /\ loan_userId l = u)
  /\ Forall (fun r =>
               b_activeLoans r
               = List.filter (fun l => String.eqb (loan_userId l) (b_user r)) done'
               /\ overdueCount r
                  = Z.of_nat (length (List.filter (overdue now) (b_activeLoans r)))) m'
  /\ total_overdue m' = Z.of_nat (length (List.filter (overdue now) done'))
  /\ length (all_loans m') = length done'.
Proof.
  intros Hnd Hkeys Hall Htot Hlen m' done'. subst m' done'. unfold group_step.
  set (key := loan_userId loan).
  set (m1 := if negb (has_user key m)
             then m ++ [{| b_user := key; b_activeLoans := []; overdueCount := 0 |}]
             else m).
  assert (NoDup (b_user <$> m1)
          /\ (forall u, u ∈ b_user <$> m1 <-> u = key \/ u ∈ b_user <$> m)
          /\ Forall (fun r =>
               b_activeLoans r
               = List.filter (fun l => String.eqb (loan_userId l) (b_user r)) done
               /\ overdueCount r
                  = Z.of_nat (length (List.filter (overdue now) (b_activeLoans r)))) m1
          /\ total_overdue m1 = total_overdue m
          /\ length (all_loans m1) = length (all_loans m)) as (Hnd1 & Hkeys1 & Hall1 & Htot1 & Hlen1).
  { subst m1. destruct (has_user key m) eqn:Eh; cbn [negb].
    - apply has_user_spec in Eh. repeat split; try done.
      + by right.
      + by intros [->|?].
    - assert (key ∉ b_user <$> m) as Hnot.
      { intros H. apply has_user_spec in H. congruence. }
      rewrite fmap_app. cbn [fmap list_fmap b_user]. repeat split.
      + apply NoDup_app. split; [done|]. split; [|apply NoDup_singleton].
        intros x Hx Hx'. apply list_elem_of_singleton in Hx'. congruence.
      + intros H. apply elem_of_app in H as [H|H]; [by right|].
        apply list_elem_of_singleton in H. by left.
      + intros [->|H]; apply elem_of_app; [right; by apply list_elem_of_singleton | by left].
      + apply Forall_app. split; [done|]. constructor; [|constructor].
        cbn [b_activeLoans b_user overdueCount]. split; [|reflexivity].
        symmetry. apply List_filter_none. intros l Hl.
        apply String.eqb_neq. intros E. apply Hnot, Hkeys. by exists l.
      + unfold total_overdue. rewrite foldr_app. simpl. by rewrite Z.add_0_r.
      + unfold all_loans. rewrite fmap_app, concat_app, length_app. simpl. lia. }
  clearbody m1. rewrite (record_loan_map now loan m1 Hnd1).
  assert (key ∈ b_user <$> m1) as Hin by (apply Hkeys1; by left).
  destruct (touched_totals now loan m1 Hnd1 Hin) as [Ht El]. cbn zeta in Ht, El.
  rewrite touched_keys.
  split; [exact Hnd1|]. split.
  { intros u. rewrite Hkeys1, Hkeys. split.
    - intros [->|(l & Hl & Hu)].
      + exists loan. split; [apply elem_of_app; right; by apply list_elem_of_singleton | done].
      + exists l. split; [apply elem_of_app; by left | done].
    - intros (l & Hl & Hu). apply elem_of_app in Hl as [Hl|Hl].
      + right. by exists l.
      + apply list_elem_of_singleton in Hl as ->. by left. }
  split.
  { apply Forall_fmap. eapply Forall_impl; [exact Hall1|].
    intros r [H1 H2]. unfold compose. cbn beta. fold key.
    destruct (String.eqb_spec (b_user r) key) as [E|E].
    - cbn [push b_user b_activeLoans overdueCount].
      rewrite List_filter_snoc. fold key. rewrite E, String.eqb_refl.
      rewrite E in H1. split; [by rewrite H1|].
      rewrite List_filter_snoc, length_app, H2.
      destruct (overdue now loan); simpl; lia.
    - rewrite List_filter_snoc. fold key.
      assert (String.eqb key (b_user r) = false) as ->
        by (apply String.eqb_neq; congruence).
      rewrite app_nil_r. by split. }
  split.
  { rewrite Ht, Htot1, Htot, List_filter_snoc, length_app.
    destruct (overdue now loan); simpl; lia. }
  rewrite El, Hlen1, Hlen, length_app. simpl. lia.
Qed.

Lemma group_fold_invariant now xs : forall done m,
  NoDup (b_user <$> m) ->
  (forall u, u ∈ b_user <$> m <-> exists l, l ∈ done /\ loan_userId l = u) ->
  Forall (fun r =>
            b_activeLoans r
            = List.filter (fun l => String.eqb (loan_userId l) (b_user r)) done
            /\ overdueCount r
               = Z.of_nat (length (List.filter (overdue now) (b_activeLoans r)))) m ->
  total_overdue m = Z.of_nat (length (List.filter (overdue now) done)) ->
  length (all_loans m) = length done ->
  let m' := fold_left (group_step now) xs m in
  let done' := done ++ xs in
  NoDup (b_user <$> m')
  /\ (forall u, u ∈ b_user <$> m' <-> exists l, l ∈ done' /\ loan_userId l = u)
  /\ Forall (fun r =>
               b_activeLoans r
               = List.filter (fun l => String.eqb (loan_userId l) (b_user r)) done'
               /\ overdueCount r
                  = Z.of_nat (length (List.filter (overdue now) (b_activeLoans r)))) m'
  /\ total_overdue m' = Z.of_nat (length (List.filter (overdue now) done'))
  /\ length (all_loans m') = length done'.
Proof.
  induction xs as [|x xs IH]; intros done m H1 H2 H3 H4 H5.
  - cbn zeta. rewrite app_nil_r. simpl. done.
  - cbn zeta. simpl fold_left.
    destruct (group_step_invariant now done m x H1 H2 H3 H4 H5) as (A1 & A2 & A3 & A4 & A5).
    replace (done ++ x :: xs) with ((done ++ [x]) ++ xs) by (by rewrite <- app_assoc).
    by apply IH.
Qed.

Lemma count_positive_le m :
  Forall (fun r => 0 <= overdueCount r) m ->
  Z.of_nat (length (List.filter (fun r => 0 <? overdueCount r) m)) <= total_overdue m.
Proof.
  induction 1 as [|r m Hr Hm IH]; [done|].
  unfold total_overdue. simpl. fold (total_overdue m).
  destruct (Z.ltb_spec 0 (overdueCount r)); simpl length; lia.
Qed.

(** X15.  The overview groups the active loans by borrower: every borrower with
    an active loan has exactly one record, which holds that borrower's
    active loans in the order of the listing (by due date, then by checkout
    time) and counts those that are overdue; every active loan is on one
    record; the overdue loans are the active loans that are due before now;
    the overdue counts add up to their number, and [overdueUsers] counts
    the records with an overdue loan.  Only an administrator gets it. *)
Theorem overview_groups_active_loans now viewer s :
  match admin_overview now viewer s with
  | Ok o =>
      (exists v, viewer = Some v /\ is_admin v = true)
      /\ NoDup (b_user <$> borrowers o)
      /\ (forall u, u ∈ b_user <$> borrowers o
                    <-> exists l, l ∈ loans s /\ is_active l = true /\ loan_userId l = u)
      /\ Forall (fun r =>
                   b_activeLoans r
                   = List.filter (fun l => String.eqb (loan_userId l) (b_user r))
                       (active_by_due s)
                   /\ b_activeLoans r <> []
                   /\ StronglySorted due_le (b_activeLoans r)
                   /\ overdueCount r
                      = Z.of_nat (length (List.filter (overdue now) (b_activeLoans r))))
                (borrowers o)
      /\ length (all_loans (borrowers o)) = length (List.filter is_active (loans s))
      /\ StronglySorted due_le (active_by_due s)
      /\ active_by_due s ≡ₚ List.filter is_active (loans s)
      /\ overdueLoans o = List.filter (overdue now) (active_by_due s)
      /\ total_overdue (borrowers o) = Z.of_nat (length (overdueLoans o))
      /\ overdueUsers o
         = Z.of_nat (length (List.filter
                               (fun r => existsb (overdue now) (b_activeLoans r))
                               (borrowers o)))
      /\ 0 <= overdueUsers o <= Z.of_nat (length (overdueLoans o))
  | Err e =>
      e = match viewer with
          | None => Unauthorized
          | Some _ => Forbidden
          end
      /\ forall v, viewer = Some v -> is_admin v = false
  end.
Proof.
  unfold admin_overview. destruct viewer as [v|]; [|split; [done|discriminate]].
  destruct (is_admin v) eqn:Ea; cbn [negb]; [|split; [done|congruence]].
  destruct (group_fold_invariant now (active_by_due s) [] [] ltac:(constructor)
              ltac:(intros u; split; [intros H; by apply elem_of_nil in H
                                     | intros (l & H & _); by apply elem_of_nil in H])
              ltac:(constructor) eq_refl eq_refl) as (H1 & H2 & H3 & H4 & H5).
  cbn zeta in H1, H2, H3, H4, H5. rewrite app_nil_l in H2, H3, H4, H5.
  cbn [borrowers overdueLoans overdueUsers].
  set (m := fold_left (group_step now) (active_by_due s) []) in *.
  assert (active_by_due s ≡ₚ List.filter is_active (loans s)) as Hperm
    by apply (sort_by_perm due_first).
  split; [by exists v|]. split; [exact H1|]. split.
  { intros u. rewrite H2. split; intros (l & Hl & Hu).
    - rewrite Hperm in Hl. apply elem_of_List_filter in Hl as [Hl Hact]. by exists l.
    - destruct Hu as [Hact Hu]. exists l. split; [|done].
      rewrite Hperm. by apply elem_of_List_filter. }
  split.
  { apply Forall_forall. intros r Hr.
    pose proof (proj1 (Forall_forall _ _) H3 r Hr) as [E1 E2]. cbn beta in E1, E2.
    split; [exact E1|]. split; [|split; [|exact E2]].
    - assert (b_user r ∈ b_user <$> m) as Hk
        by (apply list_elem_of_fmap; by exists r).
      apply H2 in Hk as (l & Hl & Hu). intros E.
      assert (l ∈ b_activeLoans r) as Hin.
      { rewrite E1. apply elem_of_List_filter. split; [done|]. by apply String.eqb_eq. }
      rewrite E in Hin. by apply elem_of_nil in Hin.
    - rewrite E1. clear. pose proof (due_first_sorted (List.filter is_active (loans s))) as Hs.
      fold (active_by_due s) in Hs. induction Hs as [|x l Hl IH Hx]; simpl; [constructor|].
      destruct (String.eqb (loan_userId x) (b_user r)); [|exact IH].
      constructor; [exact IH|]. apply Forall_forall. intros y Hy.
      apply elem_of_List_filter in Hy as [Hy _].
      by apply (proj1 (Forall_forall _ _) Hx). }
  split; [by rewrite H5, Hperm|].
  split; [apply due_first_sorted|]. split; [exact Hperm|].
  split; [reflexivity|]. split; [exact H4|].
  assert (forall r, r ∈ m ->
            (0 <? overdueCount r) = existsb (overdue now) (b_activeLoans r)) as Hpos.
  { intros r Hr. pose proof (proj1 (Forall_forall _ _) H3 r Hr) as [_ E2]. cbn beta in E2.
    rewrite E2. clear. induction (b_activeLoans r) as [|l ls IH]; [reflexivity|].
    simpl. destruct (overdue now l); simpl; [|exact IH]. apply Z.ltb_lt. lia. }
  split.
  { f_equal. f_equal. clear -Hpos. induction m as [|r m IH]; [reflexivity|].
    simpl. rewrite (Hpos r) by (by left).
    rewrite IH by (intros x Hx; apply Hpos; by right). reflexivity. }
  split; [lia|]. rewrite <- H4. apply count_positive_le.
  eapply Forall_impl; [exact H3|]. intros r [_ E]. cbn beta in E. lia.
Qed.

End DeskFacts.

(** ** Listing of borrow requests and unread decisions *)

Section RequestListFacts.
Import Db Lending Requests Ledger.

Variable dueEstimate : Book -> ReadingTime.DueDateEstimate.

Lemma count_fmap (f g : BorrowRequest -> bool) (h : BorrowRequest -> BorrowRequest) l :
  (forall x, f (h x) = g x) ->
  length (List.filter f (h <$> l)) = length (List.filter g l).
Proof.
  intros H. induction l as [|x l IH]; [reflexivity|].
  rewrite fmap_cons. simpl. rewrite H. destruct (g x); simpl; by rewrite IH.
Qed.

Lemma count_none (f : BorrowRequest -> bool) l :
  (forall x, f x = false) -> length (List.filter f l) = 0%nat.
Proof. intros H. induction l as [|x l IH]; [reflexivity|]. simpl. by rewrite H. Qed.

Lemma unread_after_mark now v u x :
  unread u (if unread (viewer_id v) x then set_memberSeenAt (Some now) x else x)
  = unread u x && negb (String.eqb (req_userId x) (viewer_id v)).
Proof.
  unfold unread, decided.
  destruct x as [i xu xb st rb ra seen]. cbn [req_userId status memberSeenAt].
  destruct (String.eqb xu (viewer_id v)) eqn:E1, (String.eqb xu u) eqn:E2, st, seen;
    cbn; rewrite ?E1, ?E2; reflexivity.
Qed.

(** A member who marks as seen is told the number of unread decisions and
    has none left. *)
Lemma mark_seen_member now v s :
  is_admin v = false ->
  (mark_seen now (Some v) s).1 = Ok (count (unread (viewer_id v)) s)
  /\ count (unread (viewer_id v)) (mark_seen now (Some v) s).2 = 0.
Proof.
  intros Hm. unfold mark_seen. rewrite Hm.
  cbn [requests_updateMany fst snd]. unfold count. cbn [requests set_requests].
  split; [reflexivity|].
  rewrite (count_fmap _ (fun _ => false)); [by rewrite count_none|].
  intros x. rewrite unread_after_mark. unfold unread.
  destruct (String.eqb (req_userId x) (viewer_id v)); [by rewrite andb_false_r | done].
Qed.

(** X17.  Marking as seen answers a member with the number of the member's
    unread decisions and leaves none unread; the unread decisions of the
    other users, the pending requests, the status of every request, the
    books and the loans are as before; a second call answers 0.  For an
    administrator it answers 0 and writes nothing. *)
Theorem mark_seen_clears_unread now v s :
  let r := (mark_seen now (Some v) s).1 in
  let s' := (mark_seen now (Some v) s).2 in
  if is_admin v then r = Ok 0 /\ s' = s
  else
    r = Ok (count (unread (viewer_id v)) s)
    /\ count (unread (viewer_id v)) s' = 0
    /\ (forall u, u <> viewer_id v -> count (unread u) s' = count (unread u) s)
    /\ books s' = books s /\ loans s' = loans s /\ users s' = users s
    /\ length (requests s') = length (requests s)
    /\ (forall i r0, requests s !! i = Some r0 ->
          requests s' !! i
          = Some (if unread (viewer_id v) r0 then set_memberSeenAt (Some now) r0 else r0))
    /\ (forall k, pending_requests k s' = pending_requests k s)
    /\ mark_seen now (Some v) s' = (Ok 0, s').
Proof.
  cbn zeta. unfold mark_seen. destruct (is_admin v); [done|].
  cbn [requests_updateMany fst snd]. unfold count. cbn [requests set_requests].
  set (h := fun r => if unread (viewer_id v) r then set_memberSeenAt (Some now) r else r).
  assert (forall u x, unread u (h x)
                      = unread u x && negb (String.eqb (req_userId x) (viewer_id v)))
    as Hh.
  { intros u x. subst h. cbn beta. unfold unread, decided.
    destruct x as [i xu xb st rb ra seen]. cbn [req_userId status memberSeenAt].
    destruct (String.eqb xu (viewer_id v)) eqn:E1, (String.eqb xu u) eqn:E2, st, seen;
      cbn; rewrite ?E1, ?E2; reflexivity. }
  split; [reflexivity|]. split.
  { rewrite (count_fmap _ (fun _ => false)); [by rewrite count_none|].
    intros x. rewrite Hh. unfold unread.
    destruct (String.eqb (req_userId x) (viewer_id v)); [by rewrite andb_false_r | done]. }
  split.
  { intros u Hu. f_equal. apply count_fmap. intros x. rewrite Hh.
    unfold unread. destruct (String.eqb_spec (req_userId x) u) as [E|E]; [|done].
    destruct (String.eqb_spec (req_userId x) (viewer_id v)) as [E'|E']; [congruence|].
    by rewrite andb_true_r. }
  do 3 (split; [reflexivity|]).
  split; [by rewrite length_fmap|].
  split; [intros i r0 Hi; by rewrite list_lookup_fmap, Hi|].
  split.
  { intros k. unfold pending_requests. cbn [requests set_requests].
    induction (requests s) as [|x l IH]; [reflexivity|].
    rewrite fmap_cons, !filter_cons, IH.
    assert (status (h x) = status x /\ req_bookId (h x) = req_bookId x) as [E1 E2]
      by (subst h; cbn beta; by destruct (unread (viewer_id v) x)).
    rewrite E1, E2.
    destruct (decide (status_eqb (status x) PENDING = true /\ req_bookId x = k))
      as [[Hp _]|]; [|reflexivity].
    f_equal. subst h. cbn beta. unfold unread, decided.
    destruct (status x); try discriminate. cbn [status_eqb orb].
    by rewrite andb_false_r. }
  assert (length (List.filter (unread (viewer_id v)) (h <$> requests s)) = 0%nat) as E0.
  { rewrite (count_fmap _ (fun _ => false)); [by rewrite count_none|].
    intros x. rewrite Hh. unfold unread.
    destruct (String.eqb (req_userId x) (viewer_id v)); [by rewrite andb_false_r | done]. }
  cbn [requests set_requests]. rewrite E0.
  assert (h <$> (h <$> requests s) = h <$> requests s) as Hhh.
  { rewrite <- list_fmap_compose. apply list_fmap_ext. intros i x _. unfold compose.
    assert (unread (viewer_id v) (h x) = false) as E.
    { rewrite Hh. unfold unread.
      destruct (String.eqb (req_userId x) (viewer_id v)); [by rewrite andb_false_r | done]. }
    unfold h at 1. by rewrite E. }
  unfold set_requests. cbn [books users loans requests]. fold h. by rewrite Hhh.
Qed.

Lemma List_filter_insert_length {A} (f : A -> bool) (l : list A) i x y :
  l !! i = Some x ->
  (length (List.filter f (<[i := y]> l)) + (if f x then 1 else 0)
   = length (List.filter f l) + (if f y then 1 else 0))%nat.
Proof.
  intros Hi. rewrite insert_take_drop by (by eapply lookup_lt_Some).
  rewrite <- (take_drop_middle l i x Hi) at 3.
  rewrite !List.filter_app, !length_app. simpl.
  destruct (f x), (f y); simpl; lia.
Qed.

Lemma sublist_rev {A} (l k : list A) :
  l `sublist_of` k -> reverse l `sublist_of` reverse k.
Proof.
  induction 1 as [|x l k Hlk IH|x l k Hlk IH]; [constructor| |].
  - rewrite !reverse_cons. by apply sublist_app.
  - rewrite reverse_cons. by apply sublist_inserts_r.
Qed.

Lemma reviewed_unread st now v i r u s :
  st <> PENDING -> requests s !! i = Some r -> status r = PENDING ->
  Z.of_nat (length (List.filter (unread u) (<[i := review st now v r]> (requests s))))
  = count (unread u) s + (if String.eqb (req_userId r) u then 1 else 0).
Proof.
  intros Hst Hi Hp. unfold count.
  pose proof (List_filter_insert_length (unread u) (requests s) i r (review st now v r) Hi)
    as E.
  assert (unread u r = false) as Hr
    by (unfold unread, decided; rewrite Hp; cbn;
        destruct (String.eqb (req_userId r) u); reflexivity).
  assert (unread u (review st now v r) = String.eqb (req_userId r) u) as Hr'.
  { unfold unread, decided. cbn [review req_userId status memberSeenAt JS.defined negb].
    destruct st; [done| |]; cbn; destruct (String.eqb (req_userId r) u); reflexivity. }
  rewrite Hr, Hr' in E. destruct (String.eqb (req_userId r) u); lia.
Qed.

(** X18.  A decision on a borrow request is one unread notice for the member who
    asked, and for nobody else: approving or declining adds one to that
    member's count of unread decisions, marking as seen then answers with
    the count and brings it to zero; a new request is no notice for
    anybody. *)
Theorem decision_is_unread_until_seen now admin requestId r s :
  is_admin admin = true ->
  requests s !! requestId = Some r -> status r = PENDING ->
  let declined := (decline now (Some admin) requestId s).2 in
  let approved := approve dueEstimate now (Some admin) requestId s in
  (forall u, count (unread u) declined
             = count (unread u) s + (if String.eqb (req_userId r) u then 1 else 0))
  /\ (forall x, approved.1 = Ok x ->
        forall u, count (unread u) approved.2
                  = count (unread u) s + (if String.eqb (req_userId r) u then 1 else 0))
  /\ (forall now' m, is_admin m = false -> viewer_id m = req_userId r ->
        (mark_seen now' (Some m) declined).1 = Ok (count (unread (req_userId r)) s + 1)
        /\ count (unread (req_userId r)) (mark_seen now' (Some m) declined).2 = 0)
  /\ (forall now' w b x, (create_request now' w b s).1 = Ok x ->
        forall u, count (unread u) (create_request now' w b s).2 = count (unread u) s).
Proof.
  intros Hadmin Hr Hp declined approved.
  assert (status_eqb (status r) PENDING = true) as Es by (by rewrite Hp).
  assert (forall u, count (unread u) declined
             = count (unread u) s + (if String.eqb (req_userId r) u then 1 else 0)) as Hd.
  { intros u. subst declined. unfold decline, review_precheck.
    rewrite Hadmin, Hr, Es. cbn [negb]. rewrite decline_tx_cases, Hr, Es. cbn [snd].
    unfold count at 1. cbn [requests]. by apply reviewed_unread. }
  split; [exact Hd|]. split.
  { intros x Hx u. subst approved. revert Hx. unfold approve, review_precheck.
    rewrite Hadmin, Hr, Es. cbn [negb]. rewrite approve_tx_cases, Hr, Es.
    destruct (books s !! req_bookId r) as [book|]; [|discriminate].
    destruct (available book && requestPending book); [|discriminate].
    destruct (bool_decide (req_userId r ∈ users s)); [|discriminate].
    intros _. cbn [snd]. unfold count at 1. cbn [requests]. by apply reviewed_unread. }
  split.
  { intros now' m Hm Hid.
    destruct (mark_seen_member now' m declined Hm) as (H1 & H2).
    rewrite H1, Hid, Hd, String.eqb_refl. split; [reflexivity|].
    by rewrite <- Hid. }
  intros now' w b x. unfold create_request.
  destruct w as [v|]; [|discriminate]. destruct (is_admin v); [discriminate|].
  rewrite create_request_tx_cases.
  destruct (books s !! b) as [book|]; [|discriminate].
  destruct (available book && negb (requestPending book)); [|discriminate].
  destruct (bool_decide (viewer_id v ∈ users s)); [|discriminate].
  intros _ u. cbn [snd]. unfold count. cbn [requests].
  rewrite List.filter_app, length_app. simpl.
  unfold unread at 2. unfold decided. cbn. rewrite andb_false_r. simpl. lia.
Qed.

(** X16.  The listing of borrow requests shows a member the member's own
    requests only and an administrator, unless a status is asked for, the
    pending ones; it holds at most [limit] rows, the newest first, and all
    matching rows when there are no more than [limit]; the pending count is
    for administrators and the unread count for members. *)
Theorem request_listing_scoped v filter limit s :
  exists out,
    list_requests (Some v) filter limit s = Ok out
    /\ (length (data out) <= limit)%nat
    /\ data out `sublist_of` reverse (requests s)
    /\ Forall (fun r =>
                 r ∈ requests s
                 /\ (is_admin v = false -> req_userId r = viewer_id v)
                 /\ (forall st, filter = Some st -> status r = st)
                 /\ (filter = None -> is_admin v = true -> status r = PENDING))
              (data out)
    /\ ((length (List.filter (requests_where v filter) (requests s)) <= limit)%nat ->
        forall r, r ∈ requests s -> requests_where v filter r = true -> r ∈ data out)
    /\ pendingCount out
       = (if is_admin v
          then Z.of_nat (length (List.filter (fun r => status_eqb (status r) PENDING)
                                   (requests s)))
          else 0)
    /\ unreadForMember out
       = (if is_admin v then 0 else count (unread (viewer_id v)) s)
    /\ list_requests None filter limit s = Err Unauthorized.
Proof.
  eexists. split; [reflexivity|]. cbn [data pendingCount unreadForMember].
  split; [rewrite length_take; lia|].
  split.
  { etrans; [apply sublist_take|]. apply sublist_rev.
    clear. induction (requests s) as [|x l IH]; simpl; [constructor|].
    destruct (requests_where v filter x); by constructor. }
  split.
  { apply Forall_forall. intros r Hr. apply subseteq_take in Hr.
    rewrite elem_of_reverse in Hr. apply elem_of_List_filter in Hr as [Hin Hw].
    split; [exact Hin|]. unfold requests_where in Hw.
    apply andb_true_iff in Hw as [H1 H2]. split; [|split].
    - intros Hm. rewrite Hm in H1. by apply String.eqb_eq in H1.
    - intros st ->. by apply status_eqb_spec in H2.
    - intros -> Ha. rewrite Ha in H2. by apply status_eqb_spec in H2. }
  split.
  { intros Hlen r Hin Hw. rewrite take_ge by (by rewrite length_reverse).
    rewrite elem_of_reverse. apply elem_of_List_filter. by split. }
  split; [by destruct (is_admin v)|]. split; [by destruct (is_admin v)|]. reflexivity.
Qed.

End RequestListFacts.

(** ** Import by query *)

Section DedupeFacts.
Import Db ExternalBooks.

Lemma dedupe_from_sublist seen l : dedupe_from seen l `sublist_of` l.
Proof.
  revert seen. induction l as [|c l IH]; intros seen; simpl; [constructor|].
  case_bool_decide; [by apply sublist_cons | by apply sublist_skip].
Qed.

Lemma dedupe_from_keys seen l :
  NoDup (dedupe_key <$> dedupe_from seen l)
  /\ (forall k, k ∈ dedupe_key <$> dedupe_from seen l -> k ∉ seen).
Proof.
  revert seen. induction l as [|c l IH]; intros seen; simpl.
  - split; [constructor|]. intros k H. by apply elem_of_nil in H.
  - case_bool_decide as Hc; [apply IH|].
    destruct (IH ({[dedupe_key c]} ∪ seen)) as [H1 H2].
    rewrite fmap_cons. split.
    + constructor; [|exact H1]. intros Hin. apply H2 in Hin. set_solver.
    + intros k Hk. apply elem_of_cons in Hk as [->|Hk]; [exact Hc|].
      apply H2 in Hk. set_solver.
Qed.

Lemma dedupe_from_complete seen l c :
  c ∈ l -> dedupe_key c ∈ seen
           \/ exists c', c' ∈ dedupe_from seen l /\ dedupe_key c' = dedupe_key c.
Proof.
  revert seen. induction l as [|x l IH]; intros seen Hin; [by apply elem_of_nil in Hin|].
  simpl. apply elem_of_cons in Hin as [->|Hin].
  - case_bool_decide; [by left|]. right. exists x. split; [by left | done].
  - case_bool_decide as Hx.
    + by apply IH.
    + destruct (IH ({[dedupe_key x]} ∪ seen) Hin) as [H|(c' & Hc' & E)].
      * apply elem_of_union in H as [H|H]; [|by left].
        apply elem_of_singleton in H. right. exists x. split; [by left | done].
      * right. exists c'. split; [by right | done].
Qed.

Lemma dedupe_from_first seen l c :
  c ∈ dedupe_from seen l ->
  dedupe_key c ∉ seen
  /\ exists pre post, l = pre ++ c :: post
       /\ dedupe_key c ∉ dedupe_key <$> pre.
Proof.
  revert seen. induction l as [|x l IH]; intros seen; simpl;
    [intros H; by apply elem_of_nil in H|].
  case_bool_decide as Hx.
  - intros Hin. destruct (IH _ Hin) as (H1 & pre & post & -> & H2).
    split; [exact H1|]. exists (x :: pre), post. split; [reflexivity|].
    rewrite fmap_cons. intros H. apply elem_of_cons in H as [H|H]; [congruence | done].
  - intros Hin. apply elem_of_cons in Hin as [->|Hin].
    + split; [exact Hx|]. exists [], l. split; [reflexivity|].
      intros H. by apply elem_of_nil in H.
    + destruct (IH _ Hin) as (H1 & pre & post & -> & H2).
      split; [set_solver|]. exists (x :: pre), post. split; [reflexivity|].
      rewrite fmap_cons. intros H. apply elem_of_cons in H as [H|H]; [|done].
      set_solver.
Qed.

Lemma dedupe_from_fix seen l :
  NoDup (dedupe_key <$> l) -> (forall k, k ∈ dedupe_key <$> l -> k ∉ seen) ->
  dedupe_from seen l = l.
Proof.
  revert seen. induction l as [|x l IH]; intros seen Hnd Hseen; [reflexivity|].
  rewrite fmap_cons in Hnd, Hseen. apply NoDup_cons in Hnd as [Hx Hnd].
  simpl. rewrite bool_decide_eq_false_2 by (apply Hseen; by left).
  f_equal. apply IH; [exact Hnd|].
  intros k Hk. specialize (Hseen k ltac:(by right)). set_solver.
Qed.

(** X6.  Deduplication keeps, in their order, exactly the candidates that are
    the first with their key, the key being the ISBN when there is one and
    else title and author in lower case: no two kept candidates share a
    key, every candidate has its key kept, a list without repeated keys is
    returned as it is, and deduplicating twice changes nothing more. *)
Theorem dedupe_keeps_first_of_each_key candidates :
  let out := dedupeCandidates candidates in
  out `sublist_of` candidates
  /\ NoDup (dedupe_key <$> out)
  /\ (forall c, c ∈ candidates ->
        exists c', c' ∈ out /\ dedupe_key c' = dedupe_key c)
  /\ (forall c, c ∈ out ->
        exists pre post, candidates = pre ++ c :: post
          /\ dedupe_key c ∉ dedupe_key <$> pre)
  /\ head out = head candidates
  /\ (NoDup (dedupe_key <$> candidates) -> out = candidates)
  /\ dedupeCandidates out = out
  /\ (forall c,
        dedupe_key c
        = match c_isbn c with
          | Some i => i
          | None => JS.toLowerCase (c_title c) +:+ "|" +:+ JS.toLowerCase (c_author c)
          end).
Proof.
  intros out. subst out. unfold dedupeCandidates.
  destruct (dedupe_from_keys ∅ candidates) as [Hnd Hseen].
  split; [apply dedupe_from_sublist|]. split; [exact Hnd|]. split.
  { intros c Hc. destruct (dedupe_from_complete ∅ candidates c Hc) as [H|H]; [set_solver|done]. }
  split; [intros c Hc; by apply (dedupe_from_first ∅)|].
  split; [destruct candidates; [reflexivity|]; simpl;
          by rewrite bool_decide_eq_false_2 by set_solver|].
  split; [intros H; apply dedupe_from_fix; [exact H | set_solver]|].
  split; [apply dedupe_from_fix; [exact Hnd | set_solver]|].
  reflexivity.
Qed.

End DedupeFacts.

Section ImportSearchFacts.
Import Db ExternalBooks ExternalSearch.

Variable searchGoogleBooks : string -> Z -> list ExternalBookCandidate.
Variable searchOpenLibrary : string -> Z -> list ExternalBookCandidate.

Lemma dedupe_nil_iff l : dedupeCandidates l = [] <-> l = [].
Proof.
  split; [|by intros ->]. destruct l as [|c l]; [done|].
  unfold dedupeCandidates. simpl. by rewrite bool_decide_eq_false_2 by set_solver.
Qed.

Lemma length_pos_iff {A} (l : list A) : (0 <? Z.of_nat (length l)) = true <-> l <> [].
Proof. destruct l; simpl; split; (done || lia). Qed.

Lemma slice0_nil {A} limit : slice0 limit (@nil A) = [].
Proof. unfold slice0. destruct (0 <=? limit); by rewrite take_nil. Qed.

Lemma slice0_sublist {A} limit (l : list A) : slice0 limit l `sublist_of` l.
Proof. unfold slice0. destruct (0 <=? limit); apply sublist_take. Qed.

Lemma slice0_length {A} limit (l : list A) :
  0 <= limit -> Z.of_nat (length (slice0 limit l)) <= limit.
Proof.
  intros H. unfold slice0. rewrite (proj2 (Z.leb_le 0 limit) H), length_take. lia.
Qed.

Lemma slice0_nil_iff {A} limit (l : list A) : 1 <= limit -> slice0 limit l = [] <-> l = [].
Proof.
  intros H. unfold slice0. rewrite (proj2 (Z.leb_le 0 limit)) by lia.
  destruct l as [|x l]; [by rewrite take_nil|].
  destruct (Z.to_nat limit) eqn:E; [lia|]. done.
Qed.

Lemma sublist_keys_NoDup (l k : list ExternalBookCandidate) :
  l `sublist_of` k -> NoDup (dedupe_key <$> k) -> NoDup (dedupe_key <$> l).
Proof.
  intros Hs Hk. eapply sublist_NoDup; [exact Hk | by apply fmap_sublist].
Qed.

(** X7.  The import search trims the query and asks nobody when nothing is left.
    With a forced provider it asks that provider only; otherwise it asks
    Open Library first and Google Books only when Open Library gave
    nothing, and then reports the fallback.  (The enrichment search asks in
    the opposite order.)  The answer holds the deduplicated candidates of
    the provider that answered, cut to the limit; for a limit of at least 1
    a source is reported exactly when the answer holds a candidate. *)
Theorem import_search_order query limit provider :
  let run := searchExternalBooks searchGoogleBooks searchOpenLibrary query limit provider in
  let q := JS.trim query in
  let fromOL := searchOpenLibrary q limit in
  let fromGoogle := searchGoogleBooks q limit in
  (q = "" ->
     calls run = []
     /\ result run = {| r_books := []; sourceUsed := None; fallbackUsed := false |})
  /\ (q <> "" ->
      calls run
      = match provider with
        | openlibrary => [SearchOpenLibrary q limit]
        | google => [SearchGoogle q limit]
        | auto => SearchOpenLibrary q limit
                  :: (if bool_decide (fromOL = []) then [SearchGoogle q limit] else [])
        end
      /\ r_books (result run)
         = slice0 limit
             (dedupeCandidates
                match provider with
                | openlibrary => fromOL
                | google => fromGoogle
                | auto => if bool_decide (fromOL = []) then fromGoogle else fromOL
                end)
      /\ (fallbackUsed (result run) = true <-> provider = auto /\ fromOL = [])
      /\ (1 <= limit ->
          sourceUsed (result run)
          = match provider with
            | openlibrary => if bool_decide (fromOL = []) then None else Some from_openlibrary
            | google => if bool_decide (fromGoogle = []) then None else Some from_google
            | auto => if bool_decide (fromOL = [])
                      then if bool_decide (fromGoogle = []) then None else Some from_google
                      else Some from_openlibrary
            end
          /\ (sourceUsed (result run) = None <-> r_books (result run) = [])))
  /\ NoDup (dedupe_key <$> r_books (result run))
  /\ (0 <= limit -> Z.of_nat (length (r_books (result run))) <= limit)
  /\ (fromOL <> [] -> fromGoogle <> [] -> q <> "" ->
      calls (searchExternalBooks searchGoogleBooks searchOpenLibrary query limit auto)
      = [SearchOpenLibrary q limit]
      /\ calls (queryByProvider searchGoogleBooks searchOpenLibrary q limit auto)
         = [SearchGoogle q limit]).
Proof.
  intros run q fromOL fromGoogle.
  assert (forall l, (0 <? Z.of_nat (length (dedupeCandidates l))) = negb (bool_decide (l = [])))
    as Hpos.
  { intros l. destruct l as [|c l]; [reflexivity|].
    rewrite bool_decide_eq_false_2 by done.
    apply length_pos_iff. rewrite dedupe_nil_iff. done. }
  assert (forall (l : list ExternalBookCandidate),
            1 <= limit ->
            (0 <? Z.of_nat (length (slice0 limit (dedupeCandidates l))))
            = negb (bool_decide (l = []))) as Hpos'.
  { intros l Hl. destruct (decide (l = [])) as [->|Hne].
    - change (dedupeCandidates []) with (@nil ExternalBookCandidate).
      by rewrite slice0_nil.
    - rewrite bool_decide_eq_false_2 by done. apply length_pos_iff.
      rewrite slice0_nil_iff by done. by rewrite dedupe_nil_iff. }
  split.
  { intros Hq. subst run. unfold searchExternalBooks. fold q. rewrite Hq. done. }
  split.
  { intros Hq. subst run. unfold searchExternalBooks. fold q.
    assert (negb (JS.truthy q) = false) as -> by (by destruct q).
    destruct provider.
    - net_run. fold fromOL. split; [reflexivity|]. split; [reflexivity|].
      split; [split; [discriminate | intros [? _]; discriminate]|].
      intros Hl. rewrite (Hpos' _ Hl).
      destruct (decide (fromOL = [])) as [E|E].
      + rewrite bool_decide_eq_true_2 by done. split; [reflexivity|].
        rewrite E. change (dedupeCandidates []) with (@nil ExternalBookCandidate).
        by rewrite slice0_nil.
      + rewrite bool_decide_eq_false_2 by done. split; [reflexivity|].
        split; [discriminate|]. rewrite slice0_nil_iff, dedupe_nil_iff by done. done.
    - net_run. fold fromGoogle. split; [reflexivity|]. split; [reflexivity|].
      split; [split; [discriminate | intros [? _]; discriminate]|].
      intros Hl. rewrite (Hpos' _ Hl).
      destruct (decide (fromGoogle = [])) as [E|E].
      + rewrite bool_decide_eq_true_2 by done. split; [reflexivity|].
        rewrite E. change (dedupeCandidates []) with (@nil ExternalBookCandidate).
        by rewrite slice0_nil.
      + rewrite bool_decide_eq_false_2 by done. split; [reflexivity|].
        split; [discriminate|]. rewrite slice0_nil_iff, dedupe_nil_iff by done. done.
    - net_run. fold fromOL. rewrite Hpos.
      destruct (decide (fromOL = [])) as [E|E].
      + rewrite bool_decide_eq_true_2 by done. simpl. fold fromGoogle. rewrite Hpos.
        split; [reflexivity|]. split; [reflexivity|]. split; [done|].
        intros Hl. destruct (decide (fromGoogle = [])) as [E'|E'].
        * rewrite bool_decide_eq_true_2 by done. split; [reflexivity|].
          rewrite E'. change (dedupeCandidates []) with (@nil ExternalBookCandidate).
          by rewrite slice0_nil.
        * rewrite bool_decide_eq_false_2 by done. split; [reflexivity|].
          split; [discriminate|]. rewrite slice0_nil_iff, dedupe_nil_iff by done. done.
      + rewrite bool_decide_eq_false_2 by done. simpl.
        split; [reflexivity|]. split; [reflexivity|].
        split; [split; [discriminate | intros [_ ?]; done]|].
        intros Hl. split; [reflexivity|].
        split; [discriminate|]. rewrite slice0_nil_iff, dedupe_nil_iff by done. done. }
  assert (exists l, r_books (result run) = slice0 limit (dedupeCandidates l)) as [l Hl].
  { subst run. unfold searchExternalBooks. fold q.
    destruct (negb (JS.truthy q)).
    - exists []. change (dedupeCandidates []) with (@nil ExternalBookCandidate).
      by rewrite slice0_nil.
    - destruct provider.
      + eexists. net_run. reflexivity.
      + eexists. net_run. reflexivity.
      + net_run. fold fromOL.
        destruct (0 <? Z.of_nat (length (dedupeCandidates fromOL))); eexists; reflexivity. }
  split.
  { rewrite Hl. eapply sublist_keys_NoDup; [apply slice0_sublist|].
    apply (dedupe_from_keys ∅). }
  split; [intros H; rewrite Hl; by apply slice0_length|].
  intros HO HG Hq. split.
  - unfold searchExternalBooks. fold q.
    assert (negb (JS.truthy q) = false) as -> by (by destruct q).
    net_run. fold fromOL. rewrite Hpos, bool_decide_eq_false_2 by done. reflexivity.
  - rewrite queryByProvider_calls. fold fromGoogle. by destruct fromGoogle.
Qed.

End ImportSearchFacts.

(** ** Persisting the candidates of an import *)

Section PersistFacts.
Import Db ExternalBooks ExternalSearch Ledger.

Variable insensitive_equals : string -> string -> bool.
Variable newId : Store -> string.

Lemma find_row_Some (f : string * Book -> bool) s b :
  snd <$> List.find f (map_to_list (books s)) = Some b ->
  exists k, books s !! k = Some b /\ f (k, b) = true.
Proof.
  destruct (List.find f (map_to_list (books s))) as [[k b']|] eqn:E; [|discriminate].
  intros [= <-]. apply find_some in E as [Hin Hf]. exists k. split; [|exact Hf].
  apply elem_of_map_to_list. by apply list_elem_of_In.
Qed.

Lemma find_row_None (f : string * Book -> bool) s :
  snd <$> List.find f (map_to_list (books s)) = None ->
  forall k b, books s !! k = Some b -> f (k, b) = false.
Proof.
  destruct (List.find f (map_to_list (books s))) as [[k b']|] eqn:E; [discriminate|].
  intros _ k b Hk. eapply find_none in E; [exact E|].
  apply list_elem_of_In. by apply elem_of_map_to_list.
Qed.

Lemma existingByIsbn_Some c s b :
  existingByIsbn c s = Some b ->
  exists k i, books s !! k = Some b /\ c_isbn c = Some i /\ i <> "" /\ isbn b = Some i.
Proof.
  unfold existingByIsbn. destruct (c_isbn c) as [i|]; [|discriminate].
  destruct i as [|a i]; [discriminate|]. cbn [JS.truthy JS.is_empty negb].
  intros H. apply find_row_Some in H as (k & Hk & Hf).
  apply bool_decide_eq_true_1 in Hf. by exists k, (String a i).
Qed.

Lemma existingByIsbn_None c s i :
  existingByIsbn c s = None -> c_isbn c = Some i -> i <> "" ->
  forall k b, books s !! k = Some b -> isbn b <> Some i.
Proof.
  unfold existingByIsbn. intros H E Hi. rewrite E in H.
  destruct i as [|a i]; [done|]. cbn [JS.truthy JS.is_empty negb] in H.
  intros k b Hk. pose proof (find_row_None _ _ H k b Hk) as Hf.
  by apply bool_decide_eq_false_1 in Hf.
Qed.

Lemma isbn_taken_false s k i :
  (forall k' b, books s !! k' = Some b -> isbn b <> Some i) -> isbn_taken s k i = false.
Proof.
  intros H. unfold isbn_taken. apply not_true_iff_false. intros E.
  apply existsb_exists in E as ([k' b] & Hin & Hf).
  apply andb_true_iff in Hf as [_ Hf]. apply bool_decide_eq_true_1 in Hf.
  apply list_elem_of_In, elem_of_map_to_list in Hin. by eapply H.
Qed.

Lemma isbn_in_use_false s i :
  (forall k' b, books s !! k' = Some b -> isbn b <> Some i) -> isbn_in_use s i = false.
Proof.
  intros H. unfold isbn_in_use. apply not_true_iff_false. intros E.
  apply existsb_exists in E as ([k' b] & Hin & Hf).
  apply bool_decide_eq_true_1 in Hf.
  apply list_elem_of_In, elem_of_map_to_list in Hin. by eapply H.
Qed.

Lemma patch_data_keeps b0 p x :
  Spec.FillsOnlyMissing b0 p -> Spec.Keeps b0 x -> Spec.Keeps b0 (patch_data p x).
Proof.
  intros Hp Hx. pose proof (enrich_data_keeps b0 p x Hp Hx) as H.
  unfold Spec.Keeps in *. unfold enrich_data in H. cbn in H. cbn.
  destruct H as (H1 & H2 & H3 & H4 & H5 & H6 & H7 & H8 & H9 & H10 & H11 & H12 & _).
  destruct Hx as (_ & _ & _ & _ & _ & _ & _ & _ & _ & _ & _ & _ & Hflag).
  repeat split; assumption.
Qed.

Lemma fills_only_missing_mono b0 x p :
  Spec.Keeps b0 x -> Spec.FillsOnlyMissing x p -> Spec.FillsOnlyMissing b0 p.
Proof.
  intros (H1 & H2 & H3 & H4 & H5 & H6 & H7 & H8 & H9 & H10 & H11 & H12 & H13).
  intros (P1 & P2 & P3 & P4 & P5 & P6 & P7 & P8).
  unfold Spec.FillsOnlyMissing.
  repeat split; intros Hk Hpop.
  - apply (P1 Hk). by rewrite (H5 Hpop).
  - apply (P2 Hk). by rewrite (H6 Hpop).
  - apply (P3 Hk). by rewrite (H7 Hpop).
  - apply (P4 Hk). by rewrite (H8 Hpop).
  - apply (P5 Hk). by rewrite (H9 Hpop).
  - apply (P6 Hk). by rewrite (H10 Hpop).
  - apply (P7 Hk). by rewrite (H11 Hpop).
  - apply (P8 Hk). by rewrite (H12 Hpop).
Qed.

Lemma store_keeps_insert s0 s k b' :
  Spec.StoreKeeps s0 s ->
  (forall b0, books s0 !! k = Some b0 -> Spec.Keeps b0 b') ->
  Spec.StoreKeeps s0 (set_books s (<[k := b']> (books s))).
Proof.
  intros (Hb & Hu & Hl & Hr) Hk. unfold Spec.StoreKeeps. cbn.
  repeat split; try assumption.
  intros k' b0 H0. destruct (decide (k = k')) as [<-|Hne].
  - rewrite lookup_insert_eq. eexists. split; [reflexivity|]. by apply Hk.
  - rewrite lookup_insert_ne by done. by apply Hb.
Qed.

Lemma well_keyed_insert s k b' :
  WellKeyed s -> id b' = k -> WellKeyed (set_books s (<[k := b']> (books s))).
Proof.
  intros Hw Hid k' b. cbn. destruct (decide (k = k')) as [<-|Hne].
  - rewrite lookup_insert_eq. by intros [= <-].
  - rewrite lookup_insert_ne by done. apply Hw.
Qed.

(** What enriching an existing row does. *)
Lemma enrichExistingBook_facts existing candidate s0 s k :
  WellKeyed s -> Spec.StoreKeeps s0 s -> books s !! k = Some existing ->
  match enrichExistingBook existing candidate s with
  | Ok (enriched, s') =>
      WellKeyed s' /\ Spec.StoreKeeps s0 s' /\ size (books s') = size (books s)
      /\ books s' !! k = Some enriched /\ Spec.Keeps existing enriched
  | Err _ =>
      exists i, p_isbn (buildMetadataPatch existing candidate) = Some i
                /\ isbn_taken s k i = true
  end.
Proof.
  intros Hw Hs Hk. unfold enrichExistingBook.
  destruct (keys_length (buildMetadataPatch existing candidate) =? 0).
  { split; [exact Hw|]. split; [exact Hs|]. split; [reflexivity|].
    split; [exact Hk|]. apply keeps_refl. }
  pose proof (Hw _ _ Hk) as Hid. rewrite Hid.
  set (p := buildMetadataPatch existing candidate).
  assert (book_update k (patch_data p) s
          = Ok (patch_data p existing,
                set_books s (<[k := patch_data p existing]> (books s)))) as Hup
    by (unfold book_update; by rewrite Hk).
  assert (WellKeyed (set_books s (<[k := patch_data p existing]> (books s)))
          /\ Spec.StoreKeeps s0 (set_books s (<[k := patch_data p existing]> (books s)))
          /\ size (books (set_books s (<[k := patch_data p existing]> (books s))))
             = size (books s)
          /\ books (set_books s (<[k := patch_data p existing]> (books s))) !! k
             = Some (patch_data p existing)
          /\ Spec.Keeps existing (patch_data p existing)) as Hok.
  { split; [apply well_keyed_insert; [exact Hw | exact Hid]|].
    split.
    { apply store_keeps_insert; [exact Hs|]. intros b0 H0.
      destruct Hs as (Hb & _). destruct (Hb _ _ H0) as (x & Hx & Kx).
      assert (x = existing) as -> by congruence.
      apply patch_data_keeps; [|exact Kx].
      eapply fills_only_missing_mono; [exact Kx|]. apply patch_keys_only_missing. }
    split.
    { cbn. rewrite map_size_insert_Some; [done | by exists existing]. }
    split; [cbn; apply lookup_insert_eq|].
    apply patch_data_keeps; [apply patch_keys_only_missing | apply keeps_refl]. }
  unfold update_book. destruct (p_isbn p) as [i|] eqn:Ei.
  - destruct (isbn_taken s k i) eqn:Et; [by exists i|]. by rewrite Hup.
  - by rewrite Hup.
Qed.

Lemma persist_one_facts candidate acc s0 s :
  WellKeyed s -> Spec.StoreKeeps s0 s ->
  match persist_one insensitive_equals newId candidate acc s with
  | Ok (acc', s') =>
      WellKeyed s' /\ Spec.StoreKeeps s0 s'
      /\ exists row,
           books s' !! id row = Some row
           /\ ((acc' = reused row acc /\ size (books s') = size (books s))
               \/ (acc' = created row acc /\ size (books s') = S (size (books s))
                   /\ books s !! id row = None))
  | Err _ => True
  end.
Proof.
  intros Hw Hs. unfold persist_one.
  destruct (existingByIsbn candidate s) as [existing|] eqn:E1.
  { apply existingByIsbn_Some in E1 as (k & i & Hk & _).
    pose proof (enrichExistingBook_facts existing candidate s0 s k Hw Hs Hk) as H.
    destruct (enrichExistingBook existing candidate s) as [[enriched s']|e]; [|done].
    destruct H as (H1 & H2 & H3 & H4 & H5). split; [exact H1|]. split; [exact H2|].
    exists enriched. rewrite (H1 _ _ H4). split; [exact H4|]. by left. }
  destruct (findFirst_titleAuthor _ _ _ s) as [existing|] eqn:E2.
  { apply find_row_Some in E2 as (k & Hk & _).
    pose proof (enrichExistingBook_facts existing candidate s0 s k Hw Hs Hk) as H.
    destruct (enrichExistingBook existing candidate s) as [[enriched s']|e]; [|done].
    destruct H as (H1 & H2 & H3 & H4 & H5). split; [exact H1|]. split; [exact H2|].
    exists enriched. rewrite (H1 _ _ H4). split; [exact H4|]. by left. }
  unfold book_create.
  destruct (bool_decide (is_Some (books s !! newId s))) eqn:Eid; cbn [orb]; [done|].
  apply bool_decide_eq_false_1 in Eid.
  assert (books s !! newId s = None) as Hnone by (by apply eq_None_not_Some).
  destruct (match c_isbn candidate with Some i => isbn_in_use s i | None => false end);
    [done|].
  split; [by apply well_keyed_insert|]. split.
  { apply store_keeps_insert; [exact Hs|]. intros b0 H0.
    destruct Hs as (Hb & _). destruct (Hb _ _ H0) as (x & Hx & _). congruence. }
  eexists. split; [cbn; apply lookup_insert_eq|]. right.
  split; [reflexivity|]. split; [|exact Hnone].
  cbn. by rewrite map_size_insert_None.
Qed.




Lemma patch_isbn_Some existing candidate i :
  p_isbn (buildMetadataPatch existing candidate) = Some i ->
  c_isbn candidate = Some i /\ i <> "" /\ JS.truthy_opt (isbn existing) = false.
Proof.
  unfold buildMetadataPatch. cbn [p_isbn].
  destruct (JS.truthy_opt (isbn existing)); cbn [negb andb]; [discriminate|].
  destruct (c_isbn candidate) as [j|]; cbn [JS.truthy_opt]; [|discriminate].
  destruct j; cbn; [discriminate|]. intros [= <-]. done.
Qed.

Lemma persist_one_succeeds candidate acc s :
  books s !! newId s = None -> WellKeyed s -> c_isbn candidate <> Some "" ->
  exists acc' s', persist_one insensitive_equals newId candidate acc s = Ok (acc', s').
Proof.
  intros Hfresh Hw Hisbn. unfold persist_one.
  destruct (existingByIsbn candidate s) as [existing|] eqn:E1.
  { apply existingByIsbn_Some in E1 as (k & i & Hk & Hc & Hi & His).
    pose proof (enrichExistingBook_facts existing candidate s s k Hw (store_keeps_refl s) Hk)
      as H.
    destruct (enrichExistingBook existing candidate s) as [[enriched s']|e]; [by eexists _, _|].
    destruct H as (j & Hp & _). apply patch_isbn_Some in Hp as (_ & _ & Hp).
    rewrite His in Hp. destruct i; [done | discriminate]. }
  destruct (findFirst_titleAuthor _ _ _ s) as [existing|] eqn:E2.
  { apply find_row_Some in E2 as (k & Hk & _).
    pose proof (enrichExistingBook_facts existing candidate s s k Hw (store_keeps_refl s) Hk)
      as H.
    destruct (enrichExistingBook existing candidate s) as [[enriched s']|e]; [by eexists _, _|].
    destruct H as (j & Hp & Ht). apply patch_isbn_Some in Hp as (Hc & Hj & _).
    rewrite isbn_taken_false in Ht; [discriminate|].
    by apply (existingByIsbn_None candidate). }
  unfold book_create. rewrite bool_decide_eq_false_2 by (rewrite Hfresh; by intros [? ?]).
  cbn [orb]. destruct (c_isbn candidate) as [i|] eqn:Ec; [|by eexists _, _].
  rewrite isbn_in_use_false; [by eexists _, _|].
  apply (existingByIsbn_None candidate); [exact E1 | exact Ec | congruence].
Qed.

(** X9.  With ids that are new, an import of candidates whose ISBN is absent or
    not empty (as the parsed answers of the providers are) does not fail: no
    update and no insert of it runs into the unique ISBN. *)
Theorem import_of_clean_candidates_succeeds candidates s :
  (forall s', books s' !! newId s' = None) -> WellKeyed s ->
  (forall c, c ∈ candidates -> c_isbn c <> Some "") ->
  exists p, (persistExternalBooks insensitive_equals newId candidates s).1 = Ok p.
Proof.
  intros Hfresh Hw Hclean. unfold persistExternalBooks.
  assert (forall c, c ∈ dedupeCandidates candidates -> c_isbn c <> Some "") as Hc.
  { intros c Hin. apply Hclean. eapply sublist_subseteq; [|exact Hin].
    apply dedupe_from_sublist. }
  clear Hclean. generalize nothing_persisted as acc. revert s Hw.
  induction (dedupeCandidates candidates) as [|c cs IH]; intros s Hw acc.
  - by exists acc.
  - simpl.
    destruct (persist_one_succeeds c acc s (Hfresh s) Hw (Hc c ltac:(by left)))
      as (acc' & s' & E).
    pose proof (persist_one_facts c acc s s Hw (store_keeps_refl s)) as H.
    rewrite E in H |- *. destruct H as (Hw' & _).
    apply IH; [|exact Hw']. intros x Hx. apply Hc. by right.
Qed.

End PersistFacts.

(** ** The candidates parsed out of the providers' answers *)

Section CandidateFacts.
Import Db ExternalBooks Parse.

Variable numberToString : Z -> string.
Variable fetchOpenLibrary : string -> Z -> option (list OpenLibraryDoc).
Variable fetchGoogle : string -> Z -> option (list GoogleItem).

Lemma normalizeText_clean value t : normalizeText value = Some t -> Clean t.
Proof.
  destruct value as [v|]; [|discriminate]. simpl. rewrite length_pos_nonempty.
  destruct (JS.trim v) as [|c rest] eqn:E; [discriminate|]. intros [= <-].
  split; [done|]. rewrite <- E. apply trim_idem.
Qed.

Lemma unknown_author_clean : Clean "Unknown Author".
Proof. split; [done | reflexivity]. Qed.

Lemma first_isbn_shape values i : first_isbn values = Some i -> IsbnShape i.
Proof.
  induction values as [|v values IH]; [discriminate|]. simpl.
  destruct (normalizeIsbn v) as [j|] eqn:E; [|exact IH].
  destruct (JS.truthy j); [|exact IH]. intros [= <-].
  revert E. unfold normalizeIsbn. rewrite length_toUpperCase.
  destruct (Z.eqb_spec (Z.of_nat (String.length (Str.only is_isbn_char v))) 10) as [H10|H10];
    destruct (Z.eqb_spec (Z.of_nat (String.length (Str.only is_isbn_char v))) 13)
      as [H13|H13]; simpl; try discriminate; intros [= <-];
    (split; [rewrite length_toUpperCase; lia | apply cleaned_isbn_digits]).
Qed.

Lemma isbn_shape_not_empty i : IsbnShape i -> i <> "".
Proof. intros [[H|H] _] ->; discriminate. Qed.

Lemma normalizeCoverUrl_ok value u :
  normalizeCoverUrl value = Some u -> u <> "" /\ JS.startsWith u "http://" = false.
Proof.
  destruct value as [v|]; [|discriminate]. unfold normalizeCoverUrl.
  destruct v as [|c v]; [discriminate|].
  change (negb (JS.truthy (String c v))) with false. cbv iota.
  destruct (JS.startsWith (String c v) "http://") eqn:E; intros [= <-].
  - split; [done | reflexivity].
  - split; [done | exact E].
Qed.

Lemma parsed_year raw y : parsePublishedYear raw = Some y -> 0 <= y <= 2100.
Proof.
  destruct raw as [q|s|]; simpl; [| |discriminate].
  - destruct (Qle_bool 0 q) eqn:E1; [|discriminate].
    destruct (Qle_bool q 2100) eqn:E2; [|discriminate].
    intros [= <-]. apply Qle_bool_true in E1, E2.
    apply Qfloor_resp_le in E1, E2. split; [exact E1 | exact E2].
  - intros H. apply find_year_range in H. lia.
Qed.

Lemma parsed_rating raw r : parseAverageRating raw = Some r -> (0 <= r)%Q /\ (r <= 5)%Q.
Proof.
  destruct raw as [q|s|]; simpl; try discriminate. intros [= <-].
  destruct (clamp_range q) as [H0 H5].
  destruct (toFixed2_range _ H0 H5) as (A & B & _). by split.
Qed.

Lemma parsed_count raw n : parseRatingsCount raw = Some n -> 0 <= n.
Proof.
  destruct raw as [q|s|]; simpl; try discriminate.
  destruct (Qle_bool 0 q) eqn:E; [|discriminate]. intros [= <-].
  apply Qle_bool_true in E. apply Qfloor_resp_le in E. exact E.
Qed.

Lemma omap_length_le {A B} (f : A -> option B) (l : list A) :
  (length (omap f l) <= length l)%nat.
Proof.
  induction l as [|x l IH]; [simpl; lia|].
  change (omap f (x :: l))
    with (match f x with Some y => y :: omap f l | None => omap f l end).
  destruct (f x); simpl; lia.
Qed.

Lemma openLibraryCandidate_well_formed doc c :
  openLibraryCandidate numberToString doc = Some c ->
  WellFormed c /\ c_source c = from_openlibrary /\ c_description c = None.
Proof.
  unfold openLibraryCandidate.
  destruct (normalizeText (ol_title doc)) as [title|] eqn:Et; [|discriminate].
  intros [= <-]. split; [|done]. unfold WellFormed. cbn.
  split; [by eapply normalizeText_clean|]. split.
  { destruct (normalizeText (first (ol_author_name doc))) as [a|] eqn:Ea; cbn;
      [by eapply normalizeText_clean | apply unknown_author_clean]. }
  split.
  { intros i Hi. destruct (ol_isbn doc) as [vs|]; [|discriminate]. cbn in Hi.
    by eapply first_isbn_shape. }
  split; [intros g; apply normalizeText_clean|].
  split; [intros y; apply parsed_year|].
  split; [discriminate|].
  split.
  { intros u. destruct (ol_cover_i doc); [|discriminate]. intros [= <-]. done. }
  split; [intros r; apply parsed_rating | intros n; apply parsed_count].
Qed.

Lemma googleCandidate_well_formed item c :
  googleCandidate item = Some c -> WellFormed c /\ c_source c = from_google.
Proof.
  unfold googleCandidate.
  destruct (normalizeText (g_volumeInfo item ≫= g_title)) as [title|] eqn:Et; [|discriminate].
  intros [= <-]. split; [|done]. unfold WellFormed. cbn.
  split; [by eapply normalizeText_clean|]. split.
  { destruct (normalizeText (first (g_volumeInfo item ≫= g_authors))) as [a|] eqn:Ea; cbn;
      [by eapply normalizeText_clean | apply unknown_author_clean]. }
  split; [intros i; apply first_isbn_shape|].
  split; [intros g; apply normalizeText_clean|].
  split; [intros y; apply parsed_year|].
  split; [intros d; apply normalizeText_clean|].
  split; [intros u; apply normalizeCoverUrl_ok|].
  split; [intros r; apply parsed_rating | intros n; apply parsed_count].
Qed.

(** X5.  Every candidate that the two searches answer with is well formed: title
    and author are trimmed and not empty (an item without a title yields no
    candidate, a missing author is written as Unknown Author), an ISBN has
    10 or 13 characters, each a digit or X, the year lies in 0..2100, the
    rating in 0..5, the count is not negative, and the cover address is not
    empty and does not start with http://; the candidates come in the
    order of the items, one per item at most, tagged with their provider;
    Open Library is asked for 100 rows at most and Google Books for 40.
    So whatever an enrichment patch built from such a candidate writes is
    well formed too, and its author is none of the placeholder names. *)
Theorem provider_candidates_well_formed query limit :
  let fromOL := searchOpenLibrary numberToString fetchOpenLibrary query limit in
  let fromGoogle := searchGoogleBooks fetchGoogle query limit in
  Forall (fun c => WellFormed c /\ c_source c = from_openlibrary
                   /\ c_description c = None /\ c_isbn c <> Some "") fromOL
  /\ Forall (fun c => WellFormed c /\ c_source c = from_google /\ c_isbn c <> Some "")
            fromGoogle
  /\ fromOL = omap (openLibraryCandidate numberToString)
                (default [] (fetchOpenLibrary query (Z.min limit 100)))
  /\ fromGoogle = omap googleCandidate (default [] (fetchGoogle query (Z.min limit 40)))
  /\ (length fromOL <= length (default [] (fetchOpenLibrary query (Z.min limit 100))))%nat
  /\ (length fromGoogle <= length (default [] (fetchGoogle query (Z.min limit 40))))%nat
  /\ Z.min limit 100 <= 100 /\ Z.min limit 40 <= 40
  /\ (forall existing c, WellFormed c ->
        let p := buildMetadataPatch existing c in
        (forall a, p_author p = Some a -> Clean a /\ isUnknownAuthor a = false)
        /\ (forall i, p_isbn p = Some i -> IsbnShape i)
        /\ (forall u, p_coverUrl p = Some u -> JS.startsWith u "http://" = false)
        /\ (forall g, p_genre p = Some g -> Clean g)
        /\ (forall d, p_description p = Some d -> Clean d)
        /\ (forall y, p_publishedYear p = Some y -> 1 <= y <= 2100)
        /\ (forall r, p_averageRating p = Some r -> (0 <= r)%Q /\ (r <= 5)%Q)
        /\ (forall n, p_ratingsCount p = Some n -> 0 <= n)).
Proof.
  intros fromOL fromGoogle.
  split.
  { apply Forall_forall. intros c Hc. apply list_elem_of_omap in Hc as (doc & _ & Hc).
    apply openLibraryCandidate_well_formed in Hc as (H1 & H2 & H3).
    split; [exact H1|]. split; [exact H2|]. split; [exact H3|].
    intros E. destruct H1 as (_ & _ & Hi & _).
    by apply (isbn_shape_not_empty _ (Hi _ E)). }
  split.
  { apply Forall_forall. intros c Hc. apply list_elem_of_omap in Hc as (item & _ & Hc).
    apply googleCandidate_well_formed in Hc as (H1 & H2).
    split; [exact H1|]. split; [exact H2|].
    intros E. destruct H1 as (_ & _ & Hi & _).
    by apply (isbn_shape_not_empty _ (Hi _ E)). }
  split; [reflexivity|]. split; [reflexivity|].
  split; [apply omap_length_le|]. split; [apply omap_length_le|].
  split; [lia|]. split; [lia|].
  intros existing c (W1 & W2 & W3 & W4 & W5 & W6 & W7 & W8 & W9) p. subst p.
  unfold buildMetadataPatch. cbn.
  split.
  { intros a. destruct (isUnknownAuthor (author existing)); cbn [andb]; [|discriminate].
    destruct (JS.truthy (c_author c)); cbn [andb]; [|discriminate].
    destruct (isUnknownAuthor (c_author c)) eqn:E; cbn [negb]; [discriminate|].
    intros [= <-]. by split. }
  split.
  { intros i. destruct (negb (JS.truthy_opt (isbn existing)) && JS.truthy_opt (c_isbn c));
      [apply W3 | discriminate]. }
  split.
  { intros u. destruct (negb (JS.truthy_opt (coverUrl existing)) && JS.truthy_opt (c_coverUrl c));
      [|discriminate]. intros H. by apply W7. }
  split.
  { intros g. destruct (negb (JS.truthy_opt (genre existing)) && JS.truthy_opt (c_genre c));
      [apply W4 | discriminate]. }
  split.
  { intros d. destruct (negb (JS.truthy_opt (description existing))
                        && JS.truthy_opt (c_description c)); [apply W6 | discriminate]. }
  split.
  { intros y. destruct (negb (truthy_num (publishedYear existing))) ; cbn [andb]; [|discriminate].
    destruct (truthy_num (c_publishedYear c)) eqn:E; [|discriminate].
    intros H. pose proof (W5 _ H). rewrite H in E. cbn in E.
    apply negb_true_iff, Z.eqb_neq in E. lia. }
  split.
  { intros r. destruct (negb (JS.defined (averageRating existing))
                        && JS.defined (c_averageRating c)); [apply W8 | discriminate]. }
  intros n. destruct (negb (JS.defined (ratingsCount existing))
                      && JS.defined (c_ratingsCount c)); [apply W9 | discriminate].
Qed.

End CandidateFacts.

(** ** More on the due-date estimator *)

Section NormalizeFacts.















End NormalizeFacts.

Section PageCountFacts.
Import ReadingTime Pages.

Variable fetchGoogle : string -> option GooglePayload.
Variable fetchOpenLibrary : string -> option OpenLibraryPayload.

(** A loop that keeps an entry only when it scores strictly higher than the
    one it holds ends with the first of the highest-scoring entries. *)
Lemma keep_best_fold {A X} (score : A -> Z) (entry : X -> option A)
    (step : option A -> X -> option A) :
  (forall best x,
     step best x = match entry x with
                   | None => best
                   | Some e => match best with
                               | None => Some e
                               | Some b => if score b <? score e then Some e else Some b
                               end
                   end) ->
  forall xs best pre,
    match best with
    | Some b => FirstBest score pre b
    | None => pre = []
    end ->
    match fold_left step xs best with
    | Some b => FirstBest score (pre ++ omap entry xs) b
    | None => pre ++ omap entry xs = []
    end.
Proof.
  intros Hstep. induction xs as [|x xs IH]; intros best pre Hbest; simpl.
  - rewrite app_nil_r. exact Hbest.
  - change (list_omap X A entry xs) with (omap entry xs).
    rewrite Hstep. destruct (entry x) as [e|]; [|by apply IH].
    replace (pre ++ e :: omap entry xs) with ((pre ++ [e]) ++ omap entry xs)
      by (by rewrite <- app_assoc).
    apply (IH _ (pre ++ [e])). destruct best as [b|].
    + destruct Hbest as (before & after & -> & Hb & Ha).
      destruct (score b <? score e) eqn:E.
      * apply Z.ltb_lt in E. exists (before ++ b :: after), [].
        split; [done|]. split; [|constructor].
        apply Forall_app. split.
        -- eapply Forall_impl; [exact Hb|]. simpl. lia.
        -- constructor; [lia|]. eapply Forall_impl; [exact Ha|]. simpl. lia.
      * apply Z.ltb_ge in E. exists before, (after ++ [e]).
        split; [by rewrite <- app_assoc|]. split; [exact Hb|].
        apply Forall_app. split; [exact Ha|]. constructor; [lia | constructor].
    + subst pre. exists [], []. split; [done|]. split; constructor.
Qed.

Lemma google_step_entry t a best item :
  google_step t a best item
  = match google_entry t a item with
    | None => best
    | Some e => match best with
                | None => Some e
                | Some b => if g_score b <? g_score e then Some e else Some b
                end
    end.
Proof.
  unfold google_entry, google_step.
  destruct (volumeInfo item) as [volume|]; [|reflexivity].
  destruct (v_pageCount volume) as [pages|]; [|reflexivity].
  destruct ((pages =? 0) || (pages <? 30)); [reflexivity|].
  destruct best as [b|]; reflexivity.
Qed.

Lemma openlibrary_step_entry t a best doc :
  openlibrary_step t a best doc
  = match openlibrary_entry t a doc with
    | None => best
    | Some e => match best with
                | None => Some e
                | Some b => if o_score b <? o_score e then Some e else Some b
                end
    end.
Proof.
  unfold openlibrary_entry, openlibrary_step.
  destruct (number_of_pages_median doc) as [pages|]; [|reflexivity].
  destruct ((pages =? 0) || (pages <? 30)); [reflexivity|].
  destruct best as [b|]; reflexivity.
Qed.

Lemma similarity_range exact partial x y :
  0 <= partial <= exact -> 0 <= similarity exact partial x y <= exact.
Proof.
  intros H. unfold similarity. destruct (String.eqb x y); [lia|].
  destruct (_ && _); lia.
Qed.

Lemma google_entry_spec t a item :
  match google_entry t a item with
  | None =>
      forall volume pages,
        volumeInfo item = Some volume -> v_pageCount volume = Some pages -> pages < 30
  | Some e =>
      exists volume,
        volumeInfo item = Some volume
        /\ v_pageCount volume = Some (g_pageCount e)
        /\ 30 <= g_pageCount e
        /\ g_score e
           = similarity 30 15 (normalize (default "" (v_title volume))) t
             + similarity 20 10 (normalize (first_or_empty (v_authors volume))) a
             + Z.min 15 (g_pageCount e / 40)
        /\ g_category e = (v_categories volume ≫= head)
        /\ 0 <= g_score e <= 65
  end.
Proof.
  unfold google_entry, google_step.
  destruct (volumeInfo item) as [volume|]; [|intros ? ? [=]].
  destruct (v_pageCount volume) as [pages|] eqn:Ep; [|intros ? ? [= <-]; congruence].
  destruct ((pages =? 0) || (pages <? 30)) eqn:E.
  - intros v p [= <-] Hp. rewrite Ep in Hp. injection Hp as <-. lia.
  - exists volume. cbn [g_pageCount g_score g_category].
    assert (30 <= pages) as Hp by lia.
    split; [reflexivity|]. split; [exact Ep|]. split; [exact Hp|].
    split; [reflexivity|]. split.
    + destruct (v_categories volume) as [[|c cs]|]; reflexivity.
    + pose proof (similarity_range 30 15
        (normalize (default "" (v_title volume))) t ltac:(lia)).
      pose proof (similarity_range 20 10
        (normalize (first_or_empty (v_authors volume))) a ltac:(lia)).
      assert (0 <= pages / 40) by (apply Z.div_pos; lia). lia.
Qed.

Lemma openlibrary_entry_spec t a doc :
  match openlibrary_entry t a doc with
  | None => forall pages, number_of_pages_median doc = Some pages -> pages < 30
  | Some e =>
      number_of_pages_median doc = Some (o_pages e)
      /\ 30 <= o_pages e
      /\ o_score e
         = similarity 30 15 (normalize (default "" (d_title doc))) t
           + similarity 20 10 (normalize (first_or_empty (author_name doc))) a
      /\ 0 <= o_score e <= 50
  end.
Proof.
  unfold openlibrary_entry, openlibrary_step.
  destruct (number_of_pages_median doc) as [pages|]; [|intros ? [=]].
  destruct ((pages =? 0) || (pages <? 30)) eqn:E.
  - intros ? [= <-]. lia.
  - cbn [o_pages o_score]. split; [reflexivity|]. split; [lia|]. split; [reflexivity|].
    pose proof (similarity_range 30 15
      (normalize (default "" (d_title doc))) t ltac:(lia)).
    pose proof (similarity_range 20 10
      (normalize (first_or_empty (author_name doc))) a ltac:(lia)).
    lia.
Qed.

(** X20.  The page count that the estimator takes from a provider is that of the
    first of the highest-scoring usable results: a result is usable when its
    page count is 30 or more; it scores 30 for an equal normalised title (15
    for a containing one), 20 for an equal first author (10 for a containing
    one) and, at Google Books only, one point per 40 pages up to 15.  The
    category is the first category of that same volume.  A provider gives
    nothing exactly when none of its results is usable. *)
Theorem page_count_of_first_best_match input :
  let t := normalize (title input) in
  let a := normalize (author input) in
  let volumes := default [] (fetchGoogle (google_query input) ≫= items) in
  let documents := default [] (fetchOpenLibrary (openlibrary_query input) ≫= docs) in
  match result (findGooglePageCount fetchGoogle input) with
  | None => omap (google_entry t a) volumes = []
  | Some (pages, category) =>
      exists e, FirstBest g_score (omap (google_entry t a) volumes) e
                /\ g_pageCount e = pages /\ g_category e = category
  end
  /\ match result (findOpenLibraryPageCount fetchOpenLibrary input) with
     | None => omap (openlibrary_entry t a) documents = []
     | Some pages =>
         exists e, FirstBest o_score (omap (openlibrary_entry t a) documents) e
                   /\ o_pages e = pages
     end
  /\ (forall item,
        match google_entry t a item with
        | None =>
            forall volume pages,
              volumeInfo item = Some volume -> v_pageCount volume = Some pages ->
              pages < 30
        | Some e =>
            exists volume,
              volumeInfo item = Some volume
              /\ v_pageCount volume = Some (g_pageCount e)
              /\ 30 <= g_pageCount e
              /\ g_score e
                 = similarity 30 15 (normalize (default "" (v_title volume))) t
                   + similarity 20 10 (normalize (first_or_empty (v_authors volume))) a
                   + Z.min 15 (g_pageCount e / 40)
              /\ g_category e = (v_categories volume ≫= head)
              /\ 0 <= g_score e <= 65
        end)
  /\ (forall doc,
        match openlibrary_entry t a doc with
        | None => forall pages, number_of_pages_median doc = Some pages -> pages < 30
        | Some e =>
            number_of_pages_median doc = Some (o_pages e)
            /\ 30 <= o_pages e
            /\ o_score e
               = similarity 30 15 (normalize (default "" (d_title doc))) t
                 + similarity 20 10 (normalize (first_or_empty (author_name doc))) a
            /\ 0 <= o_score e <= 50
        end).
Proof.
  intros t a volumes documents.
  split; [|split; [|split]].
  - pose proof (keep_best_fold g_score (google_entry t a) (google_step t a)
                  (google_step_entry t a) volumes None [] eq_refl) as H.
    unfold findGooglePageCount. net_run.
    match goal with |- context [fold_left _ ?l None] => change l with volumes end.
    fold t a.
    destruct (fold_left (google_step t a) volumes None) as [b|]; simpl in H |- *.
    + exists b. split; [exact H|]. split; reflexivity.
    + exact H.
  - pose proof (keep_best_fold o_score (openlibrary_entry t a) (openlibrary_step t a)
                  (openlibrary_step_entry t a) documents None [] eq_refl) as H.
    unfold findOpenLibraryPageCount. net_run.
    match goal with |- context [fold_left _ ?l None] => change l with documents end.
    fold t a.
    destruct (fold_left (openlibrary_step t a) documents None) as [b|]; simpl in H |- *.
    + exists b. split; [exact H|]. reflexivity.
    + exact H.
  - intros item. apply google_entry_spec.
  - intros doc. apply openlibrary_entry_spec.
Qed.

Lemma round_mono q r : (q <= r)%Q -> JS.round q <= JS.round r.
Proof.
  intros H. unfold JS.round. apply Qfloor_resp_le. lra.
Qed.

Lemma pagesPerDay_positive category : 25 <= estimatePagesPerDay category <= 50.
Proof.
  unfold estimatePagesPerDay. destruct category as [c|]; [|lia].
  destruct (JS.is_empty c); [lia|].
  repeat match goal with |- context [if ?b then _ else _] => destruct b end; lia.
Qed.

(** X21.  At the same reading speed a longer book is never lent for fewer days,
    and whatever the page count and the category the loan period lies
    between 14 and 45 days and the due date between 14 and 45 days after
    the time of the estimate. *)
Theorem longer_book_never_shorter_loan category pages pages' now :
  pages <= pages' ->
  let period p := clampDays (inject_Z p / inject_Z (estimatePagesPerDay category)) in
  period pages <= period pages'
  /\ 14 <= period pages <= 45
  /\ now + 14 * 86400000 <= buildDueDate now (period pages) <= now + 45 * 86400000.
Proof.
  intros Hle period.
  pose proof (pagesPerDay_positive category) as Hpp.
  assert (14 <= period pages <= 45) as Hb by apply clampDays_bounds.
  split; [|split; [exact Hb|unfold buildDueDate; lia]].
  unfold period, clampDays.
  assert (JS.round (inject_Z pages / inject_Z (estimatePagesPerDay category))
          <= JS.round (inject_Z pages' / inject_Z (estimatePagesPerDay category))).
  { apply round_mono. unfold Qdiv. apply Qmult_le_compat_r.
    - rewrite <- Zle_Qle. exact Hle.
    - apply Qinv_le_0_compat. replace 0%Q with (inject_Z 0) by reflexivity.
      rewrite <- Zle_Qle. lia. }
  lia.
Qed.

End PageCountFacts.

(** ** The desk and the import on the sample shelf *)

Section Shelf.
Import Db Lending Ops Ledger.

Lemma one_book_consistent av : av = true -> forall pending, Consistent (Sample.one_book av pending).
Proof.
  intros -> pending. apply fresh_library_consistent.
  intros k b H. apply lookup_singleton_Some in H as [_ <-]. reflexivity.
Qed.

Lemma one_book_well_keyed av pending : WellKeyed (Sample.one_book av pending).
Proof.
  intros k b H. cbn [Sample.one_book books] in H.
  apply lookup_singleton_Some in H as [<- <-]. reflexivity.
Qed.

Lemma asked_consistent : Consistent Cases.asked.
Proof.
  split; [intros i l H; cbn [Cases.asked loans] in H; by rewrite lookup_nil in H|].
  split; intros k b H; cbn [Cases.asked books] in H;
    apply lookup_singleton_Some in H as [<- <-].
  - reflexivity.
  - split; [vm_compute; lia | reflexivity].
Qed.

End Shelf.



(** Member [u] asks for book A, member [v] checks it out, the librarian
    declines the request. *)
Lemma declined_request_on_lent_book_wedges_it_sample :
  Ledger.Wedged "A"
    (Ops.serve_all Sample.no_estimate
       [(1, Ops.CreateRequest (Some (Sample.member "u")) "A");
        (2, Ops.Checkout (Some (Sample.member "v")) (Sample.wants "A"));
        (3, Ops.Decline (Some Sample.librarian) 0%nat)]
       (Sample.one_book true false)).
Proof.
  destruct (declined_request_on_lent_book_wedges_it Sample.no_estimate 1 2 3
              (Sample.member "u") (Sample.member "v") Sample.librarian "A"
              (Sample.one_book true false) (Sample.shelf_book "A" true false))
    as [H _].
  - apply one_book_consistent. reflexivity.
  - reflexivity.
  - split; reflexivity.
  - reflexivity.
  - simpl; set_solver.
  - simpl; set_solver.
  - reflexivity.
  - exact H.
Defined.


(** The librarian declines the request of member [u]. *)
Lemma decision_is_unread_until_seen_sample :
  Requests.count (Requests.unread "u")
    (Lending.decline 1 (Some Sample.librarian) 0%nat Cases.asked).2
  = Requests.count (Requests.unread "u") Cases.asked + 1.
Proof.
  destruct (decision_is_unread_until_seen Sample.no_estimate 1 Sample.librarian 0%nat
              Cases.asking Cases.asked) as [H _].
  - reflexivity.
  - reflexivity.
  - reflexivity.
  - exact (H "u").
Defined.


Lemma import_of_clean_candidates_succeeds_sample :
  exists p,
    (ExternalSearch.persistExternalBooks Cases.same_text Cases.next_id
       [Sample.found_dune] (Sample.one_book true false)).1 = Db.Ok p.
Proof.
  apply (import_of_clean_candidates_succeeds Cases.same_text Cases.next_id
           [Sample.found_dune] (Sample.one_book true false)).
  - intros s'. apply fresh_string_fresh.
  - apply one_book_well_keyed.
  - intros c H. apply list_elem_of_singleton in H as ->. discriminate.
Defined.

(** A book of 100 pages and one of 700, no category. *)
Lemma longer_book_never_shorter_loan_sample :
  ReadingTime.clampDays (inject_Z 100 / inject_Z (ReadingTime.estimatePagesPerDay None))
  <= ReadingTime.clampDays (inject_Z 700 / inject_Z (ReadingTime.estimatePagesPerDay None)).
Proof.
  destruct (longer_book_never_shorter_loan None 100 700 0) as [H _].
  - lia.
  - exact H.
Defined.
